(** * NGNX.ViewRegistry2: the state machine of a view registry

    A shallow embedding of [src/src/viewregistry.js]: the constructor, the
    [state] accessor pair, the reaction table and the listeners that the
    constructor attaches, followed by the properties of the state machine;
    then the [self] and [properties] accessors and the [hide], [show] and
    [destroy] methods, and what holds in every world that these calls can
    reach.

    Conventions of the embedding.
    - JavaScript strings are sequences of code units; the development covers
      the code units [0..255] (Latin-1), on which [trim] and [toLowerCase]
      are written out below.
    - A JavaScript object used as a table ([states], [reactions], the field
      values of the property model) is a finite map of its own properties.
    - A reference that is [null] in the source is [None].
    - A user-supplied state handler is represented by how it ends (it
      returns, or it throws) and by its source text, which the wrapper
      inspects; a handler that itself assigns [state] is not covered. *)

From Stdlib Require Import ZArith Ascii String DecimalString.
From stdpp Require Import base option list gmap strings.

Open Scope string_scope.

(** ** JavaScript values and strings *)

Module Js.

(** The values that reach the registry: [undefined], [null], booleans,
    integral numbers and strings. *)
Inductive value : Type :=
| Undefined
| Null
| Bool (b : bool)
| Num (z : Z)
| Str (s : string).

#[global] Instance value_eq_dec : EqDecision value.
Proof. solve_decision. Defined.

(** [a === b]; on these values strict equality is equality of the tag
    and of the content. *)
Definition strict_eq (a b : value) : bool := bool_decide (a = b).

Definition nullish (v : value) : bool :=
  match v with
  | Undefined | Null => true
  | _ => false
  end.

(** [NGN.coalesce(a, b, ...)]: the first argument that is neither [null]
    nor [undefined], and [null] when there is none. *)
Fixpoint coalesce (args : list value) : value :=
  match args with
  | [] => Null
  | v :: rest => if nullish v then coalesce rest else v
  end.

(** The same function on references ([None] is [null]). *)
Fixpoint coalesce_ref {A : Type} (args : list (option A)) : option A :=
  match args with
  | [] => None
  | Some a :: _ => Some a
  | None :: rest => coalesce_ref rest
  end.

Definition string_of_Z (z : Z) : string :=
  NilZero.string_of_int (Z.to_int z).

(** The string a value becomes when it is used as a property key. *)
Definition to_key (v : value) : string :=
  match v with
  | Undefined => "undefined"
  | Null => "null"
  | Bool true => "true"
  | Bool false => "false"
  | Num z => string_of_Z z
  | Str s => s
  end.

(** [v.toString()]: there is no such method on [null] and [undefined]. *)
Definition toString (v : value) : option string :=
  if nullish v then None else Some (to_key v).

(** White space in the sense of [String.prototype.trim], among the code
    units below 256: TAB, LF, VT, FF, CR, SP and NBSP. *)
Definition is_white (c : ascii) : bool :=
  let n := nat_of_ascii c in
  (((9 <=? n) && (n <=? 13)) || (n =? 32) || (n =? 160))%nat.

Fixpoint trim_start (s : string) : string :=
  match s with
  | EmptyString => EmptyString
  | String c rest => if is_white c then trim_start rest else s
  end.

(** Dropping trailing white space: a character is kept when something
    that is kept follows it, or when it is not white space. *)
Fixpoint trim_end (s : string) : string :=
  match s with
  | EmptyString => EmptyString
  | String c rest =>
      match trim_end rest with
      | EmptyString => if is_white c then EmptyString else String c EmptyString
      | kept => String c kept
      end
  end.

Definition trim (s : string) : string := trim_end (trim_start s).

(** [toLowerCase] on one code unit: A-Z, and the Latin-1 capitals
    U+00C0-U+00DE without the multiplication sign U+00D7. *)
Definition lower_char (c : ascii) : ascii :=
  let n := nat_of_ascii c in
  if (((65 <=? n) && (n <=? 90))
      || ((192 <=? n) && (n <=? 222) && negb (n =? 215)))%nat
  then ascii_of_nat (n + 32)
  else c.

Fixpoint toLowerCase (s : string) : string :=
  match s with
  | EmptyString => EmptyString
  | String c rest => String (lower_char c) (toLowerCase rest)
  end.

(** [indexOf(needle) >= 0] *)
Definition includes (needle hay : string) : bool :=
  match String.index 0 needle hay with
  | Some _ => true
  | None => false
  end.

End Js.

(** ** Completions *)

Inductive exn : Type :=
| TypeError (msg : string)   (* raised by the language *)
| Error (msg : string)       (* [throw new Error(msg)] of the source *)
| Raised (what : string).    (* whatever a user handler throws *)

(** How a call ends: normally, by an exception, or (in the model only)
    because the recursion budget of a cascade is used up. *)
Inductive completion (A : Type) : Type :=
| Normal (a : A)
| Throw (e : exn)
| OutOfFuel.

Arguments Normal {A} a.
Arguments Throw {A} e.
Arguments OutOfFuel {A}.

(** ** The registry and its surroundings *)

Definition rid := nat.
Definition element := nat.

Inductive ending : Type :=
| Returns
| Throws (e : exn).

(** A state handler as the configuration supplies it. *)
Record handler : Type := Handler {
  h_ending : ending;
  h_source : string          (* [handlerFn.toString()] *)
}.

(** The no-op that line 271 installs under ["default"]. *)
Definition noop : handler := Handler Returns "() => {}".

(** The instance fields that [Object.defineProperties] creates (lines
    106-267), with [id] and [scope], which the [NGNX.Driver] superclass
    holds. *)
Record Registry : Type := mkRegistry {
  id : rid;
  scope : option string;
  selector : string;
  _parent : option rid;
  propertyFields : option (gmap string Js.value);
  _properties : option (gmap string Js.value);
  _states : gmap string handler;
  _state : option string;
  displaystate : option string;
  initialstate : string;
  _reactions : option (gmap string string)
}.

Definition with_state (st : option string) (R : Registry) : Registry :=
  mkRegistry (id R) (scope R) (selector R) (_parent R) (propertyFields R)
    (_properties R) (_states R) st (displaystate R) (initialstate R)
    (_reactions R).

Definition with_reactions (re : option (gmap string string)) (R : Registry)
  : Registry :=
  mkRegistry (id R) (scope R) (selector R) (_parent R) (propertyFields R)
    (_properties R) (_states R) (_state R) (displaystate R) (initialstate R)
    re.

(** The payload of the four events: [{property, old, new}]; the state
    events leave [property] undefined. *)
Record Change : Type := mkChange {
  property : Js.value;
  old : Js.value;
  new : Js.value
}.

(** The listeners the constructor attaches, each named after the place it
    is created. *)
Inductive listener : Type :=
| ForwardState (child : rid)      (* lines 311-313 *)
| ForwardProperty (child : rid)   (* lines 315-317 *)
| React (r : rid)                 (* lines 321-325 *)
| Dispatch (r : rid).             (* lines 345-347 *)

#[global] Instance listener_eq_dec : EqDecision listener.
Proof. solve_decision. Defined.

(** What can be observed from outside. *)
Inductive entry : Type :=
| Emitted (emitter : rid) (event topic : string) (payload : Change)
| Called (r : rid) (state_name : string)
| Warned (about : string).

Inductive ref_key : Type :=
| SelfRef (r : rid)
| NamedRef (name : string).

(** The callback handed to [NGNX.util.requeue] (lines 351-353). *)
Inductive task : Type :=
| ApplyInitialState (r : rid).

Record World : Type := mkWorld {
  document : gmap string (list element);  (* selector -> elements it matches *)
  registries : gmap rid Registry;         (* the registry objects *)
  bus : list (string * listener);         (* NGN.BUS, in subscription order *)
  refs : list (ref_key * string);         (* NGN.ref *)
  queue : list task;                      (* deferred callbacks *)
  trace : list entry;                     (* oldest first *)
  next_id : rid
}.

Definition with_registries (rs : gmap rid Registry) (w : World) : World :=
  mkWorld (document w) rs (bus w) (refs w) (queue w) (trace w) (next_id w).

Definition with_bus (b : list (string * listener)) (w : World) : World :=
  mkWorld (document w) (registries w) b (refs w) (queue w) (trace w) (next_id w).

Definition with_refs (r : list (ref_key * string)) (w : World) : World :=
  mkWorld (document w) (registries w) (bus w) r (queue w) (trace w) (next_id w).

Definition with_queue (q : list task) (w : World) : World :=
  mkWorld (document w) (registries w) (bus w) (refs w) q (trace w) (next_id w).

Definition with_trace (t : list entry) (w : World) : World :=
  mkWorld (document w) (registries w) (bus w) (refs w) (queue w) t (next_id w).

Definition with_next_id (n : rid) (w : World) : World :=
  mkWorld (document w) (registries w) (bus w) (refs w) (queue w) (trace w) n.

(** [document.querySelectorAll] and [document.querySelector]: the latter
    answers with the first match, or [null]. *)
Definition querySelectorAll (w : World) (sel : string) : list element :=
  default [] (document w !! sel).

Definition querySelector (w : World) (sel : string) : option element :=
  head (querySelectorAll w sel).

(** ** Sequencing *)

(** Code that reads and writes the world and may throw. *)
Definition M (A : Type) : Type := World -> completion A * World.

Definition ret {A : Type} (a : A) : M A := fun w => (Normal a, w).

Definition bind {A B : Type} (m : M A) (k : A -> M B) : M B :=
  fun w =>
    match m w with
    | (Normal a, w') => k a w'
    | (Throw e, w') => (Throw e, w')
    | (OutOfFuel, w') => (OutOfFuel, w')
    end.

Definition throw {A : Type} (e : exn) : M A := fun w => (Throw e, w).

Definition out_of_fuel {A : Type} : M A := fun w => (OutOfFuel, w).

#[global] Instance M_ret : MRet M := @ret.
#[global] Instance M_bind : MBind M := fun A B k m => bind m k.

Definition log (e : entry) : M unit :=
  fun w => (Normal tt, with_trace (trace w ++ [e]) w).

(** Reading [this] for the registry [r]. Every id that [ViewRegistry2]
    hands out names a registry; an id that names none raises. *)
Definition this (r : rid) : M Registry :=
  fun w =>
    match registries w !! r with
    | Some R => (Normal R, w)
    | None => (Throw (TypeError "not a registry"), w)
    end.

Definition reads {A : Type} (f : World -> A) : M A :=
  fun w => (Normal (f w), w).

Definition write (r : rid) (f : Registry -> Registry) : M unit :=
  fun w => (Normal tt, with_registries (alter f r (registries w)) w).

Fixpoint for_each {A : Type} (body : A -> M unit) (l : list A) : M unit :=
  match l with
  | [] => ret tt
  | a :: rest => body a;; for_each body rest
  end.

Definition deref {A : Type} (o : option A) (complaint : string) : M A :=
  match o with
  | Some a => ret a
  | None => throw (TypeError complaint)
  end.

(** ** Accessors and the reaction table (lines 371-485) *)

(** [get reactions]: [NGN.coalesce(this._reactions, {})]. *)
Definition get_reactions (R : Registry) : gmap string string :=
  default ∅ (_reactions R).

(** [get state]: [NGN.coalesce(this._state, 'default')]. *)
Definition get_state (R : Registry) : string :=
  default "default" (_state R).

(** [managesState]: once the constructor has wrapped the handlers every
    entry of [_states] is a function, so the [typeof] test adds nothing to
    [hasOwnProperty]. *)
Definition managesState (R : Registry) (state : string) : bool :=
  bool_decide (is_Some (_states R !! state)).

(** [managesReaction]: [this.reactions.hasOwnProperty(state)]. *)
Definition managesReaction (R : Registry) (state : Js.value) : bool :=
  bool_decide (is_Some (get_reactions R !! Js.to_key state)).

Definition createReaction (r : rid) (source target : string) : M unit :=
  R ← this r;
  match _parent R with
  | None =>
      log (Warned "Cannot create a reaction to a parent view registry when no parent is configured.")
  | Some _ =>
      (* this._reactions[source] = target *)
      table ← deref (_reactions R) "Cannot set property of null";
      write r (with_reactions (Some (<[source := target]> table)))
  end.

Definition removeReaction (r : rid) (source : string) : M unit :=
  R ← this r;
  if managesReaction R (Js.Str source) then
    (* delete this._reactions[source] *)
    table ← deref (_reactions R) "Cannot convert null to object";
    write r (with_reactions (Some (delete source table)))
  else ret tt.

Definition clearReactions (r : rid) : M unit :=
  write r (with_reactions None).

(** ** The event channel *)

(** Modelled from the spec: the [on] and [emit] methods that the registry
    inherits from [NGNX.Driver], and the bus behind them. Every event name
    is prefixed with the namespace of the registry it is used on;
    subscribing appends to the subscriptions of that topic; emitting runs
    the subscriptions of the topic at once and in order, and an exception
    of a listener passes through to whoever emitted. *)
Definition topic (R : Registry) (event : string) : string :=
  default "" (scope R) ++ event.

Definition on (R : Registry) (event : string) (l : listener) : M unit :=
  fun w => (Normal tt, with_bus (bus w ++ [(topic R event, l)]) w).

Definition subscribers (t : string) (w : World) : list listener :=
  snd <$> filter (fun s => fst s = t) (bus w).

Definition emitter : Type := rid -> string -> Change -> M unit.

(** ** The state machine (lines 320-347 and 395-410) *)

Definition value_of_ref (o : option string) : Js.value :=
  match o with
  | Some s => Js.Str s
  | None => Js.Null
  end.

(** [set state (value)] *)
Definition set_state (emit : emitter) (r : rid) (value : Js.value) : M unit :=
  R ← this r;
  if Js.strict_eq (Js.Str (get_state R)) value then ret tt
  else
    let old_state := get_state R in
    s ← deref (Js.toString value) "Cannot read property 'toString'";
    write r (with_state (Some (Js.toLowerCase (Js.trim s))));;
    R' ← this r;
    emit r "state.changed" (mkChange Js.Undefined (Js.Str old_state)
                              (value_of_ref (_state R'))).

(** The closure that replaces each entry of [_states] (lines 330-341).
    What it forwards to [handlerFn] is the [arguments] of the enclosing
    constructor; the model records that the handler ran. *)
Definition wrapped (r : rid) (scope_name : string) (handlerFn : handler)
  : M unit :=
  log (Called r scope_name);;
  match h_ending handlerFn with
  | Returns => ret tt
  | Throws e =>
      let fnString := Js.toLowerCase (h_source handlerFn) in
      (if Js.includes "this." fnString && negb (Js.includes "function" fnString)
       then log (Warned scope_name)
       else ret tt);;
      throw e
  end.

(** What a listener does when its topic fires. *)
Definition notify (emit : emitter) (l : listener) (change : Change)
  : M unit :=
  match l with
  | ForwardState child => emit child "parent.state.changed" change
  | ForwardProperty child => emit child "parent.property.changed" change
  | React r =>
      R ← this r;
      if managesReaction R (new change) then
        set_state emit r
          (match get_reactions R !! Js.to_key (new change) with
           | Some target => Js.Str target
           | None => Js.Undefined
           end)
      else ret tt
  | Dispatch r =>
      R ← this r;
      let name := Js.to_key (Js.coalesce [new change; Js.Str "default"]) in
      match _states R !! name with
      | Some handlerFn => wrapped r name handlerFn
      | None => throw (TypeError "Cannot read property 'apply' of undefined")
      end
  end.

(** [this.emit(event, payload)] on the registry [r]. A cascade of reactions
    is a recursion through [emit]; [fuel] bounds its depth. *)
Fixpoint emit (fuel : nat) (r : rid) (event : string) (payload : Change)
  : M unit :=
  match fuel with
  | O => out_of_fuel
  | S fuel' =>
      R ← this r;
      log (Emitted r event (topic R event) payload);;
      listeners ← reads (subscribers (topic R event));
      for_each (fun l => notify (emit fuel') l payload) listeners
  end.

(** [registry.state = value], from outside. *)
Definition assign_state (fuel : nat) (r : rid) (value : Js.value) : M unit :=
  set_state (emit fuel) r value.

(** ** Property events (lines 277-306) *)

(** What the property model passes to its listeners. *)
Record FieldChange : Type := mkFieldChange {
  fc_field : Js.value;
  fc_old : Js.value;
  fc_new : Js.value;
  fc_value : Js.value
}.

Inductive field_event : Type :=
| field_update
| field_create
| field_delete.

(** The three listeners on [this._properties]. *)
Definition property_listener (emit : emitter) (r : rid) (ev : field_event)
  (change : FieldChange) : M unit :=
  match ev with
  | field_update =>
      emit r "property.changed"
        (mkChange (fc_field change) (fc_old change) (fc_new change))
  | field_create =>
      R ← this r;
      model ← deref (_properties R) "Cannot read property of null";
      emit r "property.changed"
        (mkChange (fc_field change) Js.Null
           (Js.coalesce
              [default Js.Undefined (model !! Js.to_key (fc_field change))]))
  | field_delete =>
      emit r "property.changed"
        (mkChange (fc_field change) (fc_value change) Js.Null)
  end.

(** The property model firing one of its events: the listeners exist on a
    registry that has a model (line 278). *)
Definition fire (fuel : nat) (r : rid) (ev : field_event)
  (change : FieldChange) : M unit :=
  R ← this r;
  match _properties R with
  | Some _ => property_listener (emit fuel) r ev change
  | None => ret tt
  end.

(** ** Deferred callbacks *)

(** Modelled from the spec: [NGNX.util.requeue] hands the callback to the
    next turn of the scheduler instead of running it. *)
Definition requeue (t : task) : M unit :=
  fun w => (Normal tt, with_queue (queue w ++ [t]) w).

Definition run_task (fuel : nat) (t : task) : M unit :=
  match t with
  | ApplyInitialState r =>
      R ← this r;
      assign_state fuel r (Js.Str (initialstate R))
  end.

(** One turn of the scheduler: the oldest deferred callback runs. *)
Definition next_turn (fuel : nat) : M unit :=
  fun w =>
    match queue w with
    | [] => (Normal tt, w)
    | t :: rest => run_task fuel t (with_queue rest w)
    end.

(** ** The constructor (lines 54-355) *)

Module Cfg.

(** The configuration object; a field that the object does not own is
    [None]. *)
Record t : Type := make {
  selector : option string;
  parent : option rid;
  namespace : option string;
  references : option (gmap string string);
  properties : option (gmap string Js.value);
  states : option (gmap string handler);
  initialState : option string;
  initialstate : option string;
  reactions : option (gmap string string)
}.

Definition empty : t := make None None None None None None None None None.

Definition with_selector (s : option string) (c : t) : t :=
  make s (parent c) (namespace c) (references c) (properties c) (states c)
    (initialState c) (initialstate c) (reactions c).

Definition with_namespace (n : option string) (c : t) : t :=
  make (selector c) (parent c) n (references c) (properties c) (states c)
    (initialState c) (initialstate c) (reactions c).

Definition with_references (r : option (gmap string string)) (c : t) : t :=
  make (selector c) (parent c) (namespace c) r (properties c) (states c)
    (initialState c) (initialstate c) (reactions c).

End Cfg.

(** What [new NGNX.ViewRegistry2(...)] is called with. *)
Inductive argument : Type :=
| Falsy                          (* nothing, [null], ... : replaced by [{}] *)
| NotObject (type_of : string)   (* [typeof cfg] is not ['object'] *)
| Object (cfg : Cfg.t).

Definition truthy (o : option string) : bool :=
  match o with
  | Some s => negb (String.eqb s "")
  | None => false
  end.

(** Lines 67-83 for a configuration that has a [parent]. The steps write
    into the configuration object itself, so the object is part of what
    they leave behind. *)
Definition inherit (w : World) (p : rid) (sel : string) (cfg : Cfg.t)
  : Cfg.t * option exn :=
  match registries w !! p with
  | None => (cfg, Some (TypeError "Cannot read property 'selector'"))
  | Some P =>
      match querySelector w (selector P) with
      | None => (cfg, Some (Error "Parent component could not be found."))
      | Some _ =>
          let cfg := Cfg.with_selector (Some (selector P ++ " " ++ sel)) cfg in
          (match Cfg.namespace cfg with
           | Some ns =>
               match scope P with
               | Some parent_scope =>
                   Cfg.with_namespace (Some (parent_scope ++ ns)) cfg
               | None => cfg
               end
           | None =>
               if truthy (scope P) then Cfg.with_namespace (scope P) cfg
               else cfg
           end, None)
      end
  end.

(** Lines 85-90. *)
Definition scope_references (sel : string) (cfg : Cfg.t) : Cfg.t :=
  match Cfg.references cfg with
  | Some table =>
      Cfg.with_references (Some ((fun target => sel ++ " " ++ target) <$> table))
        cfg
  | None => cfg
  end.

(** Lines 62-96: everything that comes before [super(cfg)]. *)
Definition prepare (w : World) (cfg : Cfg.t) : Cfg.t * option exn :=
  match Cfg.selector cfg with
  | None =>
      (cfg, Some (Error "Missing required configuration attribute: selector"))
  | Some sel =>
      let inherited :=
        match Cfg.parent cfg with
        | Some p => inherit w p sel cfg
        | None => (cfg, None)
        end in
      match inherited with
      | (cfg, Some e) => (cfg, Some e)
      | (cfg, None) =>
          let sel := default sel (Cfg.selector cfg) in
          let cfg := scope_references sel cfg in
          match querySelector w sel with
          | None =>
              (cfg, Some (Error ("Could not find valid DOM element for '"
                                   ++ sel ++ "'")))
          | Some _ => (cfg, None)
          end
      end
  end.

(** Modelled from the spec: the constructor of [NGNX.Driver], reached by
    [super(cfg)]. It gives the instance its [id], keeps the configured
    namespace as [scope] and hands the named references to the reference
    table. *)
Definition Driver (cfg : Cfg.t) : M (rid * option string) :=
  fun w =>
    let named :=
      (fun entry => (NamedRef (fst entry), snd entry))
        <$> map_to_list (default ∅ (Cfg.references cfg)) in
    (Normal (next_id w, Cfg.namespace cfg),
     with_refs (refs w ++ named) (with_next_id (S (next_id w)) w)).

(** [NGN.ref.create] *)
Definition ref_create (k : ref_key) (sel : string) : M unit :=
  fun w => (Normal tt, with_refs (refs w ++ [(k, sel)]) w).

Definition store (R : Registry) : M unit :=
  fun w => (Normal tt, with_registries (<[id R := R]> (registries w)) w).

Definition with_states (s : gmap string handler) (R : Registry) : Registry :=
  mkRegistry (id R) (scope R) (selector R) (_parent R) (propertyFields R)
    (_properties R) s (_state R) (displaystate R) (initialstate R)
    (_reactions R).

Definition with_properties (m : option (gmap string Js.value)) (R : Registry)
  : Registry :=
  mkRegistry (id R) (scope R) (selector R) (_parent R) (propertyFields R)
    m (_states R) (_state R) (displaystate R) (initialstate R)
    (_reactions R).

(** Lines 106-267: the fields as [Object.defineProperties] sets them. *)
Definition fields (i : rid) (ns : option string) (sel : string) (cfg : Cfg.t)
  : Registry :=
  {| id := i;
     scope := ns;
     selector := sel;
     _parent := Js.coalesce_ref [Cfg.parent cfg];
     propertyFields := Js.coalesce_ref [Cfg.properties cfg];
     _properties := None;
     _states := default ∅ (Js.coalesce_ref [Cfg.states cfg; Some ∅]);
     _state := Some "default";
     displaystate := None;
     initialstate :=
       default "default"
         (Js.coalesce_ref
            [Cfg.initialState cfg; Cfg.initialstate cfg; Some "default"]);
     _reactions := Js.coalesce_ref [Cfg.reactions cfg] |}.

(** Line 270: "Assure a default state method exists". *)
Definition assure_default (R : Registry) : Registry :=
  if managesState R "default" then R
  else with_states (<["default" := noop]> (_states R)) R.

(** Lines 278-282: the property model starts from the field
    specification. *)
Definition initialise_properties (R : Registry) : Registry :=
  match propertyFields R with
  | Some spec => with_properties (Some spec) R
  | None => R
  end.

(** Line 350: whether the initial state is to be applied. *)
Definition wants_initial_state (R : Registry) : bool :=
  negb (Js.strict_eq (Js.Str (initialstate R)) (value_of_ref (_state R)))
  && managesState R (initialstate R).

(** Lines 99-354, for a configuration that passed [prepare]. *)
Definition initialise (sel : string) (cfg : Cfg.t) : M rid :=
  '(i, ns) ← Driver cfg;
  let R := assure_default (fields i ns sel cfg) in
  (* Create a self reference by Driver ID *)
  ref_create (SelfRef i) sel;;
  (* Initialize the properties store *)
  let R := initialise_properties R in
  store R;;
  (* Watch the parent, if it exists. *)
  match _parent R with
  | Some p =>
      P ← this p;
      on P "state.changed" (ForwardState i);;
      on P "property.changed" (ForwardProperty i)
  | None => ret tt
  end;;
  (* React to changes in the parent view. *)
  on R "parent.state.changed" (React i);;
  (* Apply state changes *)
  on R "state.changed" (Dispatch i);;
  (* Set the initial state. *)
  (if wants_initial_state R then requeue (ApplyInitialState i) else ret tt);;
  ret i.

(** [new NGNX.ViewRegistry2(arg)]: how the call ends, what has become of
    the argument, and the world afterwards. *)
Definition ViewRegistry2 (arg : argument) (w : World)
  : completion rid * argument * World :=
  match arg with
  | NotObject type_of =>
      (Throw (Error ("Invalid configuration. Expected Object, received "
                       ++ type_of ++ ".")), arg, w)
  | Falsy =>
      match prepare w Cfg.empty with
      | (_, Some e) => (Throw e, arg, w)
      | (cfg, None) =>
          let '(c, w') := initialise (default "" (Cfg.selector cfg)) cfg w in
          (c, arg, w')
      end
  | Object cfg =>
      match prepare w cfg with
      | (cfg, Some e) => (Throw e, Object cfg, w)
      | (cfg, None) =>
          let '(c, w') := initialise (default "" (Cfg.selector cfg)) cfg w in
          (c, Object cfg, w')
      end
  end.

(** A page and nothing else. *)
Definition page (doc : gmap string (list element)) : World :=
  {| document := doc; registries := ∅; bus := []; refs := []; queue := [];
     trace := []; next_id := 0 |}.

(** ** Vocabulary of the statements *)

(** The normalization that [set state] applies to what it is given. *)
Definition normalize (s : string) : string := Js.toLowerCase (Js.trim s).

(** The state of the registry [r], as [get state] reports it. *)
Definition state_of (w : World) (r : rid) : option string :=
  get_state <$> registries w !! r.

Definition reactions_of (w : World) (r : rid) : option (gmap string string) :=
  get_reactions <$> registries w !! r.

(** What has been appended to the trace between two worlds. *)
Definition since (before after : World) : list entry :=
  drop (length (trace before)) (trace after).

(** The payloads of the [event]s that the registry [r] emitted. *)
Fixpoint events_of (r : rid) (event : string) (l : list entry) : list Change :=
  match l with
  | [] => []
  | Emitted r' event' _ payload :: rest =>
      if bool_decide (r' = r) && String.eqb event' event
      then payload :: events_of r event rest
      else events_of r event rest
  | _ :: rest => events_of r event rest
  end.

(** The handlers of [r] that ran, by state name. *)
Fixpoint calls_of (r : rid) (l : list entry) : list string :=
  match l with
  | [] => []
  | Called r' name :: rest =>
      if bool_decide (r' = r) then name :: calls_of r rest else calls_of r rest
  | _ :: rest => calls_of r rest
  end.

(** The change of one registry's state, as [set state] performs it. *)
Definition enter (r : rid) (st : string) (w : World) : World :=
  with_registries (alter (with_state (Some st)) r (registries w)) w.

Definition logged (e : entry) (w : World) : World :=
  with_trace (trace w ++ [e]) w.

Definition state_change (from to : string) : Change :=
  mkChange Js.Undefined (Js.Str from) (Js.Str to).

(** ** A page and the registries of the examples *)

Module Scenario.

(** The page: one application root, a panel inside it, and two list
    items that share a class. *)
Definition doc : gmap string (list element) :=
  {[ "#app" := [1]; "#app .panel" := [2]; ".item" := [3; 4] ]}.

Definition quiet : handler := Handler Returns "function (change) { }".

Definition failing : handler :=
  Handler (Throws (Raised "no connection")) "(change) => { this.ref.x.hide() }".

Definition connection : gmap string handler :=
  {[ "default" := quiet; "offline" := quiet; "online" := quiet ]}.

(** The world that [new NGNX.ViewRegistry2(cfg)] leaves behind. *)
Definition after_new (cfg : Cfg.t) (w : World) : World :=
  snd (ViewRegistry2 (Object cfg) w).

Definition after_assign (r : rid) (v : string) (w : World) : World :=
  snd (assign_state 8 r (Js.Str v) w).

Definition after_turn (w : World) : World := snd (next_turn 8 w).

(** No states configured: only the synthesized ["default"]. *)
Definition plain_cfg : Cfg.t :=
  Cfg.make (Some "#app") None None None None None None None None.

Definition plain : World := after_new plain_cfg (page doc).

(** Registry A of the documentation: three states, initially offline. *)
Definition A_cfg : Cfg.t :=
  Cfg.make (Some "#app") None (Some "app.") None None (Some connection)
    (Some "offline") None None.

Definition A_built : World := after_new A_cfg (page doc).
Definition A_offline : World := after_turn A_built.
Definition A_online : World := after_assign 0 "online" A_offline.

(** Registry B: a child of A that becomes active when A goes online. *)
Definition B_cfg (target : string) : Cfg.t :=
  Cfg.make (Some ".panel") (Some 0) (Some "panel.") None None
    (Some {[ "active" := quiet ]}) None None
    (Some {[ "online" := target ]}).

Definition AB : World := after_new (B_cfg "active") A_offline.



(** A whose ["online"] handler throws, and its child. *)
Definition A_failing_cfg : Cfg.t :=
  Cfg.make (Some "#app") None (Some "app.") None None
    (Some (<["online" := failing]> connection)) None None None.

Definition AB_failing : World :=
  after_new (B_cfg "active") (after_new A_failing_cfg (page doc)).

(** A child that is given no reactions. *)
Definition C_cfg : Cfg.t :=
  Cfg.make (Some ".panel") (Some 0) (Some "panel.") None None None None None
    None.

Definition AC : World := after_new C_cfg A_offline.



(** Selectors that match two elements, and none. *)
Definition items_cfg : Cfg.t :=
  Cfg.make (Some ".item") None None None None None None None None.

Definition missing_cfg : Cfg.t :=
  Cfg.make (Some ".missing") (Some 0) (Some "gone.")
    (Some {[ "title" := "h1" ]}) None None None None None.

(** A registry with a property model. *)
Definition D_cfg : Cfg.t :=
  Cfg.make (Some "#app") None (Some "app.") None
    (Some {[ "title" := Js.Str "untitled" ]}) None None None None.

Definition D : World := after_new D_cfg (page doc).

Definition registry (w : World) (r : rid) : Registry :=
  default (fields r None "" Cfg.empty) (registries w !! r).

End Scenario.

(** ** What a dispatch adds to the trace *)

Definition extended (l : list entry) (w : World) : World :=
  with_trace (trace w ++ l) w.

Definition completion_of (e : ending) : completion unit :=
  match e with
  | Returns => Normal tt
  | Throws x => Throw x
  end.

(** The advisory warning of the wrapper (lines 334-337). *)
Definition warning (name : string) (h : handler) : list entry :=
  match h_ending h with
  | Returns => []
  | Throws _ =>
      let fnString := Js.toLowerCase (h_source h) in
      if Js.includes "this." fnString && negb (Js.includes "function" fnString)
      then [Warned name]
      else []
  end.

(** How the dispatch listener ends for the table entry it finds, and what
    it adds to the trace. *)
Definition dispatched (r : rid) (name : string) (found : option handler)
  : completion unit * list entry :=
  match found with
  | Some h => (completion_of (h_ending h), Called r name :: warning name h)
  | None => (Throw (TypeError "Cannot read property 'apply' of undefined"), [])
  end.

(** The current value of a field of the property model, [null] when
    there is none. *)
Definition current_value (model : gmap string Js.value) (field : Js.value)
  : Js.value :=
  match model !! Js.to_key field with
  | Some v => if Js.nullish v then Js.Null else v
  | None => Js.Null
  end.

(** The payload that each field event is translated to. *)
Definition translation (model : gmap string Js.value) (ev : field_event)
  (change : FieldChange) : Change :=
  match ev with
  | field_update =>
      {| property := fc_field change; old := fc_old change;
         new := fc_new change |}
  | field_create =>
      {| property := fc_field change; old := Js.Null;
         new := current_value model (fc_field change) |}
  | field_delete =>
      {| property := fc_field change; old := fc_value change;
         new := Js.Null |}
  end.

(** The registry object that the constructor builds. *)
Definition instance (i : rid) (sel : string) (cfg : Cfg.t) : Registry :=
  initialise_properties (assure_default (fields i (Cfg.namespace cfg) sel cfg)).

(** The selector after parent scoping (line 72). *)
Definition effective_selector (w : World) (cfg : Cfg.t) (sel : string)
  : string :=
  match Cfg.parent cfg with
  | Some p =>
      match registries w !! p with
      | Some P => selector P ++ " " ++ sel
      | None => sel
      end
  | None => sel
  end.

(** The namespace after parent scoping (lines 75-82). *)
Definition inherited_namespace (parent_scope ns : option string)
  : option string :=
  match ns with
  | Some own =>
      match parent_scope with
      | Some ps => Some (ps ++ own)
      | None => Some own
      end
  | None => if truthy parent_scope then parent_scope else None
  end.

Definition effective_namespace (w : World) (cfg : Cfg.t) : option string :=
  match Cfg.parent cfg with
  | Some p =>
      match registries w !! p with
      | Some P => inherited_namespace (scope P) (Cfg.namespace cfg)
      | None => Cfg.namespace cfg
      end
  | None => Cfg.namespace cfg
  end.

(** The subscriptions of lines 311-317 and of lines 321 and 345. *)
Definition parent_subscriptions (P : Registry) (i : rid)
  : list (string * listener) :=
  [(topic P "state.changed", ForwardState i);
   (topic P "property.changed", ForwardProperty i)].

Definition own_subscriptions (R : Registry) (i : rid)
  : list (string * listener) :=
  [(topic R "parent.state.changed", React i);
   (topic R "state.changed", Dispatch i)].

(** The parent of a configuration, when it has one, is a registry. *)
Definition parent_is_registry (w : World) (cfg : Cfg.t) : Prop :=
  forall p, Cfg.parent cfg = Some p -> is_Some (registries w !! p).

(** ** Invariants used in the proofs *)

(** Entries that a cascade below an emission can add: calls, warnings and
    emissions of the three events that listeners emit. *)
Definition cascade_entry (e : entry) : Prop :=
  match e with
  | Emitted _ event _ _ => event <> "property.changed"
  | _ => True
  end.

(** [evolves w w']: [w'] differs from [w] in the [_state] of registries,
    where a new one is a normalized name, and in entries appended to the
    trace, all of them [cascade_entry]s. *)
Record evolves (w w' : World) : Prop := {
  ev_document : document w' = document w;
  ev_bus : bus w' = bus w;
  ev_refs : refs w' = refs w;
  ev_queue : queue w' = queue w;
  ev_next_id : next_id w' = next_id w;
  ev_registries :
    forall r, with_state None <$> registries w' !! r
              = with_state None <$> registries w !! r;
  ev_states :
    forall r R R',
      registries w !! r = Some R -> registries w' !! r = Some R' ->
      _state R' = _state R \/ exists s, _state R' = Some (normalize s);
  ev_trace : exists extra : list entry,
      trace w' = (trace w ++ extra)%list /\ Forall cascade_entry extra
}.

(** What [prepare] has established when it lets a configuration pass. *)
Record prepared (w : World) (cfg cfg' : Cfg.t) (sel : string) : Prop := {
  pr_selector : Cfg.selector cfg = Some sel;
  pr_effective : Cfg.selector cfg' = Some (effective_selector w cfg sel);
  pr_resolves : is_Some (querySelector w (effective_selector w cfg sel));
  pr_parent : Cfg.parent cfg' = Cfg.parent cfg;
  pr_parent_ok : parent_is_registry w cfg;
  pr_parent_resolves :
    forall p P, Cfg.parent cfg = Some p -> registries w !! p = Some P ->
                is_Some (querySelector w (selector P));
  pr_namespace : Cfg.namespace cfg' = effective_namespace w cfg;
  pr_properties : Cfg.properties cfg' = Cfg.properties cfg;
  pr_states : Cfg.states cfg' = Cfg.states cfg;
  pr_initialState : Cfg.initialState cfg' = Cfg.initialState cfg;
  pr_initialstate : Cfg.initialstate cfg' = Cfg.initialstate cfg;
  pr_reactions : Cfg.reactions cfg' = Cfg.reactions cfg
}.


(** ** Hierarchies *)

(** A world in which every registry's [state.changed] topic carries the
    registry's own dispatch listener followed by the forwarding listeners
    of exactly its children, every [parent.state.changed] topic carries
    the registry's own reaction listener, and children are younger than
    their parents. The constructor builds such worlds when registries are
    given namespaces of their own. *)
Record hierarchy (w : World) : Prop := {
  h_state_topic :
    forall r R, registries w !! r = Some R ->
    exists kids,
      subscribers (topic R "state.changed") w
      = Dispatch r :: (ForwardState <$> kids)
      /\ NoDup kids
      /\ forall k, k ∈ kids
                   <-> exists K, registries w !! k = Some K
                                 /\ _parent K = Some r;
  h_reaction_topic :
    forall r R, registries w !! r = Some R ->
    subscribers (topic R "parent.state.changed") w = [React r];
  h_younger :
    forall k K p, registries w !! k = Some K -> _parent K = Some p -> p < k;
  h_bound :
    forall r R, registries w !! r = Some R -> r < next_id w
}.

(** A world in which every registry holds a state name in the form the
    setter stores: trimmed and in lower case. *)
Definition normalized (w : World) : Prop :=
  forall r R, registries w !! r = Some R ->
              normalize (get_state R) = get_state R.

(** The name under which the dispatch listener looks up the handler. *)
Definition handler_name (change : Change) : string :=
  Js.to_key (Js.coalesce [new change; Js.Str "default"]).

(** An entry that is neither a [state.changed] event of the registry [y]
    nor a call of one of its handlers. *)
Definition silent (y : rid) (e : entry) : Prop :=
  match e with
  | Emitted r event _ _ => r = y -> event <> "state.changed"
  | Called r _ => r <> y
  | Warned _ => True
  end.

(** What the emission of [state.changed] on [x] puts on the trace before
    any child is told: the event, and what its own dispatch adds. *)
Definition heading (fuel : nat) (x : rid) (X : Registry) (change : Change)
  : list entry :=
  match fuel with
  | O => []
  | S _ =>
      Emitted x "state.changed" (topic X "state.changed") change
      :: (dispatched x (handler_name change)
            (_states X !! handler_name change)).2
  end.

(** What a cascade that starts at [x] with [fuel] does: after its
    [heading], it leaves every registry [y] that is not below [x] as it
    was, and adds nothing in the name of such a registry. *)
Definition cascade_spec (fuel : nat) : Prop :=
  forall x X change w c w1,
    hierarchy w ->
    registries w !! x = Some X ->
    emit fuel x "state.changed" change w = (c, w1) ->
    (2 * (next_id w - x) <= fuel -> c <> OutOfFuel)
    /\ exists rest : list entry,
         trace w1 = (trace w ++ heading fuel x X change ++ rest)%list
         /\ forall y Y,
              registries w !! y = Some Y ->
              (forall p, _parent Y = Some p -> p < x) ->
              registries w1 !! y = Some Y /\ Forall (silent y) rest.

(** ** Registries that a cascade leaves alone *)

(** [untouched y w w']: between [w] and [w'] the registry [y] has not
    changed and nothing was announced or run in its name. *)
Definition untouched (y : rid) (w w' : World) : Prop :=
  registries w' !! y = registries w !! y
  /\ exists extra : list entry,
       trace w' = (trace w ++ extra)%list /\ Forall (silent y) extra.

(** ** The bound element and the property model (lines 362-364 and
    412-424) *)

#[global] Instance ref_key_eq_dec : EqDecision ref_key.
Proof. solve_decision. Defined.

(** Modelled from the spec: the reference table keeps, under each key,
    the selector it was created with (the one given last, should a key be
    created again), and [NGN.ref[key]] resolves that selector on the
    page. *)
Fixpoint registered (k : ref_key) (table : list (ref_key * string))
  : option string :=
  match table with
  | [] => None
  | (k', sel) :: rest =>
      match registered k rest with
      | Some later => Some later
      | None => if decide (k' = k) then Some sel else None
      end
  end.

Definition ref (w : World) (k : ref_key) : option element :=
  match registered k (refs w) with
  | Some sel => querySelector w sel
  | None => None
  end.

(** [get self]: [NGN.ref[this.id]]. *)
Definition self (R : Registry) (w : World) : option element :=
  ref w (SelfRef (id R)).

(** [get properties]: the model, or a warning and an empty object when
    the registry has none. *)
Definition get_properties (r : rid) : M (gmap string Js.value) :=
  R ← this r;
  match _properties R with
  | None =>
      log (Warned
             "Registry properties were requested, but none are configured.");;
      ret ∅
  | Some model => ret model
  end.

(** ** Vocabulary for forwarded events *)

(** The topic of an event of the registry [r]. *)
Definition topic_of (w : World) (r : rid) (event : string) : string :=
  match registries w !! r with
  | Some R => topic R event
  | None => event
  end.

(** What the forwarding listener of lines 315-317 makes the child [k]
    emit. *)
Definition forwarded (w : World) (payload : Change) (k : rid) : entry :=
  Emitted k "parent.property.changed"
    (topic_of w k "parent.property.changed") payload.

(** ** Hiding, showing and destroying the element (lines 487-523) *)

Definition with_displaystate (d : option string) (R : Registry) : Registry :=
  mkRegistry (id R) (scope R) (selector R) (_parent R) (propertyFields R)
    (_properties R) (_states R) (_state R) d (initialstate R) (_reactions R).

(** Modelled from the spec: the elements carry a [display] style, which
    [hide] and [show] read and write as [styles.display]; an element that
    was never given one has the empty value. *)
Record Stage : Type := mkStage {
  world : World;
  styles : gmap element string
}.

Definition display (s : Stage) (e : element) : string :=
  default "" (styles s !! e).

Definition no_element : exn :=
  TypeError "Cannot read property 'styles' of undefined".

(** [hide]: the element is looked up for each of the two statements. *)
Definition hide (r : rid) (s : Stage) : completion unit * Stage :=
  match registries (world s) !! r with
  | None => (Throw (TypeError "not a registry"), s)
  | Some R =>
      (* this.displaystate = this.self.styles.display *)
      match self R (world s) with
      | None => (Throw no_element, s)
      | Some e =>
          let w1 :=
            with_registries
              (alter (with_displaystate (Some (display s e))) r
                 (registries (world s))) (world s) in
          (* this.self.styles.display = 'none' *)
          match self R w1 with
          | None => (Throw no_element, mkStage w1 (styles s))
          | Some e' => (Normal tt, mkStage w1 (<[e' := "none"]> (styles s)))
          end
      end
  end.

(** [show]: [this.self.styles.display = NGN.coalesce(this.displaystate, '')]. *)
Definition show (r : rid) (s : Stage) : completion unit * Stage :=
  match registries (world s) !! r with
  | None => (Throw (TypeError "not a registry"), s)
  | Some R =>
      match self R (world s) with
      | None => (Throw no_element, s)
      | Some e =>
          (Normal tt,
           mkStage (world s)
             (<[e := default "" (Js.coalesce_ref [displaystate R; Some ""])]>
                (styles s)))
      end
  end.

(** [destroy]. Whether [NGN] has a [DOM] member, and what its [destroy]
    does, is not decided in this file: [has_DOM] and [DOM_destroy] stand
    for them. *)
Definition destroy (has_DOM : bool) (DOM_destroy : option element -> M unit)
  (r : rid) : M unit :=
  if has_DOM then
    R ← this r;
    e ← reads (self R);
    DOM_destroy e
  else throw (Error "NGN.DOM is required to invoke the destroy method.").

(** ** The worlds a program can reach *)

(** One call from outside: a construction, an assignment, a turn of the
    scheduler, an edit of a reaction table, an event of a property model,
    or a read of [properties]. *)
Inductive step : World -> World -> Prop :=
| step_new arg w : step w (ViewRegistry2 arg w).2
| step_assign fuel r v w : step w (assign_state fuel r v w).2
| step_turn fuel w : step w (next_turn fuel w).2
| step_createReaction r source target w :
    step w (createReaction r source target w).2
| step_removeReaction r source w : step w (removeReaction r source w).2
| step_clearReactions r w : step w (clearReactions r w).2
| step_fire fuel r ev change w : step w (fire fuel r ev change w).2
| step_properties r w : step w (get_properties r w).2.

Inductive reachable (doc : gmap string (list element)) : World -> Prop :=
| reach_page : reachable doc (page doc)
| reach_step w w' : reachable doc w -> step w w' -> reachable doc w'.

(** What holds of every registry in such a world. *)
Record sound (w : World) : Prop := {
  s_id : forall r R, registries w !! r = Some R -> id R = r;
  s_bound : forall r R, registries w !! r = Some R -> r < next_id w;
  s_default :
    forall r R, registries w !! r = Some R -> managesState R "default" = true;
  s_state :
    forall r R, registries w !! r = Some R ->
                normalize (get_state R) = get_state R;
  s_parent :
    forall r R p, registries w !! r = Some R -> _parent R = Some p ->
    p < r
    /\ exists P sel ns,
         registries w !! p = Some P
         /\ selector R = selector P ++ " " ++ sel
         /\ default "" (scope R) = default "" (scope P) ++ ns;
  s_self :
    forall r R, registries w !! r = Some R ->
    registered (SelfRef r) (refs w) = Some (selector R)
    /\ is_Some (querySelector w (selector R));
  s_queue :
    forall r, ApplyInitialState r ∈ queue w ->
    exists R, registries w !! r = Some R
              /\ initialstate R <> "default"
              /\ managesState R (initialstate R) = true;
  s_display :
    forall r R, registries w !! r = Some R -> displaystate R = None
}.

(** Two registry objects that differ at most in [_state] and
    [_reactions]. *)
Definition same_identity (R R' : Registry) : Prop :=
  id R' = id R /\ scope R' = scope R /\ selector R' = selector R
  /\ _parent R' = _parent R /\ _states R' = _states R
  /\ initialstate R' = initialstate R
  /\ propertyFields R' = propertyFields R
  /\ _properties R' = _properties R
  /\ displaystate R' = displaystate R.


(** ** Further examples *)

Module Demo.

(** What a call of the constructor has made of its configuration. *)
Definition cfg_after (result : completion rid * argument * World) : Cfg.t :=
  match result.1.2 with
  | Object cfg => cfg
  | _ => Cfg.empty
  end.

(** A child of registry A with a named reference. *)
Definition titled_cfg : Cfg.t :=
  Cfg.make (Some ".panel") (Some 0) (Some "panel.")
    (Some {[ "title" := "h1" ]}) None None None None None.

Definition titled : completion rid * argument * World :=
  ViewRegistry2 (Object titled_cfg) Scenario.A_offline.

(** The configuration object of child B, used a second time after the
    constructor has rewritten it. *)
Definition first_use : completion rid * argument * World :=
  ViewRegistry2 (Object (Scenario.B_cfg "active")) Scenario.A_offline.

Definition second_use : completion rid * argument * World :=
  ViewRegistry2 (Object (cfg_after first_use)) first_use.2.

(** Registry D, which has a property model, and a child of it. *)
Definition DB : World :=
  Scenario.after_new (Scenario.B_cfg "active") Scenario.D.

Definition retitled : FieldChange :=
  mkFieldChange (Js.Str "title") (Js.Str "untitled") (Js.Str "Inbox")
    Js.Undefined.





(** A page from which the panel is gone. *)
Definition emptied : Stage :=
  mkStage
    (mkWorld {[ "#app" := [1] ]} (registries Scenario.AB) (bus Scenario.AB)
       (refs Scenario.AB) (queue Scenario.AB) (trace Scenario.AB)
       (next_id Scenario.AB)) ∅.

End Demo.

(** * Properties *)

(** ** Normalization *)

Example trim_example : Js.trim "  On Line  " = "On Line".
Proof. reflexivity. Qed.

Example normalize_example : normalize " ONLINE  " = "online".
Proof. reflexivity. Qed.

Example number_as_state : Js.toString (Js.Num (-12)) = Some "-12".
Proof. reflexivity. Qed.

Example null_has_no_toString : Js.toString Js.Null = None.
Proof. reflexivity. Qed.

Example warning_example :
  warning "online" Scenario.failing = [Warned "online"]
  /\ warning "online" Scenario.quiet = [].
Proof. split; reflexivity. Qed.

Lemma is_white_lower c : Js.is_white (Js.lower_char c) = Js.is_white c.
Proof. by destruct c as [[] [] [] [] [] [] [] []]. Qed.

Lemma lower_char_idempotent c :
  Js.lower_char (Js.lower_char c) = Js.lower_char c.
Proof. by destruct c as [[] [] [] [] [] [] [] []]. Qed.

Lemma toLowerCase_idempotent s :
  Js.toLowerCase (Js.toLowerCase s) = Js.toLowerCase s.
Proof.
  induction s as [|c s IH]; [done|].
  cbn [Js.toLowerCase]. by rewrite lower_char_idempotent, IH.
Qed.

Lemma trim_start_lower s :
  Js.trim_start (Js.toLowerCase s) = Js.toLowerCase (Js.trim_start s).
Proof.
  induction s as [|c s IH]; [done|].
  cbn [Js.toLowerCase Js.trim_start]. rewrite is_white_lower.
  by destruct (Js.is_white c).
Qed.

Lemma trim_end_lower s :
  Js.trim_end (Js.toLowerCase s) = Js.toLowerCase (Js.trim_end s).
Proof.
  induction s as [|c s IH]; [done|].
  cbn [Js.toLowerCase Js.trim_end]. rewrite IH, is_white_lower.
  destruct (Js.trim_end s); [by destruct (Js.is_white c) | done].
Qed.

Lemma trim_end_idempotent s : Js.trim_end (Js.trim_end s) = Js.trim_end s.
Proof.
  induction s as [|c s IH]; [done|].
  cbn [Js.trim_end]. destruct (Js.trim_end s) as [|c' s'] eqn:E.
  - destruct (Js.is_white c) eqn:Hc; [done|]. cbn. by rewrite Hc.
  - cbn [Js.trim_end]. cbn [Js.trim_end] in IH. by rewrite IH.
Qed.

(** A string without leading white space keeps its head under
    [trim_end]. *)
Lemma trim_start_trim_end s :
  Js.trim_start s = s -> Js.trim_start (Js.trim_end s) = Js.trim_end s.
Proof.
  destruct s as [|c s]; [done|].
  cbn [Js.trim_start Js.trim_end]. destruct (Js.is_white c) eqn:Hc.
  - intros H. exfalso.
    assert (forall t, String.length (Js.trim_start t) <= String.length t)
      as Hlen.
    { induction t as [|c' t IH]; cbn; [lia|].
      destruct (Js.is_white c'); cbn; lia. }
    pose proof (Hlen s) as Hs. rewrite H in Hs. cbn in Hs. lia.
  - intros _. destruct (Js.trim_end s); cbn; by rewrite Hc.
Qed.

Lemma trim_start_idempotent s :
  Js.trim_start (Js.trim_start s) = Js.trim_start s.
Proof.
  induction s as [|c s IH]; [done|].
  cbn [Js.trim_start]. destruct (Js.is_white c) eqn:Hc; [done|].
  cbn. by rewrite Hc.
Qed.

Lemma trim_idempotent s : Js.trim (Js.trim s) = Js.trim s.
Proof.
  unfold Js.trim.
  rewrite (trim_start_trim_end (Js.trim_start s))
    by apply trim_start_idempotent.
  apply trim_end_idempotent.
Qed.

(** What [set state] stores is a fixed point of the normalization. *)
Lemma normalize_idempotent s : normalize (normalize s) = normalize s.
Proof.
  unfold normalize, Js.trim.
  rewrite trim_start_lower, trim_end_lower, toLowerCase_idempotent.
  fold (Js.trim s). fold (Js.trim (Js.trim s)). by rewrite trim_idempotent.
Qed.

(** So a value whose normalization differs from the current, normalized,
    state is not the current state itself. *)
Lemma differs_after_normalization st v s :
  normalize st = st ->
  Js.toString v = Some s ->
  normalize s <> st ->
  Js.Str st <> v.
Proof.
  intros Hst Hs Hne <-. cbn in Hs. injection Hs as <-. congruence.
Qed.



(** ** Running the sequencing operators *)

Lemma bind_normal {A B : Type} (m : M A) (k : A -> M B) w a w' :
  m w = (Normal a, w') -> (m ≫= k) w = k a w'.
Proof. intros H. unfold mbind, M_bind, bind. by rewrite H. Qed.

Lemma bind_throw {A B : Type} (m : M A) (k : A -> M B) w e w' :
  m w = (Throw e, w') -> (m ≫= k) w = (Throw e, w').
Proof. intros H. unfold mbind, M_bind, bind. by rewrite H. Qed.

Lemma this_found w r R :
  registries w !! r = Some R -> this r w = (Normal R, w).
Proof. intros H. unfold this. by rewrite H. Qed.

Lemma bind_this {B : Type} (k : Registry -> M B) w r R :
  registries w !! r = Some R -> (this r ≫= k) w = k R w.
Proof. intros H. by apply bind_normal, this_found. Qed.

Lemma bind_log {B : Type} (k : unit -> M B) e w :
  (log e ≫= k) w = k tt (logged e w).
Proof. reflexivity. Qed.

Lemma bind_reads {A B : Type} (f : World -> A) (k : A -> M B) w :
  (reads f ≫= k) w = k (f w) w.
Proof. reflexivity. Qed.

Lemma bind_write {B : Type} (k : unit -> M B) r f w :
  (write r f ≫= k) w
  = k tt (with_registries (alter f r (registries w)) w).
Proof. reflexivity. Qed.

Lemma bind_ret {A B : Type} (a : A) (k : A -> M B) w :
  (ret a ≫= k) w = k a w.
Proof. reflexivity. Qed.

Lemma for_each_cons {A : Type} (body : A -> M unit) a rest w :
  for_each body (a :: rest) w = (body a ≫= fun _ => for_each body rest) w.
Proof. reflexivity. Qed.

(** ** The registry after [enter] and [logged] *)

Lemma lookup_enter_eq w r R st :
  registries w !! r = Some R ->
  registries (enter r st w) !! r = Some (with_state (Some st) R).
Proof. intros H. cbn. by rewrite lookup_alter_eq, H. Qed.

Lemma lookup_enter_ne w r r' st :
  r <> r' -> registries (enter r st w) !! r' = registries w !! r'.
Proof. intros H. cbn. by rewrite lookup_alter_ne. Qed.

Lemma state_of_enter w r R st :
  registries w !! r = Some R -> state_of (enter r st w) r = Some st.
Proof. intros H. unfold state_of. by rewrite (lookup_enter_eq _ _ R). Qed.

(** ** One step of [set state] and of [emit] *)

Lemma set_state_same em w r R :
  registries w !! r = Some R ->
  set_state em r (Js.Str (get_state R)) w = (Normal tt, w).
Proof.
  intros HR. unfold set_state. rewrite (bind_this _ _ _ _ HR).
  unfold Js.strict_eq. by rewrite bool_decide_eq_true_2.
Qed.

Lemma set_state_other em w r R v s :
  registries w !! r = Some R ->
  Js.toString v = Some s ->
  Js.Str (get_state R) <> v ->
  set_state em r v w
  = em r "state.changed" (state_change (get_state R) (normalize s))
      (enter r (normalize s) w).
Proof.
  intros HR Hs Hne. unfold set_state. rewrite (bind_this _ _ _ _ HR).
  unfold Js.strict_eq. rewrite bool_decide_eq_false_2 by done.
  rewrite Hs. cbn [deref]. rewrite bind_ret, bind_write.
  fold (enter r (Js.toLowerCase (Js.trim s)) w).
  by rewrite (bind_this _ _ _ _ (lookup_enter_eq _ _ _ _ HR)).
Qed.

Lemma emit_step fuel w r R event payload :
  registries w !! r = Some R ->
  emit (S fuel) r event payload w
  = for_each (fun l => notify (emit fuel) l payload)
      (subscribers (topic R event) w)
      (logged (Emitted r event (topic R event) payload) w).
Proof.
  intros HR. cbn [emit]. rewrite (bind_this _ _ _ _ HR).
  by rewrite bind_log, bind_reads.
Qed.

Lemma dispatch_step em w r R to from h :
  registries w !! r = Some R ->
  _states R !! to = Some h ->
  notify em (Dispatch r) (state_change from to) w = wrapped r to h w.
Proof.
  intros HR Hh. cbn [notify]. rewrite (bind_this _ _ _ _ HR).
  cbn. by rewrite Hh.
Qed.

Lemma wrapped_throws w r name h e :
  h_ending h = Throws e ->
  exists w', wrapped r name h w = (Throw e, w')
             /\ registries w' = registries w.
Proof.
  intros He. unfold wrapped. rewrite bind_log, He.
  destruct (_ && _); eexists; split; reflexivity.
Qed.

(** C3. Take an assignment that changes the state of a registry whose
    dispatch listener is the first on its channel. If the handler of the
    new state throws, the assignment ends with that same exception, and
    the registry is left in the new, normalized state: the write precedes
    the dispatch and nothing undoes it. *)
Theorem handler_exception_propagates fuel w r R v s h e rest :
  registries w !! r = Some R ->
  Js.toString v = Some s ->
  Js.Str (get_state R) <> v ->
  subscribers (topic R "state.changed") w = Dispatch r :: rest ->
  _states R !! normalize s = Some h ->
  h_ending h = Throws e ->
  exists w', assign_state (S fuel) r v w = (Throw e, w')
             /\ state_of w' r = Some (normalize s).
Proof.
  intros HR Hs Hne Hsub Hh He.
  unfold assign_state. rewrite (set_state_other _ _ _ _ _ _ HR Hs Hne).
  pose proof (lookup_enter_eq _ _ _ (normalize s) HR) as HR'.
  rewrite (emit_step _ _ _ _ _ _ HR').
  change (subscribers _ _) with (subscribers (topic R "state.changed") w).
  rewrite Hsub, for_each_cons.
  destruct (wrapped_throws (logged (Emitted r "state.changed"
              (topic R "state.changed")
              (state_change (get_state R) (normalize s)))
              (enter r (normalize s) w)) r (normalize s) h e He)
    as (w' & Hrun & Hregs).
  exists w'. split.
  - apply bind_throw. by erewrite dispatch_step; [| exact HR' | exact Hh].
  - unfold state_of. rewrite Hregs. by apply (state_of_enter _ _ R).
Qed.

Lemma handler_exception_propagates_witness :
  exists w',
    assign_state 1 0 (Js.Str "online") Scenario.AB_failing
    = (Throw (Raised "no connection"), w')
    /\ state_of w' 0 = Some "online".
Proof.
  apply (handler_exception_propagates 0 Scenario.AB_failing 0
           (Scenario.registry Scenario.AB_failing 0)
           (Js.Str "online") "online" Scenario.failing
           (Raised "no connection") [ForwardState 1]).
  - vm_compute. reflexivity.
  - reflexivity.
  - vm_compute. discriminate.
  - vm_compute. reflexivity.
  - vm_compute. reflexivity.
  - reflexivity.
Defined.

(** ** What a cascade can touch *)

Lemma evolves_refl w : evolves w w.
Proof.
  split; try done.
  - intros r R R' HR HR'. left. congruence.
  - exists []. by rewrite app_nil_r.
Qed.

Lemma evolves_trans w1 w2 w3 : evolves w1 w2 -> evolves w2 w3 -> evolves w1 w3.
Proof.
  intros [d1 b1 f1 q1 n1 r1 s1 (x1 & t1 & c1)]
         [d2 b2 f2 q2 n2 r2 s2 (x2 & t2 & c2)].
  split; try congruence.
  - intros r R1 R3 HR1 HR3. pose proof (r1 r) as Hr. rewrite HR1 in Hr.
    destruct (registries w2 !! r) as [R2|] eqn:HR2; [|done].
    destruct (s2 r R2 R3 HR2 HR3) as [Heq|Hnew]; [|by right].
    rewrite Heq. by apply (s1 r).
  - exists (x1 ++ x2)%list. split.
    + by rewrite t2, t1, app_assoc.
    + by apply Forall_app.
Qed.

Lemma evolves_logged w e : cascade_entry e -> evolves w (logged e w).
Proof.
  intros He. split; try done.
  - intros r R R' HR HR'. left. cbn in HR'. congruence.
  - exists [e]. split; [done | by constructor].
Qed.

Lemma evolves_enter w r s : evolves w (enter r (normalize s) w).
Proof.
  split; try done.
  - intros r'. cbn. destruct (decide (r = r')) as [->|Hne].
    + rewrite lookup_alter_eq. by destruct (registries w !! r').
    + by rewrite lookup_alter_ne.
  - intros r' R R' HR HR'. cbn in HR'.
    destruct (decide (r = r')) as [->|Hne].
    + rewrite lookup_alter_eq, HR in HR'. injection HR' as <-.
      right. by exists s.
    + rewrite lookup_alter_ne in HR' by done. left. congruence.
  - exists []. by rewrite app_nil_r.
Qed.

Lemma wrapped_evolves w r name h c w' :
  wrapped r name h w = (c, w') -> evolves w w' /\ c <> OutOfFuel.
Proof.
  unfold wrapped. rewrite bind_log. destruct (h_ending h) as [|e].
  - intros [= <- <-]. split; [by apply evolves_logged | done].
  - destruct (_ && _); intros [= <- <-]; (split; [|done]).
    + eapply evolves_trans; by apply evolves_logged.
    + by apply evolves_logged.
Qed.

Section Cascade.

Variable em : emitter.

Hypothesis em_evolves :
  forall r event payload w c w',
    event <> "property.changed" ->
    em r event payload w = (c, w') -> evolves w w'.

Lemma set_state_evolves r v w c w' :
  set_state em r v w = (c, w') -> evolves w w'.
Proof.
  unfold set_state. destruct (registries w !! r) as [R|] eqn:HR.
  - rewrite (bind_this _ _ _ _ HR).
    destruct (Js.strict_eq _ _).
    + intros [= <- <-]. apply evolves_refl.
    + destruct (Js.toString v) as [s|]; cbn [deref].
      * rewrite bind_ret, bind_write.
        fold (enter r (Js.toLowerCase (Js.trim s)) w).
        rewrite (bind_this _ _ _ _ (lookup_enter_eq _ _ _ _ HR)).
        intros H. eapply evolves_trans; [apply evolves_enter|].
        eapply em_evolves; [|exact H]. done.
      * intros [= <- <-]. apply evolves_refl.
  - unfold mbind, M_bind, bind, this. rewrite HR.
    intros [= <- <-]. apply evolves_refl.
Qed.

Lemma notify_evolves l change w c w' :
  notify em l change w = (c, w') -> evolves w w'.
Proof.
  destruct l as [child|child|r|r]; cbn [notify].
  - by apply em_evolves.
  - by apply em_evolves.
  - destruct (registries w !! r) as [R|] eqn:HR.
    + rewrite (bind_this _ _ _ _ HR). destruct (managesReaction _ _).
      * apply set_state_evolves.
      * intros [= <- <-]. apply evolves_refl.
    + unfold mbind, M_bind, bind, this. rewrite HR.
      intros [= <- <-]. apply evolves_refl.
  - destruct (registries w !! r) as [R|] eqn:HR.
    + rewrite (bind_this _ _ _ _ HR). cbn zeta.
      destruct (_states R !! _) as [h|].
      * intros H. by apply wrapped_evolves in H as [? _].
      * intros [= <- <-]. apply evolves_refl.
    + unfold mbind, M_bind, bind, this. rewrite HR.
      intros [= <- <-]. apply evolves_refl.
Qed.

Lemma for_each_evolves change ls w c w' :
  for_each (fun l => notify em l change) ls w = (c, w') -> evolves w w'.
Proof.
  revert w. induction ls as [|l ls IH]; intros w.
  - intros [= <- <-]. apply evolves_refl.
  - rewrite for_each_cons. unfold mbind, M_bind, bind.
    destruct (notify em l change w) as [[[]|e|] w1] eqn:Hl;
      apply notify_evolves in Hl.
    + intros H. eapply evolves_trans; [exact Hl | by apply IH].
    + by intros [= <- <-].
    + by intros [= <- <-].
Qed.

End Cascade.

Lemma emit_evolves fuel r event payload w c w' :
  event <> "property.changed" ->
  emit fuel r event payload w = (c, w') -> evolves w w'.
Proof.
  revert r event payload w c w'.
  induction fuel as [|fuel IH]; intros r event payload w c w' Hev.
  - intros [= <- <-]. apply evolves_refl.
  - destruct (registries w !! r) as [R|] eqn:HR.
    + rewrite (emit_step _ _ _ _ _ _ HR). intros H.
      apply (evolves_trans _
               (logged (Emitted r event (topic R event) payload) w)).
      { apply evolves_logged. exact Hev. }
      eapply for_each_evolves; [|exact H]. intros. by eapply IH.
    + cbn [emit]. unfold mbind, M_bind, bind, this. rewrite HR.
      intros [= <- <-]. apply evolves_refl.
Qed.

(** ** Explicit results *)

Lemma logged_extended e w : logged e w = extended [e] w.
Proof. reflexivity. Qed.

Lemma extended_extended l1 l2 w :
  extended l2 (extended l1 w) = extended (l1 ++ l2) w.
Proof. unfold extended, with_trace. cbn. by rewrite app_assoc. Qed.

Lemma extended_nil w : extended [] w = w.
Proof. unfold extended, with_trace. rewrite app_nil_r. by destruct w. Qed.

Lemma since_extended l w w0 :
  trace w0 = trace w -> since w (extended l w0) = l.
Proof.
  intros H. unfold since, extended. cbn. rewrite H. by rewrite drop_app_length.
Qed.

Lemma wrapped_run w r name h :
  wrapped r name h w
  = (completion_of (h_ending h), extended (Called r name :: warning name h) w).
Proof.
  unfold wrapped, warning. rewrite bind_log, logged_extended.
  destruct (h_ending h) as [|e]; [done|].
  destruct (_ && _).
  - unfold mbind, M_bind, bind, log, throw. cbn beta iota.
    fold (logged (Warned name) (extended [Called r name] w)).
    by rewrite logged_extended, extended_extended.
  - reflexivity.
Qed.

Lemma dispatch_run em w r R from to :
  registries w !! r = Some R ->
  notify em (Dispatch r) (state_change from to) w
  = ((dispatched r to (_states R !! to)).1,
     extended (dispatched r to (_states R !! to)).2 w).
Proof.
  intros HR. cbn [notify]. rewrite (bind_this _ _ _ _ HR). cbn zeta.
  change (Js.to_key _) with to.
  destruct (_states R !! to) as [h|]; cbn [dispatched fst snd].
  - apply wrapped_run.
  - by rewrite extended_nil.
Qed.

Lemma for_each_one {A : Type} (body : A -> M unit) a w :
  for_each body [a] w = body a w.
Proof.
  rewrite for_each_cons. unfold mbind, M_bind, bind.
  destruct (body a w) as [[[]|e|] w']; reflexivity.
Qed.

(** An assignment that changes the state of a registry whose channel
    carries its own dispatch listener and nothing else. *)
Lemma assign_alone fuel w r R v s :
  registries w !! r = Some R ->
  Js.toString v = Some s ->
  Js.Str (get_state R) <> v ->
  subscribers (topic R "state.changed") w = [Dispatch r] ->
  assign_state (S fuel) r v w
  = ((dispatched r (normalize s) (_states R !! normalize s)).1,
     extended
       (Emitted r "state.changed" (topic R "state.changed")
          (state_change (get_state R) (normalize s))
        :: (dispatched r (normalize s) (_states R !! normalize s)).2)
       (enter r (normalize s) w)).
Proof.
  intros HR Hs Hne Hsub. unfold assign_state.
  rewrite (set_state_other _ _ _ _ _ _ HR Hs Hne).
  pose proof (lookup_enter_eq _ _ _ (normalize s) HR) as HR'.
  rewrite (emit_step _ _ _ _ _ _ HR').
  change (subscribers _ _) with (subscribers (topic R "state.changed") w).
  rewrite Hsub, for_each_one.
  erewrite dispatch_run by exact HR'.
  by rewrite logged_extended, extended_extended.
Qed.

Lemma dispatched_not_out_of_fuel r name found :
  (dispatched r name found).1 <> OutOfFuel.
Proof. destruct found as [[[|e] src]|]; done. Qed.

Lemma events_of_dispatched r' event r name found :
  events_of r' event (dispatched r name found).2 = [].
Proof.
  destruct found as [h|]; [|done]. cbn. unfold warning.
  destruct (h_ending h); [done|]. by destruct (_ && _).
Qed.

Lemma calls_of_dispatched r name h :
  calls_of r (dispatched r name (Some h)).2 = [name].
Proof.
  cbn. rewrite bool_decide_eq_true_2 by done. unfold warning.
  destruct (h_ending h); [done|]. by destruct (_ && _).
Qed.

(** An assignment leaves the page, the subscriptions, the references and
    the deferred tasks alone, and of the registries it changes nothing
    but their [_state]. *)
Lemma assign_evolves fuel r v w c w' :
  assign_state fuel r v w = (c, w') -> evolves w w'.
Proof.
  apply set_state_evolves. intros. by eapply emit_evolves.
Qed.

Lemma events_of_here r event t payload l :
  events_of r event (Emitted r event t payload :: l)
  = payload :: events_of r event l.
Proof.
  cbn. by rewrite bool_decide_eq_true_2, String.eqb_refl.
Qed.

Lemma events_of_cascade r l :
  Forall cascade_entry l -> events_of r "property.changed" l = [].
Proof.
  induction 1 as [|e l He _ IH]; [done|].
  destruct e as [r' event t payload| |]; cbn; try done.
  destruct (String.eqb_spec event "property.changed") as [->|_].
  - by destruct He.
  - by rewrite andb_false_r.
Qed.

(** ** The state machine *)

(** C1, at a state without a handler. The registry [Scenario.plain] has
    the states table [{default}] and is in state "default". Assigning
    "online" stores the new state and announces it, and the dispatch
    listener then fails with a TypeError on the missing table entry: no
    handler runs, in particular not the one under "default". *)
Theorem unmanaged_state_reaches_no_handler : forall fuel,
  _states (Scenario.registry Scenario.plain 0) !! "online" = None
  /\ _states (Scenario.registry Scenario.plain 0) !! "default" = Some noop
  /\ assign_state (S fuel) 0 (Js.Str "online") Scenario.plain
     = (Throw (TypeError "Cannot read property 'apply' of undefined"),
        extended
          [Emitted 0 "state.changed" "state.changed"
             (state_change "default" "online")]
          (enter 0 "online" Scenario.plain))
  /\ calls_of 0
       (since Scenario.plain
          (assign_state (S fuel) 0 (Js.Str "online") Scenario.plain).2)
     = [].
Proof.
  intros fuel.
  assert (registries Scenario.plain !! 0
          = Some (Scenario.registry Scenario.plain 0)) as HR
      by (vm_compute; reflexivity).
  assert (_states (Scenario.registry Scenario.plain 0) !! "online" = None)
    as Hnone by (vm_compute; reflexivity).
  split; [exact Hnone|]. split; [vm_compute; reflexivity|].
  rewrite (assign_alone fuel _ _ _ (Js.Str "online") "online" HR);
    [|reflexivity|by vm_compute|by vm_compute].
  change (normalize "online") with "online". rewrite Hnone.
  split; [reflexivity|]. cbn [snd dispatched].
  by rewrite since_extended.
Qed.

(** Assigning the state the registry reports is a no-op. *)
Lemma assign_current_state_is_noop fuel w r R :
  registries w !! r = Some R ->
  assign_state fuel r (Js.Str (get_state R)) w = (Normal tt, w).
Proof. apply set_state_same. Qed.

(** C2, at a value that normalizes to the current state without being
    equal to it. Registry 0 of [Scenario.A_online] is in state "online";
    assigning "ONLINE" announces a change from "online" to "online" and
    runs the handler again, and does so every time it is repeated. *)
Theorem respelled_state_is_announced_again : forall fuel,
  state_of Scenario.A_online 0 = Some "online"
  /\ normalize "ONLINE" = "online"
  /\ assign_state (S fuel) 0 (Js.Str "ONLINE") Scenario.A_online
     = (Normal tt,
        extended
          [Emitted 0 "state.changed" "app.state.changed"
             (state_change "online" "online");
           Called 0 "online"]
          Scenario.A_online)
  /\ assign_state (S fuel) 0 (Js.Str "ONLINE")
       (assign_state (S fuel) 0 (Js.Str "ONLINE") Scenario.A_online).2
     = (Normal tt,
        extended
          [Emitted 0 "state.changed" "app.state.changed"
             (state_change "online" "online");
           Called 0 "online";
           Emitted 0 "state.changed" "app.state.changed"
             (state_change "online" "online");
           Called 0 "online"]
          Scenario.A_online).
Proof.
  intros fuel. split; [by vm_compute|]. split; [by vm_compute|].
  split; vm_compute; reflexivity.
Qed.

(** ** The reaction table *)

(** Without a parent, [createReaction] warns and changes nothing else. *)
Lemma createReaction_without_parent w r R source target :
  registries w !! r = Some R ->
  _parent R = None ->
  exists msg, createReaction r source target w
              = (Normal tt, logged (Warned msg) w).
Proof.
  intros HR Hp. unfold createReaction.
  rewrite (bind_this _ _ _ _ HR), Hp. by eexists.
Qed.

(** With a parent and a table, [createReaction] adds the entry. *)
Lemma createReaction_adds w r R p table source target :
  registries w !! r = Some R ->
  _parent R = Some p ->
  _reactions R = Some table ->
  exists w', createReaction r source target w = (Normal tt, w')
             /\ reactions_of w' r = Some (<[source := target]> table).
Proof.
  intros HR Hp Ht. unfold createReaction.
  rewrite (bind_this _ _ _ _ HR), Hp, Ht. cbn [deref].
  rewrite bind_ret. eexists. split; [reflexivity|].
  unfold reactions_of. cbn. by rewrite lookup_alter_eq, HR.
Qed.

(** C9, on a registry that has a parent and no reaction table. Registry 1
    of [Scenario.AC] was configured without [reactions]; registry 1 of
    [Scenario.AB] had its table removed by [clearReactions]. In both,
    [createReaction] ends in a TypeError and the table stays as it was. *)
Theorem createReaction_needs_a_table :
  _parent (Scenario.registry Scenario.AC 1) = Some 0
  /\ _reactions (Scenario.registry Scenario.AC 1) = None
  /\ createReaction 1 "online" "active" Scenario.AC
     = (Throw (TypeError "Cannot set property of null"), Scenario.AC)
  /\ reactions_of Scenario.AC 1 = Some ∅
  /\ _parent (Scenario.registry Scenario.AB 1) = Some 0
  /\ createReaction 1 "offline" "idle" (clearReactions 1 Scenario.AB).2
     = (Throw (TypeError "Cannot set property of null"),
        (clearReactions 1 Scenario.AB).2).
Proof. repeat split; vm_compute; reflexivity. Qed.



(** ** Property events *)

Lemma coalesce_current model field :
  Js.coalesce [default Js.Undefined (model !! Js.to_key field)]
  = current_value model field.
Proof.
  unfold current_value. destruct (model !! Js.to_key field) as [v|]; [|done].
  cbn. by destruct v.
Qed.

Lemma fire_emits fuel w r R model ev change :
  registries w !! r = Some R ->
  _properties R = Some model ->
  fire fuel r ev change w
  = emit fuel r "property.changed" (translation model ev change) w.
Proof.
  intros HR Hm. unfold fire. rewrite (bind_this _ _ _ _ HR), Hm.
  destruct ev; cbn [property_listener translation]; try reflexivity.
  rewrite (bind_this _ _ _ _ HR), Hm. cbn [deref].
  by rewrite bind_ret, coalesce_current.
Qed.

(** C8. On a registry with a property model, each of [field.update],
    [field.create] and [field.delete] puts one [property.changed] event
    on the registry's channel, with the payload [{property, old, new}]
    that [translation] spells out; whatever the listeners of that event
    do afterwards, none of it is a further [property.changed] event. *)
Theorem field_events_become_property_changed fuel w r R model ev change :
  registries w !! r = Some R ->
  _properties R = Some model ->
  exists rest,
    since w (fire (S fuel) r ev change w).2
    = Emitted r "property.changed" (topic R "property.changed")
        (translation model ev change) :: rest
    /\ (forall r', events_of r' "property.changed" rest = [])
    /\ events_of r "property.changed" (since w (fire (S fuel) r ev change w).2)
       = [translation model ev change].
Proof.
  intros HR Hm. rewrite (fire_emits _ _ _ _ _ _ _ HR Hm).
  rewrite (emit_step _ _ _ _ _ _ HR).
  destruct (for_each _ _ _) as [c w'] eqn:Hrun. cbn [snd].
  eapply for_each_evolves in Hrun as [_ _ _ _ _ _ _ (rest & Htr & Hrest)];
    [|intros; by eapply emit_evolves].
  exists rest. unfold since. rewrite Htr. cbn [trace logged with_trace].
  rewrite <- app_assoc, drop_app_length. cbn [app].
  split; [reflexivity|]. split.
  - intros r'. by apply events_of_cascade.
  - by rewrite events_of_here, events_of_cascade.
Qed.

Lemma field_events_become_property_changed_witness :
  events_of 0 "property.changed"
    (since Scenario.D
       (fire 1 0 field_create
          (mkFieldChange (Js.Str "title") Js.Undefined Js.Undefined
             Js.Undefined) Scenario.D).2)
  = [ {| property := Js.Str "title"; old := Js.Null;
         new := Js.Str "untitled" |} ].
Proof.
  destruct (field_events_become_property_changed 0 Scenario.D 0
              (Scenario.registry Scenario.D 0)
              {[ "title" := Js.Str "untitled" ]} field_create
              (mkFieldChange (Js.Str "title") Js.Undefined Js.Undefined
                 Js.Undefined))
    as (rest & _ & _ & H).
  - vm_compute. reflexivity.
  - vm_compute. reflexivity.
  - exact H.
Defined.

(** ** The constructor *)

Lemma scope_references_keeps sel cfg :
  Cfg.selector (scope_references sel cfg) = Cfg.selector cfg
  /\ Cfg.parent (scope_references sel cfg) = Cfg.parent cfg
  /\ Cfg.namespace (scope_references sel cfg) = Cfg.namespace cfg
  /\ Cfg.properties (scope_references sel cfg) = Cfg.properties cfg
  /\ Cfg.states (scope_references sel cfg) = Cfg.states cfg
  /\ Cfg.initialState (scope_references sel cfg) = Cfg.initialState cfg
  /\ Cfg.initialstate (scope_references sel cfg) = Cfg.initialstate cfg
  /\ Cfg.reactions (scope_references sel cfg) = Cfg.reactions cfg.
Proof. unfold scope_references. by destruct (Cfg.references cfg). Qed.

Lemma prepare_passes w cfg cfg' :
  prepare w cfg = (cfg', None) -> exists sel, prepared w cfg cfg' sel.
Proof.
  unfold prepare. destruct (Cfg.selector cfg) as [sel|] eqn:Hsel; [|done].
  intros H. exists sel. unfold effective_selector, parent_is_registry.
  destruct (Cfg.parent cfg) as [p|] eqn:Hp.
  - unfold inherit in H. destruct (registries w !! p) as [P|] eqn:HP; [|done].
    destruct (querySelector w (selector P)) as [el|] eqn:Hq; [|done].
    destruct cfg as [csel cpar cns cref cprop cst ci1 ci2 cre].
    cbn in Hsel, Hp. subst csel cpar. cbn in H.
    destruct cns as [ns|]; [destruct (scope P) as [ps|] eqn:Hps
                           |destruct (truthy (scope P)) eqn:Htr];
      cbn in H;
      (destruct (querySelector w (selector P ++ " " ++ sel)) as [el'|] eqn:Hq';
       [|done]);
      injection H as <-;
      (split;
       unfold parent_is_registry, effective_selector, effective_namespace,
         inherited_namespace; cbn;
       rewrite ?HP; cbn; rewrite ?Hps, ?Htr, ?Hq';
       first [ by destruct cref
             | by eexists
             | by intros; simplify_eq; eauto ]).
  - rewrite Hsel in H. cbn in H.
    destruct (querySelector w sel) as [el|] eqn:Hq; [|done].
    injection H as <-.
    destruct (scope_references_keeps sel cfg)
      as (? & ? & ? & ? & ? & ? & ? & ?).
    split;
      unfold effective_selector, effective_namespace, parent_is_registry;
      rewrite ?Hp; try congruence; try done.
Qed.

Lemma prepare_fails w cfg cfg' e sel :
  prepare w cfg = (cfg', Some e) ->
  Cfg.selector cfg = Some sel ->
  parent_is_registry w cfg ->
  (e = Error "Parent component could not be found."
   /\ exists p P, Cfg.parent cfg = Some p /\ registries w !! p = Some P
                  /\ querySelector w (selector P) = None)
  \/ (e = Error ("Could not find valid DOM element for '"
                  ++ effective_selector w cfg sel ++ "'")
      /\ querySelector w (effective_selector w cfg sel) = None
      /\ Cfg.selector cfg' = Some (effective_selector w cfg sel)).
Proof.
  unfold prepare, effective_selector, parent_is_registry.
  intros H Hsel Hpar. rewrite Hsel in H.
  destruct (Cfg.parent cfg) as [p|] eqn:Hp.
  - destruct (Hpar p eq_refl) as [P HP]. unfold inherit in H.
    rewrite HP in *.
    destruct (querySelector w (selector P)) as [el|] eqn:Hq.
    + right.
      destruct cfg as [csel cpar cns cref cprop cst ci1 ci2 cre].
      cbn in Hsel, Hp. subst csel cpar. cbn in H.
      destruct cns as [ns|]; [destruct (scope P) as [ps|]
                             |destruct (truthy (scope P))];
        cbn in H;
        (destruct (querySelector w (selector P ++ " " ++ sel)) eqn:Hq';
         [done|]);
        injection H as <- <-; (split; [done|]); (split; [done|]);
        by destruct cref.
    + left. injection H as <- <-. split; [done|]. by exists p, P.
  - right. cbn in H. rewrite Hsel in H. cbn in H.
    destruct (querySelector w sel) eqn:Hq; [done|].
    injection H as <- <-. split; [done|]. split; [done|].
    by destruct (scope_references_keeps sel cfg) as (-> & _).
Qed.

(** Names the world that a run has produced, and the subscriptions on the
    parent's channel. *)
Ltac exists_world watch :=
  eexists _, watch; split; [reflexivity|]; cbn; split; [reflexivity|].

(** When the parent is a registry, [initialise] completes and hands out
    the next id; it adds the instance, the subscriptions on the parent's
    channel and on its own, and possibly one deferred task. *)
Lemma initialise_completes sel cfg w :
  parent_is_registry w cfg ->
  exists w' watch,
    initialise sel cfg w = (Normal (next_id w), w')
    /\ registries w'
       = <[next_id w := instance (next_id w) sel cfg]> (registries w)
    /\ bus w'
       = (bus w ++ watch
          ++ own_subscriptions (instance (next_id w) sel cfg) (next_id w))%list
    /\ (Cfg.parent cfg = None /\ watch = []
        \/ exists p P,
             Cfg.parent cfg = Some p
             /\ <[next_id w := instance (next_id w) sel cfg]> (registries w)
                !! p = Some P
             /\ watch = parent_subscriptions P (next_id w))
    /\ queue w'
       = (queue w
          ++ if wants_initial_state (instance (next_id w) sel cfg)
             then [ApplyInitialState (next_id w)] else [])%list
    /\ trace w' = trace w
    /\ document w' = document w
    /\ next_id w' = S (next_id w).
Proof.
  intros Hpar. unfold initialise, Driver.
  unfold mbind at 1, M_bind at 1, bind at 1. cbn beta iota.
  fold (instance (next_id w) sel cfg).
  assert (id (instance (next_id w) sel cfg) = next_id w) as Hid.
  { unfold instance, initialise_properties, assure_default.
    destruct (managesState _ _); by destruct (propertyFields _). }
  assert (_parent (instance (next_id w) sel cfg) = Cfg.parent cfg) as Hp.
  { unfold instance, initialise_properties, assure_default.
    destruct (managesState _ _); destruct (propertyFields _);
      cbn; by destruct (Cfg.parent cfg). }
  unfold ref_create, store. unfold mbind at 1, M_bind at 1, bind at 1.
  cbn beta iota. unfold mbind at 1, M_bind at 1, bind at 1. cbn beta iota.
  rewrite Hid, Hp.
  destruct (Cfg.parent cfg) as [p|] eqn:Hcp.
  - destruct (Hpar p Hcp) as [P HP].
    set (R := instance (next_id w) sel cfg) in *.
    assert (exists P', <[next_id w := R]> (registries w) !! p = Some P')
      as [P' HP'].
    { destruct (decide (next_id w = p)) as [->|Hne].
      - exists R. by rewrite lookup_insert_eq.
      - exists P. by rewrite lookup_insert_ne. }
    unfold mbind, M_bind, bind, this, on, requeue, ret. cbn.
    rewrite HP'. cbn.
    destruct (wants_initial_state R); cbn;
      exists_world (parent_subscriptions P' (next_id w));
      (split; [by rewrite <- !app_assoc|]);
      (split; [right; by exists p, P'|]);
      rewrite ?app_nil_r; done.
  - set (R := instance (next_id w) sel cfg) in *.
    unfold mbind, M_bind, bind, this, on, requeue, ret. cbn.
    destruct (wants_initial_state R); cbn;
      exists_world (@nil (string * listener));
      (split; [by rewrite <- !app_assoc|]);
      (split; [by left|]);
      rewrite ?app_nil_r; done.
Qed.

Lemma ViewRegistry2_object w cfg :
  ViewRegistry2 (Object cfg) w
  = match prepare w cfg with
    | (cfg', Some e) => (Throw e, Object cfg', w)
    | (cfg', None) =>
        ((initialise (default "" (Cfg.selector cfg')) cfg' w).1,
         Object cfg',
         (initialise (default "" (Cfg.selector cfg')) cfg' w).2)
    end.
Proof.
  cbn [ViewRegistry2]. destruct (prepare w cfg) as [cfg' [e|]]; [done|].
  by destruct (initialise _ _ _).
Qed.

Lemma prepared_parent_ok w cfg cfg' sel :
  prepared w cfg cfg' sel -> parent_is_registry w cfg'.
Proof.
  intros H p Hp. rewrite (pr_parent _ _ _ _ H) in Hp.
  by apply (pr_parent_ok _ _ _ _ H).
Qed.

(** A construction that passes [prepare] completes. *)
Lemma construction_completes w cfg cfg' sel :
  prepare w cfg = (cfg', None) ->
  prepared w cfg cfg' sel ->
  exists w' watch,
    ViewRegistry2 (Object cfg) w = (Normal (next_id w), Object cfg', w')
    /\ registries w'
       = <[next_id w
           := instance (next_id w) (effective_selector w cfg sel) cfg']>
           (registries w)
    /\ bus w'
       = (bus w ++ watch
          ++ own_subscriptions
               (instance (next_id w) (effective_selector w cfg sel) cfg')
               (next_id w))%list
    /\ (Cfg.parent cfg' = None /\ watch = []
        \/ exists p P,
             Cfg.parent cfg' = Some p
             /\ <[next_id w
                  := instance (next_id w) (effective_selector w cfg sel) cfg']>
                  (registries w) !! p = Some P
             /\ watch = parent_subscriptions P (next_id w))
    /\ queue w'
       = (queue w
          ++ if wants_initial_state
                  (instance (next_id w) (effective_selector w cfg sel) cfg')
             then [ApplyInitialState (next_id w)] else [])%list
    /\ trace w' = trace w
    /\ document w' = document w
    /\ next_id w' = S (next_id w).
Proof.
  intros Hprep Hp. rewrite ViewRegistry2_object, Hprep.
  rewrite (pr_effective _ _ _ _ Hp).
  change (default "" (Some (effective_selector w cfg sel)))
    with (effective_selector w cfg sel).
  destruct (initialise_completes (effective_selector w cfg sel) cfg' w
              (prepared_parent_ok _ _ _ _ Hp))
    as (w' & subs & -> & H).
  by exists w', subs.
Qed.

(** A construction that throws leaves the world as it found it: no
    registry, no subscription, no reference, no deferred task. *)
Lemma failed_construction_changes_nothing arg w e arg' w' :
  ViewRegistry2 arg w = (Throw e, arg', w') -> w' = w.
Proof.
  destruct arg as [|type_of|cfg].
  - cbn. by intros [= _ _ <-].
  - cbn. by intros [= _ _ <-].
  - destruct (prepare w cfg) as [cfg' [e'|]] eqn:Hprep.
    + rewrite ViewRegistry2_object, Hprep. by intros [= _ _ <-].
    + destruct (prepare_passes _ _ _ Hprep) as [sel Hp].
      destruct (construction_completes _ _ _ _ Hprep Hp)
        as (w1 & subs & -> & _). done.
Qed.

(** C6, amended. A configuration whose selector, after parent scoping,
    matches no element is refused with an [Error] that names what could
    not be found, and at that point the world is as before: nothing has
    been subscribed, registered or deferred. *)
Theorem unresolved_selector_is_refused w cfg sel :
  Cfg.selector cfg = Some sel ->
  parent_is_registry w cfg ->
  querySelector w (effective_selector w cfg sel) = None ->
  exists msg cfg',
    ViewRegistry2 (Object cfg) w = (Throw (Error msg), Object cfg', w)
    /\ (msg = "Parent component could not be found."
        \/ msg = "Could not find valid DOM element for '"
                 ++ effective_selector w cfg sel ++ "'").
Proof.
  intros Hsel Hpar Hnone. rewrite ViewRegistry2_object.
  destruct (prepare w cfg) as [cfg' [e|]] eqn:Hprep.
  - destruct (prepare_fails _ _ _ _ _ Hprep Hsel Hpar)
      as [(-> & _)|(-> & _)]; eexists _, cfg'; (split; [reflexivity|]);
      [by left | by right].
  - destruct (prepare_passes _ _ _ Hprep) as [sel' Hp].
    pose proof (pr_selector _ _ _ _ Hp) as Hsel'.
    rewrite Hsel in Hsel'. injection Hsel' as <-.
    pose proof (pr_resolves _ _ _ _ Hp) as [el Hel]. congruence.
Qed.

Lemma unresolved_selector_is_refused_witness :
  exists cfg',
    ViewRegistry2 (Object Scenario.missing_cfg) Scenario.A_offline
    = (Throw (Error "Could not find valid DOM element for '#app .missing'"),
       Object cfg', Scenario.A_offline).
Proof.
  destruct (unresolved_selector_is_refused Scenario.A_offline
              Scenario.missing_cfg ".missing")
    as (msg & cfg' & Hrun & Hmsg).
  - reflexivity.
  - intros p [= <-]. vm_compute. eauto.
  - vm_compute. reflexivity.
  - exists cfg'. rewrite Hrun. destruct Hmsg as [->| ->].
    + exfalso. revert Hrun. vm_compute. discriminate.
    + reflexivity.
Defined.

(** C6 as stated fails in two places. The selector ".item" matches two
    elements, not exactly one, and the construction completes. And a
    construction that is refused has by then rewritten the configuration
    object it was given: the caller's [selector] now reads
    "#app .missing". *)
Lemma several_matches_are_accepted_cex :
  length (querySelectorAll (page Scenario.doc) ".item") = 2
  /\ (ViewRegistry2 (Object Scenario.items_cfg) (page Scenario.doc)).1.1
     = Normal 0
  /\ (ViewRegistry2 (Object Scenario.missing_cfg) Scenario.A_offline).1.1
     = Throw (Error "Could not find valid DOM element for '#app .missing'")
  /\ Cfg.selector Scenario.missing_cfg = Some ".missing"
  /\ (exists cfg',
        (ViewRegistry2 (Object Scenario.missing_cfg) Scenario.A_offline).1.2
        = Object cfg'
        /\ Cfg.selector cfg' = Some "#app .missing"
        /\ Cfg.namespace cfg' = Some "app.gone.").
Proof.
  repeat split; try (vm_compute; reflexivity).
  eexists. split; [vm_compute; reflexivity|]. split; reflexivity.
Qed.

Lemma append_empty_r (s : string) : s ++ "" = s.
Proof.
  induction s as [|c s IH]; [done|].
  change (String c (s ++ "") = String c s). by rewrite IH.
Qed.

Lemma truthy_false_prefix (o : option string) :
  truthy o = false -> default "" o = "".
Proof.
  destruct o as [s|]; [|done]. cbn.
  destruct (String.eqb_spec s ""); [by subst | done].
Qed.

(** The inherited namespace is the parent's scope followed by the
    registry's own namespace, an absent one counting as empty. *)
Lemma inherited_namespace_prefix parent_scope ns :
  default "" (inherited_namespace parent_scope ns)
  = default "" parent_scope ++ default "" ns.
Proof.
  unfold inherited_namespace. destruct ns as [own|].
  - by destruct parent_scope.
  - destruct (truthy parent_scope) eqn:Ht.
    + symmetry. apply append_empty_r.
    + by rewrite (truthy_false_prefix _ Ht).
Qed.

Lemma instance_selector i sel cfg : selector (instance i sel cfg) = sel.
Proof.
  unfold instance, initialise_properties, assure_default.
  destruct (managesState _ _); by destruct (propertyFields _).
Qed.

Lemma instance_scope i sel cfg :
  scope (instance i sel cfg) = Cfg.namespace cfg.
Proof.
  unfold instance, initialise_properties, assure_default.
  destruct (managesState _ _); by destruct (propertyFields _).
Qed.

(** C7. For a configuration with a parent: when the parent's selector
    matches nothing the construction throws "Parent component could not be
    found."; when the parent's selector and the scoped selector both match,
    the construction completes; and whenever it completes, the selector of
    the configuration and of the new registry is the parent's selector, a
    space, and the configured selector, and the namespace is the parent's
    scope followed by the configured namespace. *)
Theorem child_is_scoped_under_parent w cfg p P sel :
  Cfg.selector cfg = Some sel ->
  Cfg.parent cfg = Some p ->
  registries w !! p = Some P ->
  (querySelector w (selector P) = None ->
   ViewRegistry2 (Object cfg) w
   = (Throw (Error "Parent component could not be found."), Object cfg, w))
  /\ (is_Some (querySelector w (selector P)) ->
      is_Some (querySelector w (selector P ++ " " ++ sel)) ->
      exists cfg' w',
        ViewRegistry2 (Object cfg) w = (Normal (next_id w), Object cfg', w'))
  /\ (forall r cfg' w',
        ViewRegistry2 (Object cfg) w = (Normal r, Object cfg', w') ->
        is_Some (querySelector w (selector P))
        /\ Cfg.selector cfg' = Some (selector P ++ " " ++ sel)
        /\ default "" (Cfg.namespace cfg')
           = default "" (scope P) ++ default "" (Cfg.namespace cfg)
        /\ exists R,
             registries w' !! r = Some R
             /\ selector R = selector P ++ " " ++ sel
             /\ default "" (scope R)
                = default "" (scope P) ++ default "" (Cfg.namespace cfg)).
Proof.
  intros Hsel Hpar HP.
  assert (effective_selector w cfg sel = selector P ++ " " ++ sel) as Heff
      by (unfold effective_selector; by rewrite Hpar, HP).
  assert (effective_namespace w cfg
          = inherited_namespace (scope P) (Cfg.namespace cfg)) as Hns
      by (unfold effective_namespace; by rewrite Hpar, HP).
  assert (parent_is_registry w cfg) as Hok
      by (intros p' Hp'; rewrite Hpar in Hp'; injection Hp' as <-; eauto).
  split; [|split].
  - intros Hnone. rewrite ViewRegistry2_object. unfold prepare.
    rewrite Hsel, Hpar. unfold inherit. by rewrite HP, Hnone.
  - intros [el Hel] [el' Hel'].
    destruct (prepare w cfg) as [cfg' [e|]] eqn:Hprep.
    + exfalso.
      destruct (prepare_fails _ _ _ _ _ Hprep Hsel Hok)
        as [(_ & p' & P' & Hp' & HP' & Hq)|(_ & Hq & _)].
      * congruence.
      * rewrite Heff in Hq. congruence.
    + destruct (prepare_passes _ _ _ Hprep) as [sel' Hp].
      destruct (construction_completes _ _ _ _ Hprep Hp)
        as (w' & subs & Hrun & _).
      by exists cfg', w'.
  - intros r cfg' w' Hrun. rewrite ViewRegistry2_object in Hrun.
    destruct (prepare w cfg) as [cfg1 [e|]] eqn:Hprep; [done|].
    destruct (prepare_passes _ _ _ Hprep) as [sel' Hp].
    pose proof (pr_selector _ _ _ _ Hp) as Hsel'.
    rewrite Hsel in Hsel'. injection Hsel' as <-.
    destruct (construction_completes _ _ _ _ Hprep Hp)
      as (w1 & subs & Hrun1 & Hregs & _).
    rewrite ViewRegistry2_object, Hprep in Hrun1.
    rewrite Hrun1 in Hrun. injection Hrun as <- <- <-.
    split; [by apply (pr_parent_resolves _ _ _ _ Hp p)|].
    split; [by rewrite (pr_effective _ _ _ _ Hp), Heff|].
    split.
    { rewrite (pr_namespace _ _ _ _ Hp), Hns.
      apply inherited_namespace_prefix. }
    eexists. split; [by rewrite Hregs, lookup_insert_eq|].
    rewrite instance_selector, instance_scope.
    split; [exact Heff|].
    rewrite (pr_namespace _ _ _ _ Hp), Hns.
    apply inherited_namespace_prefix.
Qed.

Lemma child_is_scoped_under_parent_witness :
  exists cfg' w' R,
    ViewRegistry2 (Object (Scenario.B_cfg "active")) Scenario.A_offline
    = (Normal 1, Object cfg', w')
    /\ registries w' !! 1 = Some R
    /\ selector R = "#app .panel"
    /\ default "" (scope R) = "app.panel.".
Proof.
  destruct (child_is_scoped_under_parent Scenario.A_offline
              (Scenario.B_cfg "active") 0
              (Scenario.registry Scenario.A_offline 0) ".panel")
    as (_ & Hdone & Hthen).
  - reflexivity.
  - reflexivity.
  - vm_compute. reflexivity.
  - destruct Hdone as (cfg' & w' & Hrun).
    + vm_compute. eauto.
    + vm_compute. eauto.
    + destruct (Hthen _ _ _ Hrun) as (_ & _ & _ & R & HR & Hs & Hn).
      exists cfg', w', R. split; [exact Hrun|]. split; [exact HR|].
      split; [exact Hs | exact Hn].
Defined.

(** ** The initial state *)

Lemma instance_state i sel cfg : _state (instance i sel cfg) = Some "default".
Proof.
  unfold instance, initialise_properties, assure_default.
  destruct (managesState _ _); by destruct (propertyFields _).
Qed.


Lemma instance_manages i sel cfg s :
  s = "default" \/ is_Some (default ∅ (Cfg.states cfg) !! s) ->
  managesState (instance i sel cfg) s = true.
Proof.
  intros H. unfold managesState. apply bool_decide_eq_true.
  unfold instance, initialise_properties.
  assert (is_Some (_states (assure_default
                              (fields i (Cfg.namespace cfg) sel cfg)) !! s))
    as Hs.
  { unfold assure_default, managesState. case_bool_decide as Hd.
    - destruct H as [->|H]; [exact Hd|].
      cbn. by destruct (Cfg.states cfg).
    - cbn. destruct H as [->|H].
      + rewrite lookup_insert_eq. by eexists.
      + destruct (decide ("default" = s)) as [<-|Hne].
        * rewrite lookup_insert_eq. by eexists.
        * rewrite lookup_insert_ne by done. by destruct (Cfg.states cfg). }
  by destruct (propertyFields _).
Qed.




(** ** Reactions to the parent *)

Lemma react_run em w c C from to target :
  registries w !! c = Some C ->
  get_reactions C !! to = Some target ->
  notify em (React c) (state_change from to) w
  = set_state em c (Js.Str target) w.
Proof.
  intros HC Ht. cbn [notify]. rewrite (bind_this _ _ _ _ HC).
  unfold managesReaction. cbn [new state_change Js.to_key].
  rewrite Ht. by rewrite bool_decide_eq_true_2.
Qed.

Lemma since_app w w' l : trace w' = (trace w ++ l)%list -> since w w' = l.
Proof. intros H. unfold since. by rewrite H, drop_app_length. Qed.


Lemma events_of_other_event r r' event event' t payload l :
  String.eqb event' event = false ->
  events_of r event (Emitted r' event' t payload :: l)
  = events_of r event l.
Proof. intros H. cbn. by rewrite H, andb_false_r. Qed.

Lemma events_of_called r event r' name l :
  events_of r event (Called r' name :: l) = events_of r event l.
Proof. reflexivity. Qed.


(** ** The channel of a new registry *)

Lemma length_append (a b : string) :
  String.length (a ++ b) = String.length a + String.length b.
Proof.
  induction a as [|c a IH]; [done|].
  change (S (String.length (a ++ b)) = S (String.length a + String.length b)).
  by rewrite IH.
Qed.

Lemma append_assoc (a b c : string) : (a ++ b) ++ c = a ++ (b ++ c).
Proof.
  induction a as [|x a IH]; [done|].
  change (String x ((a ++ b) ++ c) = String x (a ++ (b ++ c))).
  by rewrite IH.
Qed.

(** Two names that end in suffixes of the same length are equal only when
    the suffixes are. *)
Lemma append_suffix (a b x y : string) :
  String.length x = String.length y ->
  a ++ x = b ++ y -> a = b /\ x = y.
Proof.
  intros Hlen. revert b.
  induction a as [|c a IH]; intros [|c' b] H.
  - done.
  - exfalso. change (x = String c' (b ++ y)) in H.
    apply (f_equal String.length) in H. cbn in H.
    rewrite length_append in H. lia.
  - exfalso. change (String c (a ++ x) = y) in H.
    apply (f_equal String.length) in H. cbn in H.
    rewrite length_append in H. lia.
  - change (String c (a ++ x) = String c' (b ++ y)) in H.
    injection H as -> H. destruct (IH b H) as [-> ->]. done.
Qed.

Lemma property_topic_is_no_state_topic P R :
  topic P "property.changed" <> topic R "state.changed".
Proof.
  unfold topic. change "property.changed" with ("pro" ++ "perty.changed").
  rewrite <- append_assoc. intros H.
  by apply append_suffix in H as [_ H].
Qed.

Lemma reaction_topic_is_not_own_state_topic R :
  topic R "parent.state.changed" <> topic R "state.changed".
Proof.
  unfold topic. change "parent.state.changed" with ("parent." ++ "state.changed").
  rewrite <- append_assoc. intros H.
  apply append_suffix in H as [H _]; [|done].
  apply (f_equal String.length) in H. rewrite length_append in H.
  cbn in H. lia.
Qed.

Lemma state_topic_inj P R :
  topic P "state.changed" = topic R "state.changed" ->
  default "" (scope P) = default "" (scope R).
Proof. unfold topic. intros H. by apply append_suffix in H as [H _]. Qed.

Lemma subscribers_app t w (more : list (string * listener)) w' :
  bus w' = (bus w ++ more)%list ->
  subscribers t w'
  = (subscribers t w ++ (snd <$> filter (fun s => fst s = t) more))%list.
Proof. intros H. unfold subscribers. by rewrite H, filter_app, fmap_app. Qed.

(** In a world whose next id is unused, a registry built on a namespace
    that differs from its parent's, and whose [state.changed] topic nobody
    listens to yet, ends up with its own dispatch listener as the only
    subscriber of that topic. This is the shape of channel that the
    statements on assignments start from. *)
Lemma own_channel_after_construction w cfg r cfg' w1 R :
  ViewRegistry2 (Object cfg) w = (Normal r, Object cfg', w1) ->
  registries w1 !! r = Some R ->
  registries w !! next_id w = None ->
  subscribers (topic R "state.changed") w = [] ->
  (forall p P, Cfg.parent cfg = Some p -> registries w !! p = Some P ->
               default "" (scope P) <> default "" (scope R)) ->
  subscribers (topic R "state.changed") w1 = [Dispatch r].
Proof.
  intros Hrun HR Hfresh Hnone Hparent.
  rewrite ViewRegistry2_object in Hrun.
  destruct (prepare w cfg) as [cfg1 [e|]] eqn:Hprep; [done|].
  destruct (prepare_passes _ _ _ Hprep) as [sel Hp].
  destruct (construction_completes _ _ _ _ Hprep Hp)
    as (w1' & watch & Hrun1 & Hregs & Hbus & Hwatch & _).
  rewrite ViewRegistry2_object, Hprep in Hrun1.
  rewrite Hrun1 in Hrun. injection Hrun as <- <- <-.
  rewrite Hregs, lookup_insert_eq in HR. injection HR as HR.
  rewrite HR in Hbus, Hwatch.
  rewrite (subscribers_app _ w _ _ Hbus), Hnone, filter_app, fmap_app.
  assert (filter (fun s => s.1 = topic R "state.changed") watch = []) as ->.
  { destruct Hwatch as [[_ ->]|(p & P & Hcp & HP & ->)]; [done|].
    rewrite (pr_parent _ _ _ _ Hp) in Hcp.
    assert (p <> next_id w) as Hne.
    { intros ->. destruct (pr_parent_ok _ _ _ _ Hp _ Hcp) as [? ?].
      congruence. }
    rewrite lookup_insert_ne in HP by done.
    unfold parent_subscriptions.
    rewrite filter_cons_False, filter_cons_False; [done| |].
    - apply property_topic_is_no_state_topic.
    - cbn. intros H. by apply (Hparent p P Hcp HP), state_topic_inj. }
  unfold own_subscriptions.
  rewrite filter_cons_False by apply reaction_topic_is_not_own_state_topic.
  by rewrite filter_cons_True.
Qed.


Lemma evolves_lookup w w' r R' :
  evolves w w' -> registries w' !! r = Some R' ->
  exists R st, registries w !! r = Some R /\ R' = with_state st R.
Proof.
  intros Hev HR'. pose proof (ev_registries _ _ Hev r) as H.
  rewrite HR' in H. destruct (registries w !! r) as [R|]; [|done].
  exists R, (_state R'). split; [done|]. cbn in H. injection H as H.
  destruct R, R'. cbn in *. by simplify_eq.
Qed.

Lemma evolves_lookup_back w w' r R :
  evolves w w' -> registries w !! r = Some R ->
  exists st, registries w' !! r = Some (with_state st R).
Proof.
  intros Hev HR. pose proof (ev_registries _ _ Hev r) as H.
  rewrite HR in H. destruct (registries w' !! r) as [R'|]; [|done].
  exists (_state R'). f_equal. cbn in H. injection H as H.
  destruct R, R'. cbn in *. by simplify_eq.
Qed.

Lemma subscribers_evolves t w w' :
  evolves w w' -> subscribers t w' = subscribers t w.
Proof. intros Hev. unfold subscribers. by rewrite (ev_bus _ _ Hev). Qed.

(** A hierarchy stays one while states change and the trace grows. *)
Lemma hierarchy_evolves w w' : hierarchy w -> evolves w w' -> hierarchy w'.
Proof.
  intros [Hst Hre Hyo Hbo] Hev. split.
  - intros r R' HR'.
    destruct (evolves_lookup _ _ _ _ Hev HR') as (R & st & HR & ->).
    destruct (Hst r R HR) as (kids & Hsub & Hnd & Hkids).
    exists kids. rewrite (subscribers_evolves _ _ _ Hev).
    split; [exact Hsub|]. split; [exact Hnd|].
    intros k. rewrite Hkids. split.
    + intros (K & HK & Hp).
      destruct (evolves_lookup_back _ _ _ _ Hev HK) as [st' HK'].
      by exists (with_state st' K).
    + intros (K' & HK' & Hp).
      destruct (evolves_lookup _ _ _ _ Hev HK') as (K & st' & HK & ->).
      by exists K.
  - intros r R' HR'.
    destruct (evolves_lookup _ _ _ _ Hev HR') as (R & st & HR & ->).
    rewrite (subscribers_evolves _ _ _ Hev). by apply (Hre r R).
  - intros k K' p HK' Hp.
    destruct (evolves_lookup _ _ _ _ Hev HK') as (K & st & HK & ->).
    by apply (Hyo k K p).
  - intros r R' HR'.
    destruct (evolves_lookup _ _ _ _ Hev HR') as (R & st & HR & ->).
    rewrite (ev_next_id _ _ Hev). by apply (Hbo r R).
Qed.

Lemma events_of_app r event l1 l2 :
  events_of r event (l1 ++ l2)
  = (events_of r event l1 ++ events_of r event l2)%list.
Proof.
  induction l1 as [|e l1 IH]; [done|].
  destruct e as [r' event' t payload| |]; cbn; try done.
  destruct (_ && _); cbn; by rewrite IH.
Qed.

Lemma dispatch_any em w r R change :
  registries w !! r = Some R ->
  notify em (Dispatch r) change w
  = ((dispatched r (handler_name change)
        (_states R !! handler_name change)).1,
     extended
       (dispatched r (handler_name change)
          (_states R !! handler_name change)).2 w).
Proof.
  intros HR. cbn [notify]. rewrite (bind_this _ _ _ _ HR). cbn zeta.
  fold (handler_name change).
  destruct (_states R !! handler_name change) as [h|]; cbn [dispatched fst snd].
  - apply wrapped_run.
  - by rewrite extended_nil.
Qed.

Lemma evolves_extended_dispatched w r name found :
  evolves w (extended (dispatched r name found).2 w).
Proof.
  split; try done; [intros x R R' HR HR'; left; cbn in HR'; congruence|].
  eexists. split; [reflexivity|].
  destruct found as [h|]; cbn; [|done]. constructor; [done|].
  unfold warning. destruct (h_ending h); [done|].
  destruct (_ && _); [|done]. by constructor.
Qed.

Lemma events_of_silent y l :
  Forall (silent y) l -> events_of y "state.changed" l = [].
Proof.
  induction 1 as [|e l He _ IH]; [done|].
  destruct e as [r event t payload| |]; cbn; try done.
  case_bool_decide as Hr; [|done].
  destruct (String.eqb_spec event "state.changed") as [->|_]; [|done].
  by destruct (He Hr).
Qed.

Lemma calls_of_silent y l : Forall (silent y) l -> calls_of y l = [].
Proof.
  induction 1 as [|e l He _ IH]; [done|].
  destruct e as [|r name|]; cbn; try done.
  by rewrite bool_decide_eq_false_2.
Qed.

Lemma calls_of_app r l1 l2 :
  calls_of r (l1 ++ l2) = (calls_of r l1 ++ calls_of r l2)%list.
Proof.
  induction l1 as [|e l1 IH]; [done|].
  destruct e as [|r' name|]; cbn; try done.
  destruct (bool_decide _); cbn; by rewrite IH.
Qed.

Lemma silent_dispatched y x name found :
  y <> x -> Forall (silent y) (dispatched x name found).2.
Proof.
  intros Hne. destruct found as [h|]; cbn; [|done].
  constructor; [cbn; congruence|].
  unfold warning. destruct (h_ending h); [done|].
  destruct (_ && _); [|done]. by constructor.
Qed.

Lemma silent_heading y fuel x X change :
  y <> x -> Forall (silent y) (heading fuel x X change).
Proof.
  intros Hne. destruct fuel; [done|]. constructor.
  - cbn. congruence.
  - by apply silent_dispatched.
Qed.

Section Below.

Variable fuel : nat.

Hypothesis cascades : forall f, f < fuel -> cascade_spec f.

(** The forwarding listener of a child [k] of [x]: registries other
    than [k] whose parent is not younger than [x] are left alone. *)
Lemma forward_one x k K change w c w1 :
  hierarchy w ->
  registries w !! k = Some K ->
  _parent K = Some x ->
  emit fuel k "parent.state.changed" change w = (c, w1) ->
  (2 * (next_id w - x) <= S fuel -> c <> OutOfFuel)
  /\ exists extra : list entry,
       trace w1 = (trace w ++ extra)%list
       /\ forall y Y,
            registries w !! y = Some Y ->
            y <> k ->
            (forall p, _parent Y = Some p -> p <= x) ->
            registries w1 !! y = Some Y /\ Forall (silent y) extra.
Proof.
  intros Hh HK Hpar Hrun.
  pose proof (h_younger _ Hh _ _ _ HK Hpar) as Hxk.
  pose proof (h_bound _ Hh _ _ HK) as Hkn.
  destruct fuel as [|f] eqn:Hfuel.
  { injection Hrun as <- <-. split; [lia|].
    exists []. rewrite app_nil_r. split; [done|]. by intros. }
  rewrite (emit_step _ _ _ _ _ _ HK) in Hrun.
  change (subscribers _ _)
    with (subscribers (topic K "parent.state.changed") w) in Hrun.
  rewrite (h_reaction_topic _ Hh _ _ HK), for_each_one in Hrun.
  set (E := Emitted k "parent.state.changed"
              (topic K "parent.state.changed") change) in *.
  assert (registries (logged E w) !! k = Some K) as HK1 by exact HK.
  cbn [notify] in Hrun. rewrite (bind_this _ _ _ _ HK1) in Hrun.
  assert (forall y, silent y E) as HE by (intros y; cbn; done).
  assert (forall y Y, registries w !! y = Some Y ->
            registries (logged E w) !! y = Some Y
            /\ Forall (silent y) [E]) as Hquiet.
  { intros y Y HY. split; [exact HY|]. by constructor. }
  destruct (managesReaction K (new change)).
  2:{ injection Hrun as <- <-. split; [done|].
      exists [E]. split; [done|]. intros y Y HY _ _. by apply Hquiet. }
  unfold set_state in Hrun. rewrite (bind_this _ _ _ _ HK1) in Hrun.
  destruct (Js.strict_eq _ _).
  { injection Hrun as <- <-. split; [done|].
    exists [E]. split; [done|]. intros y Y HY _ _. by apply Hquiet. }
  destruct (Js.toString _) as [s|]; cbn [deref] in Hrun.
  2:{ injection Hrun as <- <-. split; [done|].
      exists [E]. split; [done|]. intros y Y HY _ _. by apply Hquiet. }
  rewrite bind_ret, bind_write in Hrun.
  fold (enter k (Js.toLowerCase (Js.trim s)) (logged E w)) in Hrun.
  fold (normalize s) in Hrun.
  pose proof (lookup_enter_eq _ _ _ (normalize s) HK1) as HK2.
  rewrite (bind_this _ _ _ _ HK2) in Hrun.
  assert (hierarchy (enter k (normalize s) (logged E w))) as Hh2.
  { eapply hierarchy_evolves; [exact Hh|].
    eapply evolves_trans; [by apply (evolves_logged w E)|].
    apply evolves_enter. }
  destruct (cascades f ltac:(lia) _ _ _ _ _ _ Hh2 HK2 Hrun)
    as (Hfuel2 & rest & Htr & Hframe).
  split.
  { intros Hle. apply Hfuel2. cbn [next_id enter logged with_trace
      with_registries]. lia. }
  eexists (E :: heading f k _ _ ++ rest)%list. split.
  { rewrite Htr. cbn. by rewrite <- app_assoc. }
  intros y Y HY Hne Hyp.
  destruct (Hframe y Y) as [Hreg Hsil].
  - cbn. by rewrite lookup_alter_ne.
  - intros p Hp. specialize (Hyp p Hp). lia.
  - split; [exact Hreg|]. constructor; [done|].
    apply Forall_app. split; [by apply silent_heading | exact Hsil].
Qed.

Lemma forward_all x change ks : forall w c w1,
  hierarchy w ->
  (forall k, k ∈ ks -> exists K, registries w !! k = Some K
                                 /\ _parent K = Some x) ->
  for_each (fun l => notify (emit fuel) l change) (ForwardState <$> ks) w
  = (c, w1) ->
  evolves w w1
  /\ (2 * (next_id w - x) <= S fuel -> c <> OutOfFuel)
  /\ exists extra : list entry,
       trace w1 = (trace w ++ extra)%list
       /\ forall y Y,
            registries w !! y = Some Y ->
            y ∉ ks ->
            (forall p, _parent Y = Some p -> p <= x) ->
            registries w1 !! y = Some Y /\ Forall (silent y) extra.
Proof.
  induction ks as [|k ks IH]; intros w c w1 Hh Hkids Hrun.
  - injection Hrun as <- <-. split; [apply evolves_refl|].
    split; [done|]. exists []. rewrite app_nil_r. split; [done|].
    by intros.
  - rewrite fmap_cons, for_each_cons in Hrun.
    destruct (Hkids k ltac:(by left)) as (K & HK & Hpar).
    unfold mbind, M_bind, bind in Hrun. cbn [notify] in Hrun.
    destruct (emit fuel k "parent.state.changed" change w)
      as [c0 w0] eqn:Hone.
    assert (evolves w w0) as Hev0
        by (eapply emit_evolves; [|exact Hone]; done).
    destruct (forward_one _ _ _ _ _ _ _ Hh HK Hpar Hone)
      as (Hfuel0 & extra0 & Htr0 & Hframe0).
    assert (forall y Y, registries w !! y = Some Y -> y ∉ k :: ks ->
              (forall p, _parent Y = Some p -> p <= x) ->
              registries w0 !! y = Some Y
              /\ Forall (silent y) extra0) as Hframe0'.
    { intros y Y HY Hnot Hyp. apply Hframe0; [done| |done].
      intros ->. apply Hnot. by left. }
    destruct c0 as [[]|e|].
    + assert (hierarchy w0) as Hh0 by (by eapply hierarchy_evolves).
      destruct (IH w0 c w1 Hh0) as (Hev1 & Hfuel1 & extra1 & Htr1 & Hframe1).
      { intros k' Hk'. destruct (Hkids k' ltac:(by right)) as (K' & HK' & ?).
        destruct (evolves_lookup_back _ _ _ _ Hev0 HK') as [st HK0].
        by exists (with_state st K'). }
      { exact Hrun. }
      split; [by eapply evolves_trans|]. split.
      { rewrite (ev_next_id _ _ Hev0) in Hfuel1. exact Hfuel1. }
      exists (extra0 ++ extra1)%list. split.
      { by rewrite Htr1, Htr0, app_assoc. }
      intros y Y HY Hnot Hyp.
      destruct (Hframe0' y Y HY Hnot Hyp) as [HY0 Hev0'].
      destruct (Hframe1 y Y HY0) as [HY1 Hev1']; [|done|].
      { intros Hin. apply Hnot. by right. }
      split; [exact HY1|]. by apply Forall_app.
    + injection Hrun as <- <-. split; [exact Hev0|]. split; [done|].
      exists extra0. split; [exact Htr0|]. exact Hframe0'.
    + injection Hrun as <- <-. split; [exact Hev0|].
      split; [exact Hfuel0|].
      exists extra0. split; [exact Htr0|]. exact Hframe0'.
Qed.

End Below.

(** A cascade changes nothing at or above its origin: registries whose
    parent is older than the origin keep their state, and among them only
    the origin announces a change, once. With fuel for two emissions per
    generation that can follow, the cascade does not run out of fuel. *)
Lemma cascade_holds fuel : cascade_spec fuel.
Proof.
  induction fuel as [fuel IH] using lt_wf_ind.
  intros x X change w c w1 Hh HX Hrun.
  pose proof (h_bound _ Hh _ _ HX) as Hxn.
  destruct fuel as [|f].
  { injection Hrun as <- <-. split; [lia|].
    exists []. rewrite !app_nil_r. split; [done|]. by intros y Y HY _. }
  rewrite (emit_step _ _ _ _ _ _ HX) in Hrun.
  destruct (h_state_topic _ Hh _ _ HX) as (kids & Hsub & _ & Hkids).
  change (subscribers _ _)
    with (subscribers (topic X "state.changed") w) in Hrun.
  rewrite Hsub, for_each_cons in Hrun.
  set (E := Emitted x "state.changed" (topic X "state.changed") change) in *.
  assert (registries (logged E w) !! x = Some X) as HX1 by exact HX.
  unfold mbind, M_bind, bind in Hrun.
  rewrite (dispatch_any _ _ _ _ _ HX1) in Hrun.
  cbn [heading]. fold E.
  set (d := dispatched x (handler_name change)
              (_states X !! handler_name change)) in *.
  assert (trace (extended d.2 (logged E w)) = (trace w ++ E :: d.2)%list)
    as Htr0 by (cbn; by rewrite <- app_assoc).
  destruct d.1 as [[]|e|] eqn:Hd.
  - assert (hierarchy (extended d.2 (logged E w))) as Hh2.
    { eapply hierarchy_evolves; [exact Hh|].
      eapply evolves_trans; [by apply (evolves_logged w E)|].
      apply evolves_extended_dispatched. }
    assert (forall k, k ∈ kids ->
              exists K, registries (extended d.2 (logged E w)) !! k = Some K
                        /\ _parent K = Some x) as Hk
        by (intros k Hk; by apply Hkids).
    destruct (forward_all f (fun f' Hf' => IH f' ltac:(lia)) x change kids
                _ _ _ Hh2 Hk Hrun)
      as (_ & Hfuel & extra & Htr & Hframe).
    split; [exact Hfuel|].
    exists extra. split.
    { rewrite Htr, Htr0. by rewrite <- app_assoc. }
    intros y Y HY Hyp. apply (Hframe y Y HY).
    + intros Hin. apply Hkids in Hin as (K & HK & Hp).
      rewrite HY in HK. injection HK as <-. specialize (Hyp x Hp). lia.
    + intros p Hp. specialize (Hyp p Hp). lia.
  - injection Hrun as <- <-. split; [done|].
    exists []. rewrite app_nil_r. split; [exact Htr0|]. by intros y Y HY _.
  - exfalso. by apply (dispatched_not_out_of_fuel x (handler_name change)
                         (_states X !! handler_name change)).
Qed.


Lemma handler_name_state_change from to :
  handler_name (state_change from to) = to.
Proof. reflexivity. Qed.

Lemma calls_of_dispatched_found r name found :
  calls_of r (dispatched r name found).2
  = match found with Some _ => [name] | None => [] end.
Proof.
  destruct found as [h|]; [|done]. apply calls_of_dispatched.
Qed.

(** What the registry [x] has announced and run once the heading of its
    cascade is on the trace. *)
Lemma events_of_heading fuel x X change :
  events_of x "state.changed" (heading (S fuel) x X change) = [change].
Proof. cbn [heading]. by rewrite events_of_here, events_of_dispatched. Qed.

Lemma calls_of_heading fuel x X change :
  calls_of x (heading (S fuel) x X change)
  = match _states X !! handler_name change with
    | Some _ => [handler_name change]
    | None => []
    end.
Proof. cbn [heading calls_of]. apply calls_of_dispatched_found. Qed.

(** In a hierarchy an assignment that changes the state of a registry
    leaves it in the new state, has it announce the change once, and runs
    the handler of the new state once when there is one: whatever the
    children do, and however the assignment ends. *)
Lemma assignment_is_announced_once fuel w r R v s out w' :
  hierarchy w ->
  registries w !! r = Some R ->
  Js.toString v = Some s ->
  Js.Str (get_state R) <> v ->
  assign_state (S fuel) r v w = (out, w') ->
  (2 * next_id w <= S fuel -> out <> OutOfFuel)
  /\ registries w' !! r = Some (with_state (Some (normalize s)) R)
  /\ events_of r "state.changed" (since w w')
     = [state_change (get_state R) (normalize s)]
  /\ calls_of r (since w w')
     = match _states R !! normalize s with
       | Some _ => [normalize s]
       | None => []
       end.
Proof.
  intros Hh HR Hs Hne Hrun. unfold assign_state in Hrun.
  rewrite (set_state_other _ _ _ _ _ _ HR Hs Hne) in Hrun.
  pose proof (lookup_enter_eq _ _ _ (normalize s) HR) as HR1.
  assert (hierarchy (enter r (normalize s) w)) as Hh1
      by (eapply hierarchy_evolves; [exact Hh | apply evolves_enter]).
  destruct (cascade_holds _ _ _ _ _ _ _ Hh1 HR1 Hrun)
    as (Hout & rest & Htr & Hframe).
  destruct (Hframe r _ HR1) as [HR2 Hsil].
  { intros q Hq. by apply (h_younger _ Hh r R). }
  split; [intros Hle; apply Hout; cbn; lia|].
  split; [exact HR2|].
  rewrite (since_app w w' _ Htr). split.
  - by rewrite events_of_app, events_of_heading, events_of_silent.
  - by rewrite calls_of_app, calls_of_heading, calls_of_silent, app_nil_r.
Qed.

(** The forwarding listener of a child whose reactions cover the new
    state of the parent, when it completes: the child is in the target
    state, and has announced the change unless it was there already. *)
Lemma forward_reacting fuel c C x change w w1 t :
  hierarchy w ->
  registries w !! c = Some C ->
  _parent C = Some x ->
  get_reactions C !! Js.to_key (new change) = Some t ->
  emit fuel c "parent.state.changed" change w = (Normal tt, w1) ->
  exists extra : list entry,
    trace w1 = (trace w ++ extra)%list
    /\ registries w1 !! c
       = Some (if decide (get_state C = t) then C
               else with_state (Some (normalize t)) C)
    /\ events_of c "state.changed" extra
       = if decide (get_state C = t) then []
         else [state_change (get_state C) (normalize t)].
Proof.
  intros Hh HC Hpar Ht Hrun.
  destruct fuel as [|f]; [done|].
  rewrite (emit_step _ _ _ _ _ _ HC) in Hrun.
  change (subscribers _ _)
    with (subscribers (topic C "parent.state.changed") w) in Hrun.
  rewrite (h_reaction_topic _ Hh _ _ HC), for_each_one in Hrun.
  set (E := Emitted c "parent.state.changed"
              (topic C "parent.state.changed") change) in *.
  assert (registries (logged E w) !! c = Some C) as HC1 by exact HC.
  cbn [notify] in Hrun. rewrite (bind_this _ _ _ _ HC1) in Hrun.
  unfold managesReaction in Hrun. rewrite Ht in Hrun.
  rewrite bool_decide_eq_true_2 in Hrun by done.
  assert (hierarchy (logged E w)) as Hh1
      by (eapply hierarchy_evolves; [exact Hh | by apply evolves_logged]).
  destruct (decide (get_state C = t)) as [Heq|Hne].
  - rewrite <- Heq in Hrun. rewrite (set_state_same _ _ _ _ HC1) in Hrun.
    injection Hrun as <-. exists [E]. split; [done|]. split; [done|].
    subst E. by rewrite events_of_other_event.
  - destruct f as [|f].
    { rewrite (set_state_other _ _ _ _ (Js.Str t) t HC1) in Hrun;
        [done|done|congruence]. }
    destruct (assignment_is_announced_once f (logged E w) c C (Js.Str t) t
                (Normal tt) w1 Hh1 HC1 eq_refl ltac:(congruence) Hrun)
      as (_ & Hst & Hev & _).
    assert (evolves (logged E w) w1) as Hev1
        by (eapply assign_evolves; exact Hrun).
    destruct (ev_trace _ _ Hev1) as (extra & Htr & _).
    exists (E :: extra). split.
    { rewrite Htr. cbn. by rewrite <- app_assoc. }
    split; [exact Hst|].
    rewrite (since_app _ _ _ Htr) in Hev.
    subst E. by rewrite events_of_other_event.
Qed.



(** ** Worlds that are hierarchies *)

Lemma hierarchy_page doc : hierarchy (page doc).
Proof.
  split; [intros r R H | intros r R H | intros k K p H _ | intros r R H];
    cbn in H; by rewrite lookup_empty in H.
Qed.

Lemma instance_parent i sel cfg :
  _parent (instance i sel cfg) = Cfg.parent cfg.
Proof.
  unfold instance, initialise_properties, assure_default.
  destruct (managesState _ _); destruct (propertyFields _);
    cbn; by destruct (Cfg.parent cfg).
Qed.

Lemma property_topic_is_no_reaction_topic P R :
  topic P "property.changed" <> topic R "parent.state.changed".
Proof.
  unfold topic. change "property.changed" with ("pro" ++ "perty.changed").
  change "parent.state.changed" with ("parent." ++ "state.changed").
  rewrite <- !append_assoc. intros H.
  by apply append_suffix in H as [_ H].
Qed.

(** A registry that is built on topics nobody uses yet extends a
    hierarchy to a hierarchy. *)
Lemma hierarchy_after_construction w cfg r cfg' w1 R :
  hierarchy w ->
  ViewRegistry2 (Object cfg) w = (Normal r, Object cfg', w1) ->
  registries w1 !! r = Some R ->
  subscribers (topic R "state.changed") w = [] ->
  subscribers (topic R "parent.state.changed") w = [] ->
  hierarchy w1.
Proof.
  intros Hh Hrun HR Hfree_s Hfree_p.
  rewrite ViewRegistry2_object in Hrun.
  destruct (prepare w cfg) as [cfg1 [e|]] eqn:Hprep; [done|].
  destruct (prepare_passes _ _ _ Hprep) as [sel Hp].
  destruct (construction_completes _ _ _ _ Hprep Hp)
    as (w1' & watch & Hrun1 & Hregs & Hbus & Hwatch & _ & _ & _ & Hnext).
  rewrite ViewRegistry2_object, Hprep in Hrun1.
  rewrite Hrun1 in Hrun. injection Hrun as <- <- <-.
  rewrite Hregs, lookup_insert_eq in HR. injection HR as HR.
  rewrite HR in Hregs, Hbus, Hwatch.
  set (i := next_id w) in *.
  assert (registries w !! i = None) as Hfresh.
  { destruct (registries w !! i) as [X|] eqn:HX; [|done].
    pose proof (h_bound _ Hh _ _ HX). subst i. lia. }
  assert (_parent R = Cfg.parent cfg1) as HRp
      by (rewrite <- HR; apply instance_parent).
  (* topics of old registries are in use, hence not the new ones *)
  assert (forall x X, registries w !! x = Some X ->
            topic X "state.changed" <> topic R "state.changed"
            /\ topic X "state.changed" <> topic R "parent.state.changed"
            /\ topic X "parent.state.changed" <> topic R "state.changed"
            /\ topic X "parent.state.changed"
               <> topic R "parent.state.changed") as Hold.
  { intros x X HX.
    destruct (h_state_topic _ Hh _ _ HX) as (kids & Hsub & _).
    pose proof (h_reaction_topic _ Hh _ _ HX) as Hsub'.
    repeat split; intros Heq; rewrite Heq in *; congruence. }
  (* the subscriptions of a topic afterwards *)
  assert (forall t, subscribers t w1'
            = (subscribers t w
               ++ (snd <$> filter (fun s => s.1 = t) watch)
               ++ (snd <$> filter (fun s => s.1 = t)
                             (own_subscriptions R i)))%list) as Hsubs.
  { intros t. rewrite (subscribers_app t w _ _ Hbus).
    by rewrite filter_app, fmap_app. }
  assert (forall x X, registries w !! x = Some X -> x <> i) as Hne_i.
  { intros x X HX ->. congruence. }
  split.
  - (* state.changed *)
    intros x X HX. rewrite Hregs in HX.
    destruct (decide (i = x)) as [<-|Hne].
    + rewrite lookup_insert_eq in HX. injection HX as <-.
      exists []. rewrite Hsubs, Hfree_s. cbn [app fmap list_fmap].
      assert (filter (fun s => s.1 = topic R "state.changed") watch = [])
        as ->.
      { destruct Hwatch as [[_ ->]|(p & P & Hcp & HP & ->)]; [done|].
        assert (p <> i) as Hpi.
        { intros ->. rewrite Hcp in HRp.
          rewrite (pr_parent _ _ _ _ Hp) in Hcp.
          destruct (pr_parent_ok _ _ _ _ Hp _ Hcp) as [? ?]. congruence. }
        rewrite lookup_insert_ne in HP by done.
        unfold parent_subscriptions.
        rewrite filter_cons_False, filter_cons_False; [done| |].
        - apply property_topic_is_no_state_topic.
        - cbn. by apply (Hold p P HP). }
      unfold own_subscriptions.
      rewrite filter_cons_False
        by apply reaction_topic_is_not_own_state_topic.
      rewrite filter_cons_True by done. split; [done|].
      split; [constructor|]. intros k. split; [by intros ?%elem_of_nil|].
      intros (K & HK & HKp). exfalso. rewrite Hregs in HK.
      destruct (decide (i = k)) as [<-|Hik].
      * rewrite lookup_insert_eq in HK. injection HK as <-.
        rewrite HRp in HKp. rewrite (pr_parent _ _ _ _ Hp) in HKp.
        destruct (pr_parent_ok _ _ _ _ Hp _ HKp) as [? ?]. congruence.
      * rewrite lookup_insert_ne in HK by done.
        pose proof (h_younger _ Hh _ _ _ HK HKp).
        pose proof (h_bound _ Hh _ _ HK). subst i. lia.
    + rewrite lookup_insert_ne in HX by done.
      destruct (h_state_topic _ Hh _ _ HX) as (kids & Hsub & Hnd & Hkids).
      destruct (Hold x X HX) as (Hss & Hsp & _ & _).
      assert ((snd <$> filter (fun s => s.1 = topic X "state.changed")
                         (own_subscriptions R i)) = []) as Hown.
      { unfold own_subscriptions.
        rewrite filter_cons_False, filter_cons_False; [done| |];
          cbn; congruence. }
      rewrite Hsubs, Hown, app_nil_r, Hsub.
      destruct Hwatch as [[Hnone ->]|(p & P & Hcp & HP & ->)].
      * exists kids. rewrite app_nil_r. split; [done|]. split; [done|].
        intros k. rewrite Hkids, Hregs. split.
        -- intros (K & HK & HKp). exists K. split; [|done].
           rewrite lookup_insert_ne; [done|]. intros <-. congruence.
        -- intros (K & HK & HKp). destruct (decide (i = k)) as [<-|Hik].
           ++ rewrite lookup_insert_eq in HK. injection HK as <-.
              congruence.
           ++ rewrite lookup_insert_ne in HK by done. by exists K.
      * assert (p <> i) as Hpi.
        { intros ->. rewrite (pr_parent _ _ _ _ Hp) in Hcp.
          destruct (pr_parent_ok _ _ _ _ Hp _ Hcp) as [? ?]. congruence. }
        rewrite lookup_insert_ne in HP by done.
        unfold parent_subscriptions.
        destruct (decide (p = x)) as [->|Hpx].
        -- rewrite HX in HP. injection HP as <-.
           rewrite filter_cons_True by done.
           rewrite filter_cons_False
             by (cbn; apply property_topic_is_no_state_topic).
           exists (kids ++ [i])%list. rewrite fmap_app. split; [done|].
           split.
           { apply NoDup_app. split; [done|]. split; [|apply NoDup_singleton].
             intros k Hk ->%list_elem_of_singleton.
             apply Hkids in Hk as (K & HK & _). congruence. }
           intros k. rewrite elem_of_app, list_elem_of_singleton, Hkids, Hregs.
           split.
           ++ intros [(K & HK & HKp)| ->].
              ** exists K. split; [|done].
                 rewrite lookup_insert_ne; [done|].
                 intros <-. congruence.
              ** exists R. rewrite lookup_insert_eq. split; [done|].
                 by rewrite HRp.
           ++ intros (K & HK & HKp). destruct (decide (i = k)) as [<-|Hik].
              ** by right.
              ** left. rewrite lookup_insert_ne in HK by done. by exists K.
        -- assert (topic P "state.changed" <> topic X "state.changed") as Hpxt.
           { intros Heq.
             destruct (h_state_topic _ Hh _ _ HP) as (kids' & Hsub' & _).
             rewrite Heq, Hsub in Hsub'. congruence. }
           rewrite filter_cons_False by done.
           rewrite filter_cons_False
             by (cbn; apply property_topic_is_no_state_topic).
           exists kids. rewrite app_nil_r. split; [done|]. split; [done|].
           intros k. rewrite Hkids, Hregs. split.
           ++ intros (K & HK & HKp). exists K. split; [|done].
              rewrite lookup_insert_ne; [done|]. intros <-. congruence.
           ++ intros (K & HK & HKp). destruct (decide (i = k)) as [<-|Hik].
              ** rewrite lookup_insert_eq in HK. injection HK as <-.
                 rewrite HRp, Hcp in HKp. congruence.
              ** rewrite lookup_insert_ne in HK by done. by exists K.
  - (* parent.state.changed *)
    intros x X HX. rewrite Hregs in HX. rewrite Hsubs.
    destruct (decide (i = x)) as [<-|Hne].
    + rewrite lookup_insert_eq in HX. injection HX as <-.
      rewrite Hfree_p. cbn [app].
      assert (filter (fun s => s.1 = topic R "parent.state.changed") watch
              = []) as ->.
      { destruct Hwatch as [[_ ->]|(p & P & Hcp & HP & ->)]; [done|].
        assert (p <> i) as Hpi.
        { intros ->. rewrite (pr_parent _ _ _ _ Hp) in Hcp.
          destruct (pr_parent_ok _ _ _ _ Hp _ Hcp) as [? ?]. congruence. }
        rewrite lookup_insert_ne in HP by done.
        unfold parent_subscriptions.
        rewrite filter_cons_False, filter_cons_False; [done| |].
        - apply property_topic_is_no_reaction_topic.
        - cbn. by apply (Hold p P HP). }
      unfold own_subscriptions. rewrite filter_cons_True by done.
      rewrite filter_cons_False; [done|].
      cbn. intros Heq. by apply (reaction_topic_is_not_own_state_topic R).
    + rewrite lookup_insert_ne in HX by done.
      rewrite (h_reaction_topic _ Hh _ _ HX).
      destruct (Hold x X HX) as (_ & _ & Hps & Hpp).
      assert (filter (fun s => s.1 = topic X "parent.state.changed") watch
              = []) as ->.
      { destruct Hwatch as [[_ ->]|(p & P & Hcp & HP & ->)]; [done|].
        assert (p <> i) as Hpi.
        { intros ->. rewrite (pr_parent _ _ _ _ Hp) in Hcp.
          destruct (pr_parent_ok _ _ _ _ Hp _ Hcp) as [? ?]. congruence. }
        rewrite lookup_insert_ne in HP by done.
        unfold parent_subscriptions.
        rewrite filter_cons_False, filter_cons_False; [done| |].
        - apply property_topic_is_no_reaction_topic.
        - cbn. intros Heq.
          destruct (h_state_topic _ Hh _ _ HP) as (kids' & Hsub' & _).
          pose proof (h_reaction_topic _ Hh _ _ HX) as Hsub''.
          rewrite Heq in Hsub'. congruence. }
      unfold own_subscriptions.
      rewrite filter_cons_False, filter_cons_False; [done| |];
        cbn; congruence.
  - (* children are younger *)
    intros k K p HK HKp. rewrite Hregs in HK.
    destruct (decide (i = k)) as [<-|Hik].
    + rewrite lookup_insert_eq in HK. injection HK as <-.
      rewrite HRp, (pr_parent _ _ _ _ Hp) in HKp.
      destruct (pr_parent_ok _ _ _ _ Hp _ HKp) as [P HP].
      pose proof (h_bound _ Hh _ _ HP). by subst i.
    + rewrite lookup_insert_ne in HK by done. by apply (h_younger _ Hh k K).
  - (* ids are below the next one *)
    intros x X HX. rewrite Hregs in HX. rewrite Hnext.
    destruct (decide (i = x)) as [<-|Hne]; [subst i; lia|].
    rewrite lookup_insert_ne in HX by done.
    pose proof (h_bound _ Hh _ _ HX). subst i. lia.
Qed.

(** A hierarchy is a matter of the subscriptions, of the ids, and of the
    [scope] and [_parent] of the registries. *)
Lemma hierarchy_same_shape w w' :
  bus w' = bus w ->
  next_id w' = next_id w ->
  (forall r, (fun R => (scope R, _parent R)) <$> registries w' !! r
             = (fun R => (scope R, _parent R)) <$> registries w !! r) ->
  hierarchy w -> hierarchy w'.
Proof.
  intros Hbus Hnext Hregs Hh.
  assert (forall t, subscribers t w' = subscribers t w) as Hsubs
      by (intros t; unfold subscribers; by rewrite Hbus).
  assert (forall r R', registries w' !! r = Some R' ->
            exists R, registries w !! r = Some R
                      /\ scope R' = scope R /\ _parent R' = _parent R)
    as Hback.
  { intros r R' HR'. specialize (Hregs r). rewrite HR' in Hregs.
    destruct (registries w !! r) as [R|]; [|done].
    exists R. cbn in Hregs. by simplify_eq. }
  assert (forall r R, registries w !! r = Some R ->
            exists R', registries w' !! r = Some R'
                       /\ scope R' = scope R /\ _parent R' = _parent R)
    as Hforth.
  { intros r R HR. specialize (Hregs r). rewrite HR in Hregs.
    destruct (registries w' !! r) as [R'|]; [|done].
    exists R'. cbn in Hregs. by simplify_eq. }
  split.
  - intros r R' HR'. destruct (Hback r R' HR') as (R & HR & Hs & _).
    destruct (h_state_topic _ Hh _ _ HR) as (kids & Hsub & Hnd & Hkids).
    exists kids. rewrite Hsubs. unfold topic in *. rewrite Hs.
    split; [exact Hsub|]. split; [exact Hnd|].
    intros k. rewrite Hkids. split.
    + intros (K & HK & HKp). destruct (Hforth k K HK) as (K' & HK' & _ & Hp').
      exists K'. split; [done | congruence].
    + intros (K' & HK' & HKp). destruct (Hback k K' HK') as (K & HK & _ & Hp').
      exists K. split; [done | congruence].
  - intros r R' HR'. destruct (Hback r R' HR') as (R & HR & Hs & _).
    rewrite Hsubs. unfold topic in *. rewrite Hs.
    by apply (h_reaction_topic _ Hh r R).
  - intros k K' p HK' HKp. destruct (Hback k K' HK') as (K & HK & _ & Hp').
    apply (h_younger _ Hh k K); [done | congruence].
  - intros r R' HR'. destruct (Hback r R' HR') as (R & HR & _).
    rewrite Hnext. by apply (h_bound _ Hh r R).
Qed.

Lemma hierarchy_assign fuel r v w :
  hierarchy w -> hierarchy (assign_state fuel r v w).2.
Proof.
  intros Hh. destruct (assign_state fuel r v w) as [c w'] eqn:Hrun.
  eapply hierarchy_evolves; [exact Hh|]. by eapply assign_evolves.
Qed.

Lemma hierarchy_next_turn fuel w :
  hierarchy w -> hierarchy (next_turn fuel w).2.
Proof.
  intros Hh. unfold next_turn. destruct (queue w) as [|[r] rest]; [done|].
  assert (hierarchy (with_queue rest w)) as Hh'
      by (by apply (hierarchy_same_shape w)).
  cbn [run_task]. unfold mbind, M_bind, bind, this. cbn.
  destruct (registries w !! r) as [R|]; [|done].
  by apply hierarchy_assign.
Qed.

Lemma hierarchy_reactions w r re :
  hierarchy w ->
  hierarchy (with_registries (alter (with_reactions re) r (registries w)) w).
Proof.
  apply hierarchy_same_shape; try done.
  intros x. cbn. destruct (decide (r = x)) as [->|Hne].
  - rewrite lookup_alter_eq. by destruct (registries w !! x).
  - by rewrite lookup_alter_ne.
Qed.

(** The methods on the reaction table keep a hierarchy. *)
Lemma hierarchy_createReaction w r source target :
  hierarchy w -> hierarchy (createReaction r source target w).2.
Proof.
  intros Hh. unfold createReaction, mbind, M_bind, bind, this.
  destruct (registries w !! r) as [R|]; [|done].
  destruct (_parent R).
  - destruct (_reactions R); [|done]. by apply hierarchy_reactions.
  - by apply (hierarchy_same_shape w).
Qed.

Lemma hierarchy_removeReaction w r source :
  hierarchy w -> hierarchy (removeReaction r source w).2.
Proof.
  intros Hh. unfold removeReaction, mbind, M_bind, bind, this.
  destruct (registries w !! r) as [R|]; [|done].
  destruct (managesReaction _ _); [|done].
  destruct (_reactions R); [|done]. by apply hierarchy_reactions.
Qed.

Lemma hierarchy_clearReactions w r :
  hierarchy w -> hierarchy (clearReactions r w).2.
Proof. apply hierarchy_reactions. Qed.

(** ** Worlds that hold normalized states *)

(** Assignments, whatever they set off, keep the states normalized. *)
Lemma normalized_evolves w w' : normalized w -> evolves w w' -> normalized w'.
Proof.
  intros Hn Hev r R' HR'.
  destruct (evolves_lookup _ _ _ _ Hev HR') as (R & st & HR & _).
  destruct (ev_states _ _ Hev r R R' HR HR') as [Hsame|[s Hnew]].
  - unfold get_state. rewrite Hsame. by apply (Hn r).
  - unfold get_state. rewrite Hnew. cbn. apply normalize_idempotent.
Qed.

Lemma normalized_same_states w w' :
  (forall r, _state <$> registries w' !! r = _state <$> registries w !! r) ->
  normalized w -> normalized w'.
Proof.
  intros Hregs Hn r R' HR'. specialize (Hregs r). rewrite HR' in Hregs.
  destruct (registries w !! r) as [R|] eqn:HR; [|done].
  cbn in Hregs. unfold get_state. injection Hregs as ->. by apply (Hn r).
Qed.

Lemma normalized_page doc : normalized (page doc).
Proof. intros r R HR. cbn in HR. by rewrite lookup_empty in HR. Qed.

Lemma normalized_after_construction w cfg c cfg' w1 :
  normalized w ->
  ViewRegistry2 (Object cfg) w = (c, Object cfg', w1) ->
  normalized w1.
Proof.
  intros Hn Hrun. rewrite ViewRegistry2_object in Hrun.
  destruct (prepare w cfg) as [cfg1 [e|]] eqn:Hprep.
  - by injection Hrun as _ _ <-.
  - destruct (prepare_passes _ _ _ Hprep) as [sel Hp].
    destruct (construction_completes _ _ _ _ Hprep Hp)
      as (w1' & watch & Hrun1 & Hregs & _).
    rewrite ViewRegistry2_object, Hprep in Hrun1.
    rewrite Hrun1 in Hrun. injection Hrun as _ _ <-.
    intros r R HR. rewrite Hregs in HR.
    destruct (decide (next_id w = r)) as [<-|Hne].
    + rewrite lookup_insert_eq in HR. injection HR as <-.
      unfold get_state. by rewrite instance_state.
    + rewrite lookup_insert_ne in HR by done. by apply (Hn r).
Qed.

Lemma normalized_assign fuel r v w :
  normalized w -> normalized (assign_state fuel r v w).2.
Proof.
  intros Hn. destruct (assign_state fuel r v w) as [c w'] eqn:Hrun.
  eapply normalized_evolves; [exact Hn|]. by eapply assign_evolves.
Qed.

Lemma normalized_next_turn fuel w :
  normalized w -> normalized (next_turn fuel w).2.
Proof.
  intros Hn. unfold next_turn. destruct (queue w) as [|[r] rest]; [done|].
  assert (normalized (with_queue rest w)) as Hn'
      by (by apply (normalized_same_states w)).
  cbn [run_task]. unfold mbind, M_bind, bind, this. cbn.
  destruct (registries w !! r) as [R|]; [|done].
  by apply normalized_assign.
Qed.

Lemma normalized_reactions w r re :
  normalized w ->
  normalized (with_registries (alter (with_reactions re) r (registries w)) w).
Proof.
  apply normalized_same_states. intros x. cbn.
  destruct (decide (r = x)) as [->|Hne].
  - rewrite lookup_alter_eq. by destruct (registries w !! x).
  - by rewrite lookup_alter_ne.
Qed.

Lemma normalized_createReaction w r source target :
  normalized w -> normalized (createReaction r source target w).2.
Proof.
  intros Hn. unfold createReaction, mbind, M_bind, bind, this.
  destruct (registries w !! r) as [R|]; [|done].
  destruct (_parent R).
  - destruct (_reactions R); [|done]. by apply normalized_reactions.
  - by apply (normalized_same_states w).
Qed.

Lemma normalized_removeReaction w r source :
  normalized w -> normalized (removeReaction r source w).2.
Proof.
  intros Hn. unfold removeReaction, mbind, M_bind, bind, this.
  destruct (registries w !! r) as [R|]; [|done].
  destruct (managesReaction _ _); [|done].
  destruct (_reactions R); [|done]. by apply normalized_reactions.
Qed.

Lemma normalized_clearReactions w r :
  normalized w -> normalized (clearReactions r w).2.
Proof. apply normalized_reactions. Qed.

(** The worlds of the examples are hierarchies. *)
Lemma hierarchy_A_offline : hierarchy Scenario.A_offline.
Proof.
  apply hierarchy_next_turn.
  apply (hierarchy_after_construction (page Scenario.doc) Scenario.A_cfg 0
           Scenario.A_cfg Scenario.A_built
           (Scenario.registry Scenario.A_built 0)).
  - apply hierarchy_page.
  - vm_compute. reflexivity.
  - vm_compute. reflexivity.
  - vm_compute. reflexivity.
  - vm_compute. reflexivity.
Qed.

Lemma hierarchy_AB : hierarchy Scenario.AB.
Proof.
  eapply (hierarchy_after_construction Scenario.A_offline
            (Scenario.B_cfg "active") 1 _
            Scenario.AB (Scenario.registry Scenario.AB 1)).
  - apply hierarchy_A_offline.
  - vm_compute. reflexivity.
  - vm_compute. reflexivity.
  - vm_compute. reflexivity.
  - vm_compute. reflexivity.
Qed.


(** * Further properties *)

(** ** More fuel changes nothing *)

Section MoreFuel.

Variables em em' : emitter.

Hypothesis em_more :
  forall r event payload w c w',
    em r event payload w = (c, w') -> c <> OutOfFuel ->
    em' r event payload w = (c, w').

Lemma set_state_more r v w c w' :
  set_state em r v w = (c, w') -> c <> OutOfFuel ->
  set_state em' r v w = (c, w').
Proof.
  unfold set_state, mbind, M_bind, bind, this.
  destruct (registries w !! r) as [R|]; [|done].
  destruct (Js.strict_eq _ _); [done|].
  destruct (Js.toString v) as [s|]; cbn [deref ret throw]; [|done].
  cbn [write]. 
  destruct (registries _ !! r) as [R'|]; [|done].
  apply em_more.
Qed.

Lemma notify_more l change w c w' :
  notify em l change w = (c, w') -> c <> OutOfFuel ->
  notify em' l change w = (c, w').
Proof.
  destruct l as [child|child|r|r]; cbn [notify].
  - apply em_more.
  - apply em_more.
  - unfold mbind, M_bind, bind, this.
    destruct (registries w !! r) as [R|]; [|done].
    destruct (managesReaction _ _); [|done]. apply set_state_more.
  - done.
Qed.

Lemma for_each_more change ls : forall w c w',
  for_each (fun l => notify em l change) ls w = (c, w') -> c <> OutOfFuel ->
  for_each (fun l => notify em' l change) ls w = (c, w').
Proof.
  induction ls as [|l ls IH]; intros w c w'; [done|].
  rewrite !for_each_cons. unfold mbind, M_bind, bind.
  destruct (notify em l change w) as [[[]|e|] w1] eqn:Hl.
  - rewrite (notify_more _ _ _ _ _ Hl) by done. apply IH.
  - rewrite (notify_more _ _ _ _ _ Hl) by done. done.
  - by intros [= <- <-].
Qed.

End MoreFuel.

Lemma emit_more_fuel fuel : forall r event payload w c w',
  emit fuel r event payload w = (c, w') -> c <> OutOfFuel ->
  emit (S fuel) r event payload w = (c, w').
Proof.
  induction fuel as [|fuel IH]; intros r event payload w c w'.
  - by intros [= <- <-].
  - destruct (registries w !! r) as [R|] eqn:HR.
    + rewrite !(emit_step _ _ _ _ _ _ HR). by apply for_each_more.
    + cbn [emit]. unfold mbind, M_bind, bind, this. by rewrite HR.
Qed.

Lemma emit_enough_fuel fuel fuel' r event payload w c w' :
  fuel <= fuel' ->
  emit fuel r event payload w = (c, w') -> c <> OutOfFuel ->
  emit fuel' r event payload w = (c, w').
Proof.
  induction 1 as [|fuel' _ IH]; [done|].
  intros H Hc. apply emit_more_fuel; [by apply IH | done].
Qed.

Lemma assign_enough_fuel fuel fuel' r v w c w' :
  fuel <= fuel' ->
  assign_state fuel r v w = (c, w') -> c <> OutOfFuel ->
  assign_state fuel' r v w = (c, w').
Proof.
  intros Hle. apply set_state_more. intros. by eapply emit_enough_fuel.
Qed.

(** ** Registries that a cascade leaves alone *)

Lemma untouched_refl y w : untouched y w w.
Proof. split; [done|]. exists []. by rewrite app_nil_r. Qed.

Lemma untouched_trans y w1 w2 w3 :
  untouched y w1 w2 -> untouched y w2 w3 -> untouched y w1 w3.
Proof.
  intros [r1 (x1 & t1 & s1)] [r2 (x2 & t2 & s2)]. split; [congruence|].
  exists (x1 ++ x2)%list. split; [by rewrite t2, t1, app_assoc|].
  by apply Forall_app.
Qed.

Lemma untouched_extended y l w :
  Forall (silent y) l -> untouched y w (extended l w).
Proof. intros Hl. split; [done|]. by exists l. Qed.

Lemma untouched_logged y e w : silent y e -> untouched y w (logged e w).
Proof. intros He. apply (untouched_extended y [e]). by constructor. Qed.

Lemma untouched_enter y r st w : y <> r -> untouched y w (enter r st w).
Proof.
  intros Hne. split; [by apply lookup_enter_ne|].
  exists []. by rewrite app_nil_r.
Qed.

Lemma since_self w : since w w = [].
Proof. unfold since. by rewrite drop_all. Qed.

(** What [untouched] says in terms of what can be observed. *)
Lemma untouched_observed y Y w w' :
  untouched y w w' ->
  registries w !! y = Some Y ->
  registries w' !! y = Some Y
  /\ events_of y "state.changed" (since w w') = []
  /\ calls_of y (since w w') = [].
Proof.
  intros [Hreg (extra & Htr & Hsil)] HY. split; [congruence|].
  rewrite (since_app _ _ _ Htr).
  split; [by apply events_of_silent | by apply calls_of_silent].
Qed.

(** How a loop over two lists ends. *)
Lemma for_each_app {A : Type} (body : A -> M unit) l1 l2 w :
  for_each body (l1 ++ l2) w
  = match for_each body l1 w with
    | (Normal _, w1) => for_each body l2 w1
    | other => other
    end.
Proof.
  revert w. induction l1 as [|a l1 IH]; intros w; [done|].
  cbn [app]. rewrite !for_each_cons. unfold mbind, M_bind, bind.
  destruct (body a w) as [[[]|e|] w1]; [apply IH|done|done].
Qed.

(** An assignment on [x], seen from a registry [y] that is not below
    [x]. *)
Lemma assign_untouched fuel w (x y : rid) Y v out w' :
  hierarchy w ->
  registries w !! y = Some Y ->
  y <> x ->
  (forall p, _parent Y = Some p -> p < x) ->
  assign_state fuel x v w = (out, w') ->
  untouched y w w'.
Proof.
  intros Hh HY Hne Hyp Hrun. unfold assign_state, set_state in Hrun.
  destruct (registries w !! x) as [X|] eqn:HX.
  2:{ unfold mbind, M_bind, bind, this in Hrun. rewrite HX in Hrun.
      injection Hrun as _ <-. apply untouched_refl. }
  rewrite (bind_this _ _ _ _ HX) in Hrun.
  destruct (Js.strict_eq _ _).
  { injection Hrun as _ <-. apply untouched_refl. }
  destruct (Js.toString v) as [s|]; cbn [deref] in Hrun.
  2:{ injection Hrun as _ <-. apply untouched_refl. }
  rewrite bind_ret, bind_write in Hrun.
  fold (enter x (Js.toLowerCase (Js.trim s)) w) in Hrun.
  fold (normalize s) in Hrun.
  pose proof (lookup_enter_eq _ _ _ (normalize s) HX) as HX1.
  rewrite (bind_this _ _ _ _ HX1) in Hrun.
  assert (hierarchy (enter x (normalize s) w)) as Hh1
      by (eapply hierarchy_evolves; [exact Hh | apply evolves_enter]).
  destruct (cascade_holds _ _ _ _ _ _ _ Hh1 HX1 Hrun)
    as (_ & rest & Htr & Hframe).
  destruct (Hframe y Y) as [HY' Hsil]; [by rewrite lookup_enter_ne|done|].
  eapply untouched_trans; [by apply (untouched_enter y x (normalize s))|].
  split; [by rewrite HY', lookup_enter_ne|].
  eexists. split; [exact Htr|].
  apply Forall_app. split; [by apply silent_heading | exact Hsil].
Qed.

(** ** A cascade, seen from one child *)

(** A child that has no reaction to the change only announces it. *)
Lemma forward_idle f w (c : rid) C change :
  hierarchy w ->
  registries w !! c = Some C ->
  get_reactions C !! Js.to_key (new change) = None ->
  emit (S f) c "parent.state.changed" change w
  = (Normal tt,
     logged (Emitted c "parent.state.changed"
               (topic C "parent.state.changed") change) w).
Proof.
  intros Hh HC Hnone. rewrite (emit_step _ _ _ _ _ _ HC).
  change (subscribers _ _)
    with (subscribers (topic C "parent.state.changed") w).
  rewrite (h_reaction_topic _ Hh _ _ HC), for_each_one.
  cbn [notify].
  erewrite bind_this by exact HC.
  unfold managesReaction. rewrite Hnone.
  by rewrite bool_decide_eq_false_2 by (by intros [? ?]).
Qed.

Lemma untouched_lookup y Y w w' :
  untouched y w w' -> registries w !! y = Some Y ->
  registries w' !! y = Some Y.
Proof. intros [Hreg _] HY. congruence. Qed.

(** The cascade that an emission of [state.changed] on [p] sets off
    either ends before the child [c] is told, or reaches [c] having left
    it alone, and after [c] has reacted leaves it alone again. *)
Lemma cascade_around_child f w (p c : rid) P C change out w' :
  hierarchy w ->
  registries w !! p = Some P ->
  registries w !! c = Some C ->
  _parent C = Some p ->
  emit (S f) p "state.changed" change w = (out, w') ->
  (out <> Normal tt /\ untouched c w w')
  \/ exists w3 w4 out_c,
       hierarchy w3
       /\ untouched c w w3
       /\ emit f c "parent.state.changed" change w3 = (out_c, w4)
       /\ (out_c <> Normal tt /\ out = out_c /\ w' = w4
           \/ out_c = Normal tt /\ untouched c w4 w').
Proof.
  intros Hh HP HC Hpar Hrun.
  pose proof (h_younger _ Hh _ _ _ HC Hpar) as Hpc.
  assert (p <> c) as Hne_pc by (intros Heq; rewrite Heq in Hpc; lia).
  rewrite (emit_step _ _ _ _ _ _ HP) in Hrun.
  destruct (h_state_topic _ Hh _ _ HP) as (kids & Hsub & Hnd & Hkids).
  rewrite Hsub in Hrun.
  assert (c ∈ kids) as Hin by (apply Hkids; by exists C).
  apply list_elem_of_split in Hin as (pre & post & ->).
  apply NoDup_app in Hnd as (_ & Hpre & Hpost).
  apply NoDup_cons in Hpost as [Hpost _].
  assert (c ∉ pre) as Hcpre
      by (intros Hin; apply (Hpre c Hin); by left).
  set (E := Emitted p "state.changed" (topic P "state.changed") change) in *.
  rewrite for_each_cons in Hrun. unfold mbind, M_bind, bind in Hrun.
  assert (registries (logged E w) !! p = Some P) as HP1 by exact HP.
  rewrite (dispatch_any _ _ _ _ _ HP1) in Hrun.
  set (d := dispatched p (handler_name change)
              (_states P !! handler_name change)) in *.
  set (w2 := extended d.2 (logged E w)) in *.
  assert (evolves w w2) as Hev2.
  { eapply evolves_trans; [by apply (evolves_logged _ E)|].
    apply evolves_extended_dispatched. }
  assert (untouched c w w2) as Hun2.
  { eapply untouched_trans.
    - apply (untouched_logged c E). cbn. intros Heq. by destruct Hne_pc.
    - apply untouched_extended. apply silent_dispatched. by intros ->. }
  destruct d.1 as [[]|e|] eqn:Hd.
  2:{ injection Hrun as <- <-. left. by split. }
  2:{ injection Hrun as <- <-. left. by split. }
  assert (hierarchy w2) as Hh2 by (by apply (hierarchy_evolves w)).
  assert (forall w0, evolves w w0 ->
            forall k, k ∈ (pre ++ c :: post)%list ->
              exists K, registries w0 !! k = Some K /\ _parent K = Some p)
    as Hkid.
  { intros w0 Hev0 k Hk.
    destruct (proj1 (Hkids k) Hk) as (K & HK & HKp).
    destruct (evolves_lookup_back _ _ _ _ Hev0 HK) as [st HK0].
    by exists (with_state st K). }
  rewrite fmap_app, for_each_app in Hrun.
  destruct (for_each _ (ForwardState <$> pre) w2) as [c3 w3] eqn:Hrun_pre.
  destruct (forward_all f (fun f' _ => cascade_holds f') p change pre
              _ _ _ Hh2
              (fun k Hk => Hkid w2 Hev2 k (proj2 (elem_of_app _ _ _)
                                             (or_introl Hk)))
              Hrun_pre)
    as (Hev3 & _ & extra3 & Htr3 & Hframe3).
  pose proof (untouched_lookup _ _ _ _ Hun2 HC) as HC2.
  destruct (Hframe3 c C HC2 Hcpre) as [HC3 Hsil3].
  { intros q Hq. rewrite Hpar in Hq. injection Hq as <-. lia. }
  assert (untouched c w w3) as Hun3.
  { eapply untouched_trans; [exact Hun2|].
    split; [congruence|]. by exists extra3. }
  destruct c3 as [[]|e|].
  2:{ injection Hrun as <- <-. left. by split. }
  2:{ injection Hrun as <- <-. left. by split. }
  rewrite fmap_cons, for_each_cons in Hrun.
  unfold mbind, M_bind, bind in Hrun. cbn [notify] in Hrun.
  destruct (emit f c "parent.state.changed" change w3)
    as [out_c w4] eqn:Hrun_c.
  assert (hierarchy w3) as Hh3 by (by apply (hierarchy_evolves w2)).
  right. exists w3, w4, out_c.
  split; [exact Hh3|]. split; [exact Hun3|]. split; [exact Hrun_c|].
  destruct out_c as [[]|e|].
  2:{ injection Hrun as <- <-. left. by split. }
  2:{ injection Hrun as <- <-. left. by split. }
  right. split; [reflexivity|].
  assert (evolves w3 w4) as Hev4
      by (eapply emit_evolves; [|exact Hrun_c]; done).
  assert (hierarchy w4) as Hh4 by (by apply (hierarchy_evolves w3)).
  assert (evolves w w4) as Hev04
      by (eapply evolves_trans; [|exact Hev4];
          eapply evolves_trans; [exact Hev2 | exact Hev3]).
  destruct (forward_all f (fun f' _ => cascade_holds f') p change post
              _ _ _ Hh4
              (fun k Hk => Hkid w4 Hev04 k
                             (proj2 (elem_of_app _ _ _)
                                (or_intror (list_elem_of_further _ _ _ Hk))))
              Hrun)
    as (_ & _ & extra5 & Htr5 & Hframe5).
  destruct (evolves_lookup_back _ _ _ _ Hev4 HC3) as [st HC4].
  destruct (Hframe5 c _ HC4 Hpost) as [HC5 Hsil5].
  { intros q Hq. cbn in Hq. rewrite Hpar in Hq. injection Hq as <-. lia. }
  split; [congruence|]. by exists extra5.
Qed.

(** An assignment to the parent, seen from a child that has no reaction
    to the new state: however the assignment ends, the child is left
    alone. *)
Lemma child_without_reaction_untouched fuel w (p c : rid) P C v out w' :
  hierarchy w ->
  registries w !! p = Some P ->
  registries w !! c = Some C ->
  _parent C = Some p ->
  (forall s, Js.toString v = Some s ->
             get_reactions C !! normalize s = None) ->
  assign_state fuel p v w = (out, w') ->
  untouched c w w'.
Proof.
  intros Hh HP HC Hpar Hnone Hrun.
  pose proof (h_younger _ Hh _ _ _ HC Hpar) as Hpc.
  assert (c <> p) as Hne_cp by (intros Heq; rewrite Heq in Hpc; lia).
  unfold assign_state, set_state in Hrun.
  rewrite (bind_this _ _ _ _ HP) in Hrun.
  destruct (Js.strict_eq _ _).
  { injection Hrun as _ <-. apply untouched_refl. }
  destruct (Js.toString v) as [s|]; cbn [deref] in Hrun.
  2:{ injection Hrun as _ <-. apply untouched_refl. }
  specialize (Hnone s eq_refl).
  rewrite bind_ret, bind_write in Hrun.
  fold (enter p (Js.toLowerCase (Js.trim s)) w) in Hrun.
  fold (normalize s) in Hrun.
  pose proof (lookup_enter_eq _ _ _ (normalize s) HP) as HP1.
  rewrite (bind_this _ _ _ _ HP1) in Hrun.
  assert (hierarchy (enter p (normalize s) w)) as Hh1
      by (eapply hierarchy_evolves; [exact Hh | apply evolves_enter]).
  assert (registries (enter p (normalize s) w) !! c = Some C) as HC1
      by (by rewrite lookup_enter_ne).
  eapply untouched_trans; [by apply (untouched_enter c p (normalize s))|].
  destruct fuel as [|f].
  { injection Hrun as _ <-. apply untouched_refl. }
  destruct (cascade_around_child _ _ _ _ _ _ _ _ _ Hh1 HP1 HC1 Hpar Hrun)
    as [[_ Hun]|(w3 & w4 & out_c & Hh3 & Hun3 & Hrun_c & Hrest)];
    [exact Hun|].
  eapply untouched_trans; [exact Hun3|].
  pose proof (untouched_lookup _ _ _ _ Hun3 HC1) as HC3.
  destruct f as [|f].
  { injection Hrun_c as <- <-.
    destruct Hrest as [(_ & _ & ->)|[? _]]; [apply untouched_refl | done]. }
  rewrite (forward_idle _ _ _ _ _ Hh3 HC3) in Hrun_c by exact Hnone.
  injection Hrun_c as <- <-.
  destruct Hrest as [[? _]|[_ Hun]]; [done|].
  eapply untouched_trans; [|exact Hun].
  apply untouched_logged. cbn. done.
Qed.

(** An assignment to the parent that completes, seen from a child that
    has a reaction to the new state. *)
Lemma parent_drives_child fuel w (p c : rid) P C v s t w' :
  hierarchy w ->
  registries w !! p = Some P ->
  registries w !! c = Some C ->
  _parent C = Some p ->
  Js.toString v = Some s ->
  Js.Str (get_state P) <> v ->
  get_reactions C !! normalize s = Some t ->
  assign_state fuel p v w = (Normal tt, w') ->
  registries w' !! c
  = Some (if decide (get_state C = t) then C
          else with_state (Some (normalize t)) C)
  /\ events_of c "state.changed" (since w w')
     = if decide (get_state C = t) then []
       else [state_change (get_state C) (normalize t)].
Proof.
  intros Hh HP HC Hpar Hs Hne Ht Hrun.
  pose proof (h_younger _ Hh _ _ _ HC Hpar) as Hpc.
  assert (c <> p) as Hne_cp by (intros Heq; rewrite Heq in Hpc; lia).
  unfold assign_state in Hrun.
  rewrite (set_state_other _ _ _ _ _ _ HP Hs Hne) in Hrun.
  pose proof (lookup_enter_eq _ _ _ (normalize s) HP) as HP1.
  assert (hierarchy (enter p (normalize s) w)) as Hh1
      by (eapply hierarchy_evolves; [exact Hh | apply evolves_enter]).
  assert (registries (enter p (normalize s) w) !! c = Some C) as HC1
      by (by rewrite lookup_enter_ne).
  destruct fuel as [|f]; [done|].
  destruct (cascade_around_child _ _ _ _ _ _ _ _ _ Hh1 HP1 HC1 Hpar Hrun)
    as [[? _]|(w3 & w4 & out_c & Hh3 & Hun3 & Hrun_c & Hrest)]; [done|].
  destruct Hrest as [(Hbad & <- & _)|[-> Hun5]]; [done|].
  pose proof (untouched_lookup _ _ _ _ Hun3 HC1) as HC3.
  destruct (forward_reacting f c C p
              (state_change (get_state P) (normalize s)) w3 w4 t Hh3 HC3
              Hpar Ht Hrun_c)
    as (extra4 & Htr4 & HC4 & Hev4).
  destruct Hun3 as [_ (extra3 & Htr3 & Hsil3)].
  destruct Hun5 as [HC5 (extra5 & Htr5 & Hsil5)].
  split; [congruence|].
  rewrite (since_app w w' (extra3 ++ extra4 ++ extra5)).
  2:{ rewrite Htr5, Htr4, Htr3. cbn. by rewrite <- !app_assoc. }
  rewrite !events_of_app, Hev4.
  rewrite (events_of_silent _ _ Hsil3), (events_of_silent _ _ Hsil5).
  by rewrite app_nil_r.
Qed.

(** ** Assignments in a hierarchy *)

(** X1. In a hierarchy every assignment comes to an end: with fuel for
    two emissions per registry the cascade it sets off does not run out,
    and more fuel gives the same outcome and the same world. *)
Theorem assignment_outcome_is_settled w (r : rid) v :
  hierarchy w ->
  exists out w',
    out <> OutOfFuel
    /\ forall fuel, 2 * next_id w <= fuel ->
                    assign_state fuel r v w = (out, w').
Proof.
  intros Hh. remember (2 * next_id w) as fuel0 eqn:Hfuel0.
  destruct (assign_state fuel0 r v w) as [out w'] eqn:Hrun.
  assert (out <> OutOfFuel) as Hout.
  { pose proof Hrun as Hrun1. unfold assign_state, set_state in Hrun1.
    destruct (registries w !! r) as [R|] eqn:HR.
    2:{ unfold mbind, M_bind, bind, this in Hrun1. rewrite HR in Hrun1.
        by injection Hrun1 as <- _. }
    rewrite (bind_this _ _ _ _ HR) in Hrun1.
    destruct (Js.strict_eq _ _) eqn:Heq; [by injection Hrun1 as <- _|].
    destruct (Js.toString v) as [s|] eqn:Hs; cbn [deref] in Hrun1.
    2:{ by injection Hrun1 as <- _. }
    pose proof (h_bound _ Hh _ _ HR) as Hb.
    apply bool_decide_eq_false_1 in Heq.
    destruct fuel0 as [|f]; [lia|].
    destruct (assignment_is_announced_once _ _ _ _ _ _ _ _ Hh HR Hs Heq Hrun)
      as [Hfuel _].
    apply Hfuel. lia. }
  exists out, w'. split; [exact Hout|].
  intros fuel Hle. by apply (assign_enough_fuel fuel0).
Qed.

Lemma assignment_outcome_is_settled_witness :
  exists out w',
    out <> OutOfFuel
    /\ forall fuel, 2 * next_id Scenario.AB <= fuel ->
                    assign_state fuel 0 (Js.Str "online") Scenario.AB
                    = (out, w').
Proof.
  apply (assignment_outcome_is_settled Scenario.AB 0 (Js.Str "online")).
  apply hierarchy_AB.
Defined.

(** X2. An assignment that changes the state of a registry of a
    hierarchy stores the normalized name, announces the change once, and
    runs the handler of the new state once and before anything else
    happens: what follows the handler in the trace (the reactions of the
    registries below) contains no further announcement and no further
    handler call of the registry itself. *)
Theorem own_handler_runs_first_and_once fuel w (r : rid) R v s :
  hierarchy w ->
  registries w !! r = Some R ->
  Js.toString v = Some s ->
  Js.Str (get_state R) <> v ->
  2 * next_id w <= fuel ->
  exists out w' rest,
    assign_state fuel r v w = (out, w')
    /\ out <> OutOfFuel
    /\ state_of w' r = Some (normalize s)
    /\ since w w'
       = (Emitted r "state.changed" (topic R "state.changed")
            (state_change (get_state R) (normalize s))
          :: match _states R !! normalize s with
             | Some h => Called r (normalize s) :: warning (normalize s) h
             | None => []
             end ++ rest)%list
    /\ events_of r "state.changed" rest = []
    /\ calls_of r rest = [].
Proof.
  intros Hh HR Hs Hne Hfuel.
  destruct (assign_state fuel r v w) as [out w'] eqn:Hrun.
  pose proof (h_bound _ Hh _ _ HR) as Hb.
  destruct fuel as [|f]; [lia|].
  destruct (assignment_is_announced_once _ _ _ _ _ _ _ _ Hh HR Hs Hne Hrun)
    as (Hout & HR' & _).
  unfold assign_state in Hrun.
  rewrite (set_state_other _ _ _ _ _ _ HR Hs Hne) in Hrun.
  pose proof (lookup_enter_eq _ _ _ (normalize s) HR) as HR1.
  assert (hierarchy (enter r (normalize s) w)) as Hh1
      by (eapply hierarchy_evolves; [exact Hh | apply evolves_enter]).
  destruct (cascade_holds _ _ _ _ _ _ _ Hh1 HR1 Hrun)
    as (_ & rest & Htr & Hframe).
  destruct (Hframe r _ HR1) as [_ Hsil].
  { intros q Hq. by apply (h_younger _ Hh r R). }
  exists out, w', rest. split; [reflexivity|].
  split; [by apply Hout|].
  split; [unfold state_of; by rewrite HR'|].
  split.
  - rewrite (since_app w w' _ Htr). cbn [heading app].
    rewrite handler_name_state_change. f_equal. f_equal.
    change (_states (with_state _ R)) with (_states R).
    by destruct (_states R !! normalize s).
  - split; [by apply events_of_silent | by apply calls_of_silent].
Qed.

Lemma own_handler_runs_first_and_once_witness :
  exists out w' rest,
    assign_state 4 0 (Js.Str " Online ") Scenario.AB = (out, w')
    /\ out <> OutOfFuel
    /\ state_of w' 0 = Some "online"
    /\ since Scenario.AB w'
       = (Emitted 0 "state.changed" "app.state.changed"
            (state_change "offline" "online")
          :: Called 0 "online" :: rest)%list
    /\ events_of 0 "state.changed" rest = []
    /\ calls_of 0 rest = [].
Proof.
  apply (own_handler_runs_first_and_once 4 Scenario.AB 0
           (Scenario.registry Scenario.AB 0) (Js.Str " Online ") " Online ").
  - apply hierarchy_AB.
  - vm_compute. reflexivity.
  - reflexivity.
  - vm_compute. discriminate.
  - vm_compute. lia.
Defined.



(** X4. An assignment works downwards only. In a hierarchy, assigning
    the state of a registry [x] leaves every other registry whose parent
    (if it has one) is older than [x] exactly as it was, and announces
    no change and runs no handler in its name; the parent of [x], the
    registries above it, its siblings and every registry without a
    parent are of that kind. *)
Theorem assignment_works_downwards_only fuel w (x y : rid) Y v :
  hierarchy w ->
  registries w !! y = Some Y ->
  y <> x ->
  (forall p, _parent Y = Some p -> p < x) ->
  registries (assign_state fuel x v w).2 !! y = Some Y
  /\ events_of y "state.changed" (since w (assign_state fuel x v w).2) = []
  /\ calls_of y (since w (assign_state fuel x v w).2) = [].
Proof.
  intros Hh HY Hne Hyp.
  destruct (assign_state fuel x v w) as [out w'] eqn:Hrun.
  apply untouched_observed; [|exact HY].
  by eapply assign_untouched.
Qed.

Lemma assignment_works_downwards_only_witness :
  registries (assign_state 8 1 (Js.Str "active") Scenario.AB).2 !! 0
  = Some (Scenario.registry Scenario.AB 0)
  /\ events_of 0 "state.changed"
       (since Scenario.AB (assign_state 8 1 (Js.Str "active") Scenario.AB).2)
     = []
  /\ calls_of 0
       (since Scenario.AB (assign_state 8 1 (Js.Str "active") Scenario.AB).2)
     = [].
Proof.
  apply (assignment_works_downwards_only 8 Scenario.AB 1 0).
  - apply hierarchy_AB.
  - vm_compute. reflexivity.
  - lia.
  - intros p Hp. vm_compute in Hp. discriminate.
Defined.


(** X6. Assigning [null] or [undefined] raises a TypeError before
    anything is written: the registry keeps its state and nothing is
    announced. *)
Theorem assigning_null_changes_nothing fuel w (r : rid) R v :
  registries w !! r = Some R ->
  Js.nullish v = true ->
  assign_state fuel r v w
  = (Throw (TypeError "Cannot read property 'toString'"), w).
Proof.
  intros HR Hv. unfold assign_state, set_state.
  rewrite (bind_this _ _ _ _ HR).
  unfold Js.strict_eq. rewrite bool_decide_eq_false_2.
  - unfold Js.toString. by rewrite Hv.
  - intros <-. done.
Qed.

Lemma assigning_null_changes_nothing_witness :
  assign_state 8 0 Js.Null Scenario.AB
  = (Throw (TypeError "Cannot read property 'toString'"), Scenario.AB).
Proof.
  apply (assigning_null_changes_nothing 8 Scenario.AB 0
           (Scenario.registry Scenario.AB 0) Js.Null).
  - vm_compute. reflexivity.
  - reflexivity.
Defined.

(** X7. Assigning a normalized name twice is the same as assigning it
    once: whatever the first assignment did, and however it ended, the
    registry then holds that name and the second assignment returns at
    once, with no announcement and no handler call. *)
Theorem repeated_assignment_is_idle fuel fuel' w (r : rid) R s :
  hierarchy w ->
  registries w !! r = Some R ->
  normalize s = s ->
  let w1 := (assign_state fuel r (Js.Str s) w).2 in
  state_of w1 r = Some s
  /\ assign_state fuel' r (Js.Str s) w1 = (Normal tt, w1).
Proof.
  intros Hh HR Hs w1. subst w1.
  destruct (assign_state fuel r (Js.Str s) w) as [out w1] eqn:Hrun.
  cbn [snd].
  assert (exists R1, registries w1 !! r = Some R1 /\ get_state R1 = s)
    as (R1 & HR1 & Hst).
  { destruct (decide (Js.Str (get_state R) = Js.Str s)) as [Heq|Hne].
    - rewrite <- Heq in Hrun.
      rewrite (assign_current_state_is_noop _ _ _ _ HR) in Hrun.
      injection Hrun as _ <-. exists R. split; [done | congruence].
    - destruct fuel as [|f].
      + unfold assign_state in Hrun.
        rewrite (set_state_other _ _ _ _ (Js.Str s) s HR eq_refl Hne) in Hrun.
        injection Hrun as _ <-. eexists. split.
        * by apply lookup_enter_eq.
        * by rewrite Hs.
      + destruct (assignment_is_announced_once _ _ _ _ (Js.Str s) s _ _ Hh
                    HR eq_refl Hne Hrun) as (_ & HR1 & _).
        eexists. split; [exact HR1 | by rewrite Hs]. }
  split; [unfold state_of; by rewrite HR1; cbn; rewrite Hst|].
  rewrite <- Hst. by apply assign_current_state_is_noop.
Qed.

Lemma repeated_assignment_is_idle_witness :
  state_of (assign_state 8 0 (Js.Str "online") Scenario.AB).2 0
  = Some "online"
  /\ assign_state 8 0 (Js.Str "online")
       (assign_state 8 0 (Js.Str "online") Scenario.AB).2
     = (Normal tt, (assign_state 8 0 (Js.Str "online") Scenario.AB).2).
Proof.
  apply (repeated_assignment_is_idle 8 8 Scenario.AB 0
           (Scenario.registry Scenario.AB 0) "online").
  - apply hierarchy_AB.
  - vm_compute. reflexivity.
  - reflexivity.
Defined.

(** ** Reactions of a child *)

(** X8. A child follows its parent only where its reaction table says
    so. When the table has no entry for the (normalized) state assigned
    to the parent, the child is left exactly as it was, whatever else
    the assignment sets off and however it ends: the child announces no
    change and none of its handlers runs. *)
Theorem child_without_reaction_stays fuel w (p c : rid) P C v :
  hierarchy w ->
  registries w !! p = Some P ->
  registries w !! c = Some C ->
  _parent C = Some p ->
  (forall s, Js.toString v = Some s ->
             get_reactions C !! normalize s = None) ->
  registries (assign_state fuel p v w).2 !! c = Some C
  /\ events_of c "state.changed" (since w (assign_state fuel p v w).2) = []
  /\ calls_of c (since w (assign_state fuel p v w).2) = [].
Proof.
  intros Hh HP HC Hpar Hnone.
  destruct (assign_state fuel p v w) as [out w'] eqn:Hrun.
  apply untouched_observed; [|exact HC].
  exact (child_without_reaction_untouched _ _ _ _ _ _ _ _ _ Hh HP HC Hpar
           Hnone Hrun).
Qed.

Lemma child_without_reaction_stays_witness :
  registries (assign_state 8 0 (Js.Str "default") Scenario.AB).2 !! 1
  = Some (Scenario.registry Scenario.AB 1)
  /\ events_of 1 "state.changed"
       (since Scenario.AB (assign_state 8 0 (Js.Str "default") Scenario.AB).2)
     = []
  /\ calls_of 1
       (since Scenario.AB (assign_state 8 0 (Js.Str "default") Scenario.AB).2)
     = [].
Proof.
  apply (child_without_reaction_stays 8 Scenario.AB 0 1
           (Scenario.registry Scenario.AB 0)
           (Scenario.registry Scenario.AB 1) (Js.Str "default")).
  - apply hierarchy_AB.
  - vm_compute. reflexivity.
  - vm_compute. reflexivity.
  - reflexivity.
  - intros s [= <-]. vm_compute. reflexivity.
Defined.




Lemma createReaction_run w (r : rid) R q table source target :
  registries w !! r = Some R ->
  _parent R = Some q ->
  _reactions R = Some table ->
  createReaction r source target w
  = (Normal tt,
     with_registries
       (alter (with_reactions (Some (<[source := target]> table))) r
          (registries w)) w).
Proof.
  intros HR Hq Htable. unfold createReaction.
  rewrite (bind_this _ _ _ _ HR), Hq, Htable. reflexivity.
Qed.

(** X10. A reaction added by [createReaction] takes effect at once. On
    a child that has a parent and a reaction table, after
    [createReaction(n, t)] an assignment to the parent of a value that
    normalizes to [n], changes the parent's state and completes, leaves
    the child in the normalized [t], with one announcement of the change
    on the child (none when the child is in [t] already). *)
Theorem created_reaction_takes_effect fuel w (p c : rid) P C table v s t w' :
  hierarchy w ->
  registries w !! p = Some P ->
  registries w !! c = Some C ->
  _parent C = Some p ->
  _reactions C = Some table ->
  normalize (get_state C) = get_state C ->
  Js.toString v = Some s ->
  Js.Str (get_state P) <> v ->
  assign_state fuel p v (createReaction c (normalize s) t w).2
  = (Normal tt, w') ->
  state_of w' c = Some (normalize t)
  /\ events_of c "state.changed" (since w w')
     = if decide (get_state C = t) then []
       else [state_change (get_state C) (normalize t)].
Proof.
  intros Hh HP HC Hpar Htable Hnorm Hs Hne Hrun.
  pose proof (h_younger _ Hh _ _ _ HC Hpar) as Hpc.
  assert (c <> p) as Hne_cp by (intros Heq; rewrite Heq in Hpc; lia).
  rewrite (createReaction_run _ _ _ _ _ _ _ HC Hpar Htable) in Hrun.
  cbn [snd] in Hrun.
  set (re := Some (<[normalize s := t]> table)) in *.
  set (w1 := with_registries _ w) in *.
  assert (registries w1 !! c = Some (with_reactions re C)) as HC1
      by (cbn; by rewrite lookup_alter_eq, HC).
  assert (registries w1 !! p = Some P) as HP1
      by (cbn; by rewrite lookup_alter_ne).
  assert (hierarchy w1) as Hh1 by (by apply hierarchy_reactions).
  destruct (parent_drives_child fuel w1 p c P (with_reactions re C) v s t w'
              Hh1 HP1 HC1 Hpar Hs Hne) as [HC' Hev]; [|exact Hrun|].
  { unfold get_reactions, re. cbn. apply lookup_insert_eq. }
  change (get_state (with_reactions re C)) with (get_state C) in *.
  split.
  - unfold state_of. rewrite HC'.
    destruct (decide (get_state C = t)) as [<-|_]; cbn; [|done].
    by rewrite Hnorm.
  - exact Hev.
Qed.

Lemma created_reaction_takes_effect_witness :
  exists w',
    assign_state 8 0 (Js.Str "Default")
      (createReaction 1 "default" "active" Scenario.AB).2
    = (Normal tt, w')
    /\ state_of w' 1 = Some "active"
    /\ events_of 1 "state.changed" (since Scenario.AB w')
       = [state_change "default" "active"].
Proof.
  eexists. split; [vm_compute; reflexivity|].
  apply (created_reaction_takes_effect 8 Scenario.AB 0 1
           (Scenario.registry Scenario.AB 0)
           (Scenario.registry Scenario.AB 1)
           {[ "online" := "active" ]} (Js.Str "Default") "Default" "active").
  - apply hierarchy_AB.
  - vm_compute. reflexivity.
  - vm_compute. reflexivity.
  - reflexivity.
  - vm_compute. reflexivity.
  - vm_compute. reflexivity.
  - reflexivity.
  - vm_compute. discriminate.
  - vm_compute. reflexivity.
Defined.

(** ** The reaction table *)






(** ** The constructor *)

Lemma instance_id i sel cfg : id (instance i sel cfg) = i.
Proof.
  unfold instance, initialise_properties, assure_default.
  destruct (managesState _ _); by destruct (propertyFields _).
Qed.


(** X13. Construction is all or nothing. For whatever it is called with,
    [new NGNX.ViewRegistry2(...)] either throws and leaves the page, the
    registries, the subscriptions, the references, the deferred tasks
    and the trace exactly as they were, or completes with the next id
    and adds one registry under that id, in state "default": nothing is
    emitted during construction, existing subscriptions and tasks are
    kept in place, and at most one task is deferred. *)
Theorem construction_is_all_or_nothing arg w :
  (exists e arg', ViewRegistry2 arg w = (Throw e, arg', w))
  \/ (exists arg' w' R,
        ViewRegistry2 arg w = (Normal (next_id w), arg', w')
        /\ registries w' = <[next_id w := R]> (registries w)
        /\ id R = next_id w
        /\ _state R = Some "default"
        /\ trace w' = trace w
        /\ document w' = document w
        /\ next_id w' = S (next_id w)
        /\ (exists more, bus w' = (bus w ++ more)%list)
        /\ (queue w' = queue w
            \/ queue w' = (queue w ++ [ApplyInitialState (next_id w)])%list)).
Proof.
  destruct arg as [|type_of|cfg].
  - left. by eexists _, _.
  - left. by eexists _, _.
  - destruct (prepare w cfg) as [cfg' [e|]] eqn:Hprep.
    + left. exists e, (Object cfg'). by rewrite ViewRegistry2_object, Hprep.
    + right. destruct (prepare_passes _ _ _ Hprep) as [sel Hp].
      destruct (construction_completes _ _ _ _ Hprep Hp)
        as (w' & watch & Hrun & Hregs & Hbus & _ & Hq & Htr & Hdoc & Hn).
      eexists _, w', _. split; [exact Hrun|]. split; [exact Hregs|].
      split; [apply instance_id|]. split; [apply instance_state|].
      split; [exact Htr|]. split; [exact Hdoc|]. split; [exact Hn|].
      split; [by eexists|].
      rewrite Hq. destruct (wants_initial_state _); [by right|].
      left. by rewrite app_nil_r.
Qed.

(** X14. Construction from a configuration object succeeds exactly when
    the object has a [selector], its parent (if it has one) resolves on
    the page, and the selector, scoped under the parent's, resolves as
    well. *)
Theorem construction_succeeds_iff w cfg :
  parent_is_registry w cfg ->
  (exists r cfg' w', ViewRegistry2 (Object cfg) w = (Normal r, Object cfg', w'))
  <-> exists sel,
        Cfg.selector cfg = Some sel
        /\ (forall p P, Cfg.parent cfg = Some p ->
                        registries w !! p = Some P ->
                        is_Some (querySelector w (selector P)))
        /\ is_Some (querySelector w (effective_selector w cfg sel)).
Proof.
  intros Hpar. split.
  - intros (r & cfg' & w' & Hrun). rewrite ViewRegistry2_object in Hrun.
    destruct (prepare w cfg) as [cfg1 [e|]] eqn:Hprep; [done|].
    destruct (prepare_passes _ _ _ Hprep) as [sel Hp].
    exists sel. split; [apply (pr_selector _ _ _ _ Hp)|].
    split; [apply (pr_parent_resolves _ _ _ _ Hp)|].
    apply (pr_resolves _ _ _ _ Hp).
  - intros (sel & Hsel & Hparent & Hres).
    destruct (prepare w cfg) as [cfg' [e|]] eqn:Hprep.
    + exfalso.
      destruct (prepare_fails _ _ _ _ _ Hprep Hsel Hpar)
        as [(_ & p & P & Hp & HP & Hq)|(_ & Hq & _)].
      * destruct (Hparent p P Hp HP) as [el Hel]. congruence.
      * destruct Hres as [el Hel]. congruence.
    + destruct (prepare_passes _ _ _ Hprep) as [sel' Hp].
      destruct (construction_completes _ _ _ _ Hprep Hp)
        as (w' & watch & Hrun & _).
      by eexists _, _, _.
Qed.

Lemma construction_succeeds_iff_witness :
  exists r cfg' w',
    ViewRegistry2 (Object (Scenario.B_cfg "active")) Scenario.A_offline
    = (Normal r, Object cfg', w').
Proof.
  apply (construction_succeeds_iff Scenario.A_offline
           (Scenario.B_cfg "active")).
  - intros p [= <-]. vm_compute. by eexists.
  - exists ".panel". split; [reflexivity|]. split.
    + intros p P [= <-] HP. vm_compute in HP. injection HP as <-.
      vm_compute. by eexists.
    + vm_compute. by eexists.
Defined.



(** The reference table after [initialise]: the named references of the
    configuration, then the self reference. *)
Lemma initialise_refs sel cfg w :
  parent_is_registry w cfg ->
  refs (initialise sel cfg w).2
  = (refs w
     ++ ((fun entry => (NamedRef entry.1, entry.2))
           <$> map_to_list (default ∅ (Cfg.references cfg)))
     ++ [(SelfRef (next_id w), sel)])%list.
Proof.
  intros Hpar. unfold initialise, Driver.
  unfold mbind at 1, M_bind at 1, bind at 1. cbn beta iota.
  fold (instance (next_id w) sel cfg).
  rewrite instance_parent.
  unfold ref_create, store. unfold mbind at 1, M_bind at 1, bind at 1.
  cbn beta iota. unfold mbind at 1, M_bind at 1, bind at 1. cbn beta iota.
  rewrite instance_id.
  set (R := instance (next_id w) sel cfg) in *.
  destruct (Cfg.parent cfg) as [p|] eqn:Hcp.
  - destruct (Hpar p Hcp) as [P HP].
    assert (exists P', <[next_id w := R]> (registries w) !! p = Some P')
      as [P' HP'].
    { destruct (decide (next_id w = p)) as [->|Hne].
      - exists R. by rewrite lookup_insert_eq.
      - exists P. by rewrite lookup_insert_ne. }
    unfold mbind, M_bind, bind, this, on, requeue, ret. cbn.
    rewrite HP'. cbn.
    destruct (wants_initial_state R); cbn; by rewrite <- app_assoc.
  - unfold mbind, M_bind, bind, this, on, requeue, ret. cbn.
    destruct (wants_initial_state R); cbn; by rewrite <- app_assoc.
Qed.

Lemma registered_last k sel table :
  registered k (table ++ [(k, sel)]) = Some sel.
Proof.
  induction table as [|[k' sel'] table IH]; cbn.
  - by rewrite decide_True.
  - by rewrite IH.
Qed.

Lemma registered_app_other k table more :
  (forall sel, (k, sel) ∉ more) ->
  registered k (table ++ more) = registered k table.
Proof.
  intros Hnot.
  assert (registered k more = None) as Hmore.
  { induction more as [|[k' sel'] more IH]; [done|]. cbn.
    rewrite IH.
    - rewrite decide_False; [done|]. intros ->. apply (Hnot sel'). by left.
    - intros sel Hin. apply (Hnot sel). by right. }
  induction table as [|[k' sel'] table IH]; cbn; [exact Hmore|].
  by rewrite IH.
Qed.

Lemma prepare_references w cfg cfg' sel :
  prepare w cfg = (cfg', None) ->
  Cfg.selector cfg = Some sel ->
  Cfg.references cfg'
  = match Cfg.references cfg with
    | Some table =>
        Some ((fun target => effective_selector w cfg sel ++ " " ++ target)
                <$> table)
    | None => None
    end.
Proof.
  unfold prepare. intros H Hsel. rewrite Hsel in H.
  unfold effective_selector.
  destruct (Cfg.parent cfg) as [p|] eqn:Hp.
  - unfold inherit in H. destruct (registries w !! p) as [P|] eqn:HP; [|done].
    destruct (querySelector w (selector P)) as [el|] eqn:Hq; [|done].
    destruct cfg as [csel cpar cns cref cprop cst ci1 ci2 cre].
    cbn in Hsel, Hp. subst csel cpar. cbn in H.
    destruct cns as [ns|]; [destruct (scope P) as [ps|] eqn:Hps
                           |destruct (truthy (scope P)) eqn:Htr];
      cbn in H;
      (destruct (querySelector w (selector P ++ " " ++ sel)) as [el'|] eqn:Hq';
       [|done]);
      injection H as <-; by destruct cref.
  - rewrite Hsel in H. cbn in H.
    destruct (querySelector w sel) as [el|] eqn:Hq; [|done].
    injection H as <-. unfold scope_references.
    destruct (Cfg.references cfg) eqn:Href; [done|]. by rewrite Href.
Qed.

(** X16. The references of a configuration are written relative to the
    registry: on a successful construction each configured reference
    target has been prefixed, in the configuration object itself, with
    the selector the registry ends up with (the one scoped under the
    parent, when there is a parent), and the last reference created is
    the one to the registry's own element: the registry's id with that
    same selector. *)
Theorem references_are_scoped_by_the_selector w cfg r cfg' w' R :
  ViewRegistry2 (Object cfg) w = (Normal r, Object cfg', w') ->
  registries w' !! r = Some R ->
  Cfg.references cfg'
  = match Cfg.references cfg with
    | Some table =>
        Some ((fun target => selector R ++ " " ++ target) <$> table)
    | None => None
    end
  /\ exists earlier,
       refs w' = (earlier ++ [(SelfRef r, selector R)])%list.
Proof.
  intros Hrun HR. rewrite ViewRegistry2_object in Hrun.
  destruct (prepare w cfg) as [cfg1 [e|]] eqn:Hprep; [done|].
  destruct (prepare_passes _ _ _ Hprep) as [sel Hp].
  destruct (construction_completes _ _ _ _ Hprep Hp)
    as (w1 & watch & Hrun1 & Hregs & _).
  rewrite ViewRegistry2_object, Hprep in Hrun1.
  pose proof Hrun1 as Hrun2.
  rewrite Hrun1 in Hrun. injection Hrun as <- <- <-.
  rewrite Hregs, lookup_insert_eq in HR. injection HR as <-.
  rewrite instance_selector. split.
  - apply prepare_references; [exact Hprep | apply (pr_selector _ _ _ _ Hp)].
  - injection Hrun2 as _ <-.
    rewrite (pr_effective _ _ _ _ Hp).
    change (default "" (Some (effective_selector w cfg sel)))
      with (effective_selector w cfg sel).
    rewrite initialise_refs by apply (prepared_parent_ok _ _ _ _ Hp).
    rewrite app_assoc. by eexists.
Qed.

Lemma references_are_scoped_by_the_selector_witness :
  Cfg.references (Demo.cfg_after Demo.titled)
  = Some {[ "title" := "#app .panel h1" ]}
  /\ exists earlier,
       refs Demo.titled.2 = (earlier ++ [(SelfRef 1, "#app .panel")])%list.
Proof.
  destruct (references_are_scoped_by_the_selector Scenario.A_offline
              Demo.titled_cfg 1 (Demo.cfg_after Demo.titled) Demo.titled.2
              (Scenario.registry Demo.titled.2 1))
    as [Hrefs Hself].
  - vm_compute. reflexivity.
  - vm_compute. reflexivity.
  - split; [|exact Hself]. rewrite Hrefs. vm_compute. reflexivity.
Defined.

(** X17. The constructor writes the scoped selector back into the
    configuration object, so an object that is used a second time under
    the same parent is scoped a second time: the second registry gets
    the parent's selector twice in front of the configured one, and the
    construction is refused when that selector matches nothing. *)
Theorem reused_configuration_is_scoped_twice w cfg (p : rid) P sel r cfg' w' :
  Cfg.selector cfg = Some sel ->
  Cfg.parent cfg = Some p ->
  registries w !! p = Some P ->
  p <> next_id w ->
  ViewRegistry2 (Object cfg) w = (Normal r, Object cfg', w') ->
  let twice := selector P ++ " " ++ (selector P ++ " " ++ sel) in
  Cfg.selector cfg' = Some (selector P ++ " " ++ sel)
  /\ (forall r2 cfg2 w2,
        ViewRegistry2 (Object cfg') w' = (Normal r2, Object cfg2, w2) ->
        exists R2, registries w2 !! r2 = Some R2 /\ selector R2 = twice)
  /\ (querySelector w twice = None ->
      exists cfg2,
        ViewRegistry2 (Object cfg') w'
        = (Throw (Error ("Could not find valid DOM element for '"
                           ++ twice ++ "'")), Object cfg2, w')).
Proof.
  intros Hsel Hpar HP Hne Hrun twice. rewrite ViewRegistry2_object in Hrun.
  destruct (prepare w cfg) as [cfg1 [e|]] eqn:Hprep; [done|].
  destruct (prepare_passes _ _ _ Hprep) as [sel0 Hp].
  destruct (construction_completes _ _ _ _ Hprep Hp)
    as (w1 & watch & Hrun1 & Hregs & _ & _ & _ & _ & Hdoc & _).
  rewrite ViewRegistry2_object, Hprep in Hrun1.
  rewrite Hrun1 in Hrun. injection Hrun as <- <- <-.
  pose proof (pr_selector _ _ _ _ Hp) as Hsel0.
  rewrite Hsel in Hsel0. injection Hsel0 as <-.
  assert (effective_selector w cfg sel = selector P ++ " " ++ sel) as Heff
      by (unfold effective_selector; by rewrite Hpar, HP).
  pose proof (pr_effective _ _ _ _ Hp) as Hsel1. rewrite Heff in Hsel1.
  pose proof (pr_parent _ _ _ _ Hp) as Hpar1. rewrite Hpar in Hpar1.
  assert (registries w1 !! p = Some P) as HP1
      by (rewrite Hregs; by rewrite lookup_insert_ne).
  assert (effective_selector w1 cfg1 (selector P ++ " " ++ sel) = twice)
    as Heff1 by (unfold effective_selector; by rewrite Hpar1, HP1).
  assert (forall s, querySelector w1 s = querySelector w s) as Hquery
      by (intros s; unfold querySelector, querySelectorAll; by rewrite Hdoc).
  assert (parent_is_registry w1 cfg1) as Hreg1.
  { intros q Hq. rewrite Hpar1 in Hq. injection Hq as <-. by eexists. }
  split; [exact Hsel1|]. split.
  - intros r2 cfg2 w2 Hrun2. rewrite ViewRegistry2_object in Hrun2.
    destruct (prepare w1 cfg1) as [cfg2' [e|]] eqn:Hprep2; [done|].
    destruct (prepare_passes _ _ _ Hprep2) as [sel1 Hp2].
    destruct (construction_completes _ _ _ _ Hprep2 Hp2)
      as (w2' & watch2 & Hrun2' & Hregs2 & _).
    rewrite ViewRegistry2_object, Hprep2 in Hrun2'.
    rewrite Hrun2' in Hrun2. injection Hrun2 as <- <- <-.
    pose proof (pr_selector _ _ _ _ Hp2) as Hs. rewrite Hsel1 in Hs.
    injection Hs as <-.
    eexists. split; [by rewrite Hregs2, lookup_insert_eq|].
    by rewrite instance_selector.
  - intros Hnone. rewrite ViewRegistry2_object.
    destruct (prepare w1 cfg1) as [cfg2 [e|]] eqn:Hprep2.
    + exists cfg2.
      destruct (prepare_fails _ _ _ _ _ Hprep2 Hsel1 Hreg1)
        as [(_ & q & Q & Hq & HQ & Hgone)|(-> & _)].
      * rewrite Hpar1 in Hq. injection Hq as <-.
        rewrite HP1 in HQ. injection HQ as <-.
        destruct (pr_parent_resolves _ _ _ _ Hp p P Hpar HP) as [el Hel].
        rewrite Hquery in Hgone. congruence.
      * by rewrite Heff1.
    + destruct (prepare_passes _ _ _ Hprep2) as [sel1 Hp2].
      pose proof (pr_selector _ _ _ _ Hp2) as Hs. rewrite Hsel1 in Hs.
      injection Hs as <-.
      destruct (pr_resolves _ _ _ _ Hp2) as [el Hel].
      rewrite Heff1, Hquery in Hel. congruence.
Qed.

Lemma reused_configuration_is_scoped_twice_witness :
  Demo.first_use.1.1 = Normal 1
  /\ Cfg.selector (Demo.cfg_after Demo.first_use) = Some "#app .panel"
  /\ exists cfg2,
       Demo.second_use
       = (Throw (Error "Could not find valid DOM element for '#app #app .panel'"),
          Object cfg2, Demo.first_use.2).
Proof.
  split; [vm_compute; reflexivity|].
  destruct (reused_configuration_is_scoped_twice Scenario.A_offline
              (Scenario.B_cfg "active") 0
              (Scenario.registry Scenario.A_offline 0) ".panel" 1
              (Demo.cfg_after Demo.first_use) Demo.first_use.2)
    as (Hsel & _ & Hfail).
  - reflexivity.
  - reflexivity.
  - vm_compute. reflexivity.
  - vm_compute. lia.
  - vm_compute. reflexivity.
  - split; [exact Hsel|]. apply Hfail. vm_compute. reflexivity.
Defined.

(** X18. The constructor builds hierarchies. When a registry is built in
    a hierarchy on topics nobody uses yet, the result is a hierarchy
    again; the new registry's own [state.changed] topic carries its
    dispatch listener and nothing else, its [parent.state.changed] topic
    carries its reaction listener, and on the parent's [state.changed]
    topic the forwarding listener of the new registry is appended after
    the listeners that were there: children are told in the order in
    which they were built, after the parent's own handler has run. *)
Theorem constructor_builds_hierarchies w cfg (r : rid) cfg' w1 R :
  hierarchy w ->
  ViewRegistry2 (Object cfg) w = (Normal r, Object cfg', w1) ->
  registries w1 !! r = Some R ->
  subscribers (topic R "state.changed") w = [] ->
  subscribers (topic R "parent.state.changed") w = [] ->
  hierarchy w1
  /\ subscribers (topic R "state.changed") w1 = [Dispatch r]
  /\ subscribers (topic R "parent.state.changed") w1 = [React r]
  /\ forall p P,
       _parent R = Some p -> registries w !! p = Some P ->
       subscribers (topic P "state.changed") w1
       = (subscribers (topic P "state.changed") w ++ [ForwardState r])%list.
Proof.
  intros Hh Hrun HR Hfree_s Hfree_p.
  pose proof (hierarchy_after_construction _ _ _ _ _ _ Hh Hrun HR Hfree_s
                Hfree_p) as Hh1.
  split; [exact Hh1|].
  rewrite ViewRegistry2_object in Hrun.
  destruct (prepare w cfg) as [cfg1 [e|]] eqn:Hprep; [done|].
  destruct (prepare_passes _ _ _ Hprep) as [sel Hp].
  destruct (construction_completes _ _ _ _ Hprep Hp)
    as (w1' & watch & Hrun1 & Hregs & Hbus & Hwatch & _ & _ & _ & Hnext).
  rewrite ViewRegistry2_object, Hprep in Hrun1.
  rewrite Hrun1 in Hrun. injection Hrun as <- <- <-.
  pose proof HR as HR'.
  rewrite Hregs, lookup_insert_eq in HR'. injection HR' as HR'.
  rewrite HR' in Hbus, Hwatch.
  split.
  { destruct (h_state_topic _ Hh1 _ _ HR) as (kids & -> & _ & Hkids).
    destruct kids as [|k kids]; [done|]. exfalso.
    destruct (proj1 (Hkids k) ltac:(by left)) as (K & HK & HKp).
    pose proof (h_younger _ Hh1 _ _ _ HK HKp).
    pose proof (h_bound _ Hh1 _ _ HK). lia. }
  split; [by apply (h_reaction_topic _ Hh1)|].
  intros p P HRp HP.
  assert (_parent R = Cfg.parent cfg1) as HRp'
      by (rewrite <- HR'; apply instance_parent).
  rewrite HRp in HRp'.
  destruct Hwatch as [[Hnone _]|(q & Q & Hq & HQ & ->)]; [congruence|].
  rewrite Hq in HRp'. injection HRp' as <-.
  assert (p <> next_id w) as Hne.
  { intros ->. pose proof (h_bound _ Hh _ _ HP). lia. }
  rewrite lookup_insert_ne in HQ by done.
  rewrite HP in HQ. injection HQ as <-.
  rewrite (subscribers_app _ w _ _ Hbus). f_equal.
  rewrite filter_app, fmap_app.
  destruct (h_state_topic _ Hh _ _ HP) as (kids & Hsub & _).
  unfold parent_subscriptions, own_subscriptions.
  rewrite filter_cons_True by done.
  rewrite filter_cons_False by apply property_topic_is_no_state_topic.
  rewrite filter_nil.
  rewrite filter_cons_False.
  2:{ cbn. intros Heq. rewrite Heq in Hfree_p. congruence. }
  rewrite filter_cons_False.
  2:{ cbn. intros Heq. rewrite Heq in Hfree_s. congruence. }
  done.
Qed.

Lemma constructor_builds_hierarchies_witness :
  hierarchy Scenario.AB
  /\ subscribers "app.state.changed" Scenario.AB
     = [Dispatch 0; ForwardState 1].
Proof.
  destruct (constructor_builds_hierarchies Scenario.A_offline
              (Scenario.B_cfg "active") 1 (Demo.cfg_after Demo.first_use)
              Scenario.AB (Scenario.registry Scenario.AB 1))
    as (Hh & _ & _ & Hparent).
  - apply hierarchy_A_offline.
  - vm_compute. reflexivity.
  - vm_compute. reflexivity.
  - vm_compute. reflexivity.
  - vm_compute. reflexivity.
  - split; [exact Hh|].
    apply (Hparent 0 (Scenario.registry Scenario.A_offline 0)).
    + reflexivity.
    + vm_compute. reflexivity.
Defined.

(** ** What holds in every world a program can reach *)

Lemma sound_page doc : sound (page doc).
Proof.
  split; try (intros r R HR; cbn in HR; by rewrite lookup_empty in HR).
  - intros r R p HR. cbn in HR. by rewrite lookup_empty in HR.
  - intros r Hin. cbn in Hin. by apply elem_of_nil in Hin.
Qed.

Lemma same_identity_refl R : same_identity R R.
Proof. by repeat split. Qed.

(** Soundness carries over to a world with the same page, references and
    ids, no new deferred task, and registries of the same identity whose
    states are normalized. *)
Lemma sound_similar w w' :
  sound w ->
  document w' = document w ->
  refs w' = refs w ->
  next_id w' = next_id w ->
  (forall t, t ∈ queue w' -> t ∈ queue w) ->
  (forall r R', registries w' !! r = Some R' ->
     normalize (get_state R') = get_state R'
     /\ exists R, registries w !! r = Some R /\ same_identity R R') ->
  (forall r R, registries w !! r = Some R ->
     exists R', registries w' !! r = Some R') ->
  sound w'.
Proof.
  intros Hs Hdoc Hrefs Hnext Hq Hback Hforth.
  assert (forall s, querySelector w' s = querySelector w s) as Hquery
      by (intros s; unfold querySelector, querySelectorAll; by rewrite Hdoc).
  split.
  - intros r R' HR'.
    destruct (Hback r R' HR') as (_ & R & HR & Hid & _).
    rewrite Hid. by apply (s_id _ Hs).
  - intros r R' HR'. destruct (Hback r R' HR') as (_ & R & HR & _).
    rewrite Hnext. by apply (s_bound _ Hs r R).
  - intros r R' HR'.
    destruct (Hback r R' HR') as (_ & R & HR & _ & _ & _ & _ & Hst & _).
    unfold managesState. rewrite Hst. by apply (s_default _ Hs r R).
  - intros r R' HR'. by destruct (Hback r R' HR') as [Hn _].
  - intros r R' p HR' Hp.
    destruct (Hback r R' HR') as (_ & R & HR & _ & Hsc & Hsel & Hpar & _).
    rewrite Hpar in Hp.
    destruct (s_parent _ Hs r R p HR Hp) as (Hlt & P & sel & ns & HP & H1 & H2).
    split; [exact Hlt|].
    destruct (Hforth p P HP) as [P' HP'].
    destruct (Hback p P' HP') as (_ & P0 & HP0 & _ & Hsc' & Hsel' & _).
    rewrite HP in HP0. injection HP0 as <-.
    exists P', sel, ns. split; [exact HP'|].
    rewrite Hsel, Hsel', Hsc, Hsc'. by split.
  - intros r R' HR'.
    destruct (Hback r R' HR') as (_ & R & HR & _ & _ & Hsel & _).
    rewrite Hrefs, Hsel, Hquery. by apply (s_self _ Hs).
  - intros r Hin. apply Hq in Hin.
    destruct (s_queue _ Hs r Hin) as (R & HR & Hne & Hm).
    destruct (Hforth r R HR) as [R' HR'].
    destruct (Hback r R' HR')
      as (_ & R0 & HR0 & _ & _ & _ & _ & Hst & Hin' & _).
    rewrite HR in HR0. injection HR0 as <-.
    exists R'. split; [exact HR'|]. rewrite Hin'. split; [exact Hne|].
    unfold managesState. by rewrite Hst.
  - intros r R' HR'.
    destruct (Hback r R' HR')
      as (_ & R & HR & _ & _ & _ & _ & _ & _ & _ & _ & Hd).
    rewrite Hd. by apply (s_display _ Hs r).
Qed.

Lemma sound_evolves w w' : sound w -> evolves w w' -> sound w'.
Proof.
  intros Hs Hev.
  apply (sound_similar w); try apply Hev; try done.
  - intros t. by rewrite (ev_queue _ _ Hev).
  - intros r R' HR'.
    destruct (evolves_lookup _ _ _ _ Hev HR') as (R & st & HR & ->).
    split.
    + destruct (ev_states _ _ Hev r R _ HR HR') as [Hsame|[s Hnew]].
      * unfold get_state. rewrite Hsame. by apply (s_state _ Hs r).
      * unfold get_state. rewrite Hnew. cbn. apply normalize_idempotent.
    + exists R. split; [exact HR|]. by repeat split.
  - intros r R HR.
    destruct (evolves_lookup_back _ _ _ _ Hev HR) as [st HR'].
    by eexists.
Qed.

Lemma sound_with_trace w t : sound w -> sound (with_trace t w).
Proof.
  intros Hs. apply (sound_similar w); try done.
  - intros r R HR. split; [by apply (s_state _ Hs r)|].
    exists R. split; [done | apply same_identity_refl].
  - intros r R HR. by exists R.
Qed.

Lemma sound_with_queue w q :
  sound w -> (forall t, t ∈ q -> t ∈ queue w) -> sound (with_queue q w).
Proof.
  intros Hs Hq. apply (sound_similar w); try done.
  - intros r R HR. split; [by apply (s_state _ Hs r)|].
    exists R. split; [done | apply same_identity_refl].
  - intros r R HR. by exists R.
Qed.

Lemma sound_reactions w (r : rid) re :
  sound w ->
  sound (with_registries (alter (with_reactions re) r (registries w)) w).
Proof.
  intros Hs. apply (sound_similar w); try done.
  - intros x R' HR'. cbn in HR'.
    destruct (decide (r = x)) as [<-|Hne].
    + rewrite lookup_alter_eq in HR'.
      destruct (registries w !! r) as [R|] eqn:HR; [|done].
      injection HR' as <-. split; [exact (s_state _ Hs r R HR)|].
      exists R. split; [done|]. by repeat split.
    + rewrite lookup_alter_ne in HR' by done.
      split; [by apply (s_state _ Hs x)|].
      exists R'. split; [done | apply same_identity_refl].
  - intros x R HR. cbn. destruct (decide (r = x)) as [<-|Hne].
    + rewrite lookup_alter_eq, HR. by eexists.
    + rewrite lookup_alter_ne by done. by eexists.
Qed.

Lemma sound_emit fuel (r : rid) event payload w :
  sound w -> sound (emit fuel r event payload w).2.
Proof.
  intros Hs. destruct fuel as [|f]; [done|].
  destruct (registries w !! r) as [R|] eqn:HR.
  - rewrite (emit_step _ _ _ _ _ _ HR).
    destruct (for_each _ _ _) as [c w'] eqn:Hrun. cbn [snd].
    eapply sound_evolves; [|eapply for_each_evolves; [|exact Hrun]].
    + by apply sound_with_trace.
    + intros. by eapply emit_evolves.
  - cbn [emit]. unfold mbind, M_bind, bind, this. by rewrite HR.
Qed.

Lemma sound_assign fuel (r : rid) v w :
  sound w -> sound (assign_state fuel r v w).2.
Proof.
  intros Hs. destruct (assign_state fuel r v w) as [c w'] eqn:Hrun.
  eapply sound_evolves; [exact Hs | by eapply assign_evolves].
Qed.

Lemma wants_initial_state_instance i sel cfg :
  wants_initial_state (instance i sel cfg) = true ->
  initialstate (instance i sel cfg) <> "default"
  /\ managesState (instance i sel cfg) (initialstate (instance i sel cfg))
     = true.
Proof.
  unfold wants_initial_state. rewrite instance_state. cbn [value_of_ref].
  intros [Hne Hm]%andb_true_iff. split; [|exact Hm].
  intros Heq. rewrite Heq in Hne. done.
Qed.

Lemma instance_displaystate i sel cfg :
  displaystate (instance i sel cfg) = None.
Proof.
  unfold instance, initialise_properties, assure_default.
  destruct (managesState _ _); by destruct (propertyFields _).
Qed.

Lemma sound_construction arg w : sound w -> sound (ViewRegistry2 arg w).2.
Proof.
  intros Hs. destruct arg as [|type_of|cfg]; [done|done|].
  rewrite ViewRegistry2_object.
  destruct (prepare w cfg) as [cfg' [e|]] eqn:Hprep; [done|].
  cbn [snd].
  destruct (prepare_passes _ _ _ Hprep) as [sel Hp].
  destruct (construction_completes _ _ _ _ Hprep Hp)
    as (w1 & watch & Hrun & Hregs & _ & _ & Hq & _ & Hdoc & Hnext).
  rewrite ViewRegistry2_object, Hprep in Hrun.
  pose proof (initialise_refs (default "" (Cfg.selector cfg')) cfg' w
                (prepared_parent_ok _ _ _ _ Hp)) as Hrefs.
  injection Hrun as _ Hw1. rewrite Hw1 in *. clear Hw1.
  rewrite (pr_effective _ _ _ _ Hp) in Hrefs.
  change (default "" (Some (effective_selector w cfg sel)))
    with (effective_selector w cfg sel) in Hrefs.
  set (i := next_id w) in *.
  set (eff := effective_selector w cfg sel) in *.
  set (R := instance i eff cfg') in *.
  assert (forall s, querySelector w1 s = querySelector w s) as Hquery
      by (intros s; unfold querySelector, querySelectorAll; by rewrite Hdoc).
  assert (forall x X, registries w !! x = Some X -> x <> i) as Hold.
  { intros x X HX ->. pose proof (s_bound _ Hs _ _ HX). subst i. lia. }
  assert (forall x X, registries w !! x = Some X ->
            registries w1 !! x = Some X) as Hkeep.
  { intros x X HX. rewrite Hregs, lookup_insert_ne; [done|].
    intros Heq. by apply (Hold x X). }
  assert (forall x X, registries w1 !! x = Some X ->
            x = i /\ X = R \/ x <> i /\ registries w !! x = Some X) as Hcases.
  { intros x X HX. rewrite Hregs in HX.
    destruct (decide (i = x)) as [<-|Hne].
    - rewrite lookup_insert_eq in HX. injection HX as <-. by left.
    - rewrite lookup_insert_ne in HX by done. right. by split. }
  split.
  - intros x X HX. destruct (Hcases x X HX) as [[-> ->]|[_ HX']].
    + apply instance_id.
    + by apply (s_id _ Hs).
  - intros x X HX. rewrite Hnext.
    destruct (Hcases x X HX) as [[-> ->]|[_ HX']]; [lia|].
    pose proof (s_bound _ Hs _ _ HX'). fold i in H. lia.
  - intros x X HX. destruct (Hcases x X HX) as [[-> ->]|[_ HX']].
    + apply instance_manages. by left.
    + by apply (s_default _ Hs x).
  - intros x X HX. destruct (Hcases x X HX) as [[-> ->]|[_ HX']].
    + unfold get_state, R. by rewrite instance_state.
    + by apply (s_state _ Hs x).
  - intros x X p HX HXp. destruct (Hcases x X HX) as [[-> ->]|[_ HX']].
    + unfold R in HXp. rewrite instance_parent in HXp.
      rewrite (pr_parent _ _ _ _ Hp) in HXp.
      destruct (pr_parent_ok _ _ _ _ Hp p HXp) as [P HP].
      pose proof (s_bound _ Hs _ _ HP) as Hlt. fold i in Hlt.
      split; [exact Hlt|].
      exists P, sel, (default "" (Cfg.namespace cfg)).
      split; [by apply Hkeep|]. split.
      * unfold R. rewrite instance_selector. unfold eff, effective_selector.
        by rewrite HXp, HP.
      * unfold R. rewrite instance_scope, (pr_namespace _ _ _ _ Hp).
        unfold effective_namespace. rewrite HXp, HP.
        apply inherited_namespace_prefix.
    + destruct (s_parent _ Hs x X p HX' HXp)
        as (Hlt & P & s & ns & HP & H1 & H2).
      split; [exact Hlt|]. exists P, s, ns. split; [by apply Hkeep|].
      by split.
  - intros x X HX. rewrite Hrefs, Hquery.
    destruct (Hcases x X HX) as [[-> ->]|[Hne HX']].
    + split.
      * rewrite app_assoc. unfold R. rewrite instance_selector.
        apply registered_last.
      * unfold R. rewrite instance_selector. apply (pr_resolves _ _ _ _ Hp).
    + destruct (s_self _ Hs x X HX') as [Hreg Hres].
      split; [|exact Hres]. rewrite registered_app_other; [exact Hreg|].
      intros s [Hin|Hin]%elem_of_app.
      * apply list_elem_of_fmap in Hin as ([k t] & Heq & _). done.
      * apply list_elem_of_singleton in Hin. injection Hin as -> _. done.
  - intros x Hin. rewrite Hq in Hin. apply elem_of_app in Hin as [Hin|Hin].
    + destruct (s_queue _ Hs x Hin) as (X & HX & Hne & Hm).
      exists X. split; [by apply Hkeep|]. by split.
    + destruct (wants_initial_state R) eqn:Hwant.
      2:{ by apply elem_of_nil in Hin. }
      apply list_elem_of_singleton in Hin. injection Hin as ->.
      exists R. split; [by rewrite Hregs, lookup_insert_eq|].
      by apply wants_initial_state_instance.
  - intros x X HX. destruct (Hcases x X HX) as [[-> ->]|[_ HX']].
    + apply instance_displaystate.
    + by apply (s_display _ Hs x).
Qed.

Lemma sound_step w w' : sound w -> step w w' -> sound w'.
Proof.
  intros Hs Hstep. destruct Hstep.
  - by apply sound_construction.
  - by apply sound_assign.
  - unfold next_turn. destruct (queue w) as [|[r] rest] eqn:Hq; [done|].
    assert (sound (with_queue rest w)) as Hs'.
    { apply sound_with_queue; [done|]. intros t Ht. rewrite Hq. by right. }
    cbn [run_task]. unfold mbind, M_bind, bind, this. cbn.
    destruct (registries w !! r) as [R|]; [|done].
    by apply sound_assign.
  - unfold createReaction, mbind, M_bind, bind, this.
    destruct (registries w !! r) as [R|]; [|done].
    destruct (_parent R).
    + destruct (_reactions R); [|done]. by apply sound_reactions.
    + by apply sound_with_trace.
  - unfold removeReaction, mbind, M_bind, bind, this.
    destruct (registries w !! r) as [R|]; [|done].
    destruct (managesReaction _ _); [|done].
    destruct (_reactions R); [|done]. by apply sound_reactions.
  - by apply sound_reactions.
  - unfold fire, mbind, M_bind, bind, this.
    destruct (registries w !! r) as [R|] eqn:HR; [|done].
    destruct (_properties R) as [model|] eqn:Hm; [|done].
    destruct ev; cbn [property_listener].
    + by apply sound_emit.
    + unfold mbind, M_bind, bind, this. rewrite HR, Hm. cbn.
      by apply sound_emit.
    + by apply sound_emit.
  - unfold get_properties, mbind, M_bind, bind, this.
    destruct (registries w !! r) as [R|]; [|done].
    destruct (_properties R); [done|]. by apply (sound_with_trace w).
Qed.

Lemma reachable_sound doc w : reachable doc w -> sound w.
Proof.
  induction 1 as [|w w' _ IH Hstep]; [apply sound_page|].
  by apply (sound_step w).
Qed.

Lemma reachable_document doc w : reachable doc w -> document w = doc.
Proof.
  induction 1 as [|w w' _ IH Hstep]; [done|]. rewrite <- IH.
  destruct Hstep.
  - destruct (ViewRegistry2 arg w) as [[c arg'] w'] eqn:Hrun. cbn [snd].
    destruct c as [r|e|].
    + destruct arg as [|type_of|cfg]; [by injection Hrun as _ _ <-
                                       |by injection Hrun as _ _ <-|].
      rewrite ViewRegistry2_object in Hrun.
      destruct (prepare w cfg) as [cfg' [e|]] eqn:Hprep;
        [by injection Hrun as _ _ <-|].
      destruct (prepare_passes _ _ _ Hprep) as [sel Hp].
      destruct (construction_completes _ _ _ _ Hprep Hp)
        as (w1 & watch & Hrun1 & _ & _ & _ & _ & _ & Hdoc & _).
      rewrite ViewRegistry2_object, Hprep in Hrun1.
      rewrite Hrun1 in Hrun. by injection Hrun as _ _ <-.
    + by rewrite (failed_construction_changes_nothing _ _ _ _ _ Hrun).
    + destruct arg as [|type_of|cfg]; [by injection Hrun as _ _ <-
                                       |by injection Hrun as _ _ <-|].
      rewrite ViewRegistry2_object in Hrun.
      destruct (prepare w cfg) as [cfg' [e|]] eqn:Hprep;
        [by injection Hrun as _ _ <-|].
      destruct (prepare_passes _ _ _ Hprep) as [sel Hp].
      destruct (construction_completes _ _ _ _ Hprep Hp)
        as (w1 & watch & Hrun1 & _).
      rewrite ViewRegistry2_object, Hprep in Hrun1.
      rewrite Hrun1 in Hrun. done.
  - destruct (assign_state fuel r v w) as [c w'] eqn:Hrun.
    by apply assign_evolves in Hrun as [? _].
  - unfold next_turn. destruct (queue w) as [|[r] rest]; [done|].
    cbn [run_task]. unfold mbind, M_bind, bind, this. cbn.
    destruct (registries w !! r) as [R|]; [|done].
    destruct (assign_state _ _ _ _) as [c w'] eqn:Hrun.
    by apply assign_evolves in Hrun as [? _].
  - unfold createReaction, mbind, M_bind, bind, this.
    destruct (registries w !! r) as [R|]; [|done].
    destruct (_parent R); [|done]. by destruct (_reactions R).
  - unfold removeReaction, mbind, M_bind, bind, this.
    destruct (registries w !! r) as [R|]; [|done].
    destruct (managesReaction _ _); [|done]. by destruct (_reactions R).
  - done.
  - unfold fire, mbind, M_bind, bind, this.
    destruct (registries w !! r) as [R|] eqn:HR; [|done].
    destruct (_properties R) as [model|] eqn:Hm; [|done].
    assert (forall payload,
              document (emit fuel r "property.changed" payload w).2
              = document w) as Hemit.
    { intros payload. destruct fuel as [|f]; [done|].
      rewrite (emit_step _ _ _ _ _ _ HR).
      destruct (for_each _ _ _) as [c w'] eqn:Hrun. cbn [snd].
      eapply for_each_evolves in Hrun as [Hd _].
      - exact Hd.
      - intros. by eapply emit_evolves. }
    destruct ev; cbn [property_listener].
    + apply Hemit.
    + unfold mbind, M_bind, bind, this. rewrite HR, Hm. cbn. apply Hemit.
    + apply Hemit.
  - unfold get_properties, mbind, M_bind, bind, this.
    destruct (registries w !! r) as [R|]; [|done].
    by destruct (_properties R).
Qed.

(** ** Nothing is lost *)











(** The worlds of the examples can be reached. *)
Lemma reachable_A_offline : reachable Scenario.doc Scenario.A_offline.
Proof.
  apply (reach_step _ Scenario.A_built); [|apply step_turn].
  apply (reach_step _ (page Scenario.doc)); [apply reach_page|].
  apply (step_new (Object Scenario.A_cfg)).
Qed.

Lemma reachable_AB : reachable Scenario.doc Scenario.AB.
Proof.
  apply (reach_step _ Scenario.A_offline); [apply reachable_A_offline|].
  apply (step_new (Object (Scenario.B_cfg "active"))).
Qed.

Lemma normalize_fixed s :
  normalize s = s -> Js.trim s = s /\ Js.toLowerCase s = s.
Proof.
  intros H.
  assert (Js.toLowerCase s = s) as Hlow.
  { rewrite <- H at 1. unfold normalize.
    by rewrite toLowerCase_idempotent. }
  split; [|exact Hlow].
  rewrite <- H at 1. unfold normalize, Js.trim.
  rewrite trim_start_lower, trim_end_lower.
  fold (Js.trim s). fold (Js.trim (Js.trim s)).
  by rewrite trim_idempotent.
Qed.

(** X19. The state of a registry is always in normal form. In every
    world that can be reached from a page by constructing registries,
    assigning states, running deferred tasks, editing reaction tables,
    firing events of property models and reading [properties], the state
    that a registry reports is trimmed and in lower case. *)
Theorem states_are_always_normalized doc w (r : rid) R :
  reachable doc w ->
  registries w !! r = Some R ->
  normalize (get_state R) = get_state R
  /\ Js.trim (get_state R) = get_state R
  /\ Js.toLowerCase (get_state R) = get_state R.
Proof.
  intros Hreach HR.
  pose proof (s_state _ (reachable_sound _ _ Hreach) _ _ HR) as Hn.
  split; [exact Hn | by apply normalize_fixed].
Qed.

Lemma states_are_always_normalized_witness :
  Js.trim (get_state (Scenario.registry Scenario.AB 0))
  = get_state (Scenario.registry Scenario.AB 0).
Proof.
  destruct (states_are_always_normalized Scenario.doc Scenario.AB 0
              (Scenario.registry Scenario.AB 0)) as (_ & Htrim & _).
  - apply reachable_AB.
  - vm_compute. reflexivity.
  - exact Htrim.
Defined.

(** X20. Every registry has a handler under "default", always: the
    constructor puts a no-op there when the configuration has none, and
    nothing that can be called afterwards takes a handler away. *)
Theorem default_is_always_managed doc w (r : rid) R :
  reachable doc w ->
  registries w !! r = Some R ->
  managesState R "default" = true.
Proof.
  intros Hreach HR.
  by apply (s_default _ (reachable_sound _ _ Hreach) r).
Qed.

Lemma default_is_always_managed_witness :
  managesState (Scenario.registry Scenario.AB 1) "default" = true.
Proof.
  apply (default_is_always_managed Scenario.doc Scenario.AB 1).
  - apply reachable_AB.
  - vm_compute. reflexivity.
Defined.

(** X21. Parents are older than their children, and children stay
    scoped under them. In every reachable world a registry that has a
    parent was built after it, so that the parent relation has no
    cycles; the parent is still there; the child's selector is the
    parent's selector, a space, and a selector of its own; and the
    child's namespace begins with the parent's. *)
Theorem children_stay_scoped_under_parents doc w (c p : rid) C :
  reachable doc w ->
  registries w !! c = Some C ->
  _parent C = Some p ->
  p < c
  /\ exists P sel ns,
       registries w !! p = Some P
       /\ selector C = selector P ++ " " ++ sel
       /\ default "" (scope C) = default "" (scope P) ++ ns.
Proof.
  intros Hreach HC Hp.
  by apply (s_parent _ (reachable_sound _ _ Hreach) c C p).
Qed.

Lemma children_stay_scoped_under_parents_witness :
  exists P sel ns,
    registries Scenario.AB !! 0 = Some P
    /\ selector (Scenario.registry Scenario.AB 1) = selector P ++ " " ++ sel
    /\ default "" (scope (Scenario.registry Scenario.AB 1))
       = default "" (scope P) ++ ns.
Proof.
  apply (children_stay_scoped_under_parents Scenario.doc Scenario.AB 1 0
           (Scenario.registry Scenario.AB 1)).
  - apply reachable_AB.
  - vm_compute. reflexivity.
  - reflexivity.
Defined.





(** ** Events that cross registries *)

Lemma forward_property_all f w payload kids : forall w0,
  registries w0 = registries w ->
  bus w0 = bus w ->
  (forall k, k ∈ kids ->
     is_Some (registries w !! k)
     /\ subscribers (topic_of w k "parent.property.changed") w = []) ->
  for_each (fun l => notify (emit (S f)) l payload) (ForwardProperty <$> kids)
    w0
  = (Normal tt, extended (forwarded w payload <$> kids) w0).
Proof.
  induction kids as [|k kids IH]; intros w0 Hregs Hbus Hkids.
  - cbn. by rewrite extended_nil.
  - rewrite fmap_cons, for_each_cons.
    destruct (Hkids k ltac:(by left)) as [[K HK] Hnone].
    assert (registries w0 !! k = Some K) as HK0 by (by rewrite Hregs).
    unfold mbind, M_bind, bind. cbn [notify].
    rewrite (emit_step _ _ _ _ _ _ HK0).
    assert (subscribers (topic K "parent.property.changed") w0 = []) as ->.
    { unfold topic_of in Hnone. rewrite HK in Hnone.
      unfold subscribers in *. by rewrite Hbus. }
    cbn [for_each ret].
    rewrite IH; [|done|done|intros k' Hk'; apply Hkids; by right].
    rewrite logged_extended, extended_extended. cbn [fmap list_fmap app].
    unfold forwarded at 2, topic_of. by rewrite HK.
Qed.

(** X24. A property change of a parent is forwarded to its children as
    it is. When the listeners on the parent's [property.changed] topic
    are the forwarding listeners of the children [kids] (what the
    constructor subscribes), and nobody listens to the children's
    [parent.property.changed] topics, an event of the parent's property
    model makes the parent emit [property.changed] and then each child,
    in the order of subscription, emit [parent.property.changed] with
    the very same payload; the call completes and changes nothing but
    the trace, so no state changes and no handler runs. *)
Theorem property_changes_reach_the_children fuel w (p : rid) P model ev
    change kids :
  registries w !! p = Some P ->
  _properties P = Some model ->
  subscribers (topic P "property.changed") w = ForwardProperty <$> kids ->
  (forall k, k ∈ kids ->
     is_Some (registries w !! k)
     /\ subscribers (topic_of w k "parent.property.changed") w = []) ->
  fire (S (S fuel)) p ev change w
  = (Normal tt,
     extended
       (Emitted p "property.changed" (topic P "property.changed")
          (translation model ev change)
        :: (forwarded w (translation model ev change) <$> kids)) w).
Proof.
  intros HP Hm Hsub Hkids.
  rewrite (fire_emits _ _ _ _ _ _ _ HP Hm).
  rewrite (emit_step _ _ _ _ _ _ HP), Hsub.
  rewrite (forward_property_all _ w); try done.
  by rewrite logged_extended, extended_extended.
Qed.

Lemma property_changes_reach_the_children_witness :
  fire 2 0 field_update Demo.retitled Demo.DB
  = (Normal tt,
     extended
       [Emitted 0 "property.changed" "app.property.changed"
          (mkChange (Js.Str "title") (Js.Str "untitled") (Js.Str "Inbox"));
        Emitted 1 "parent.property.changed"
          "app.panel.parent.property.changed"
          (mkChange (Js.Str "title") (Js.Str "untitled") (Js.Str "Inbox"))]
       Demo.DB).
Proof.
  apply (property_changes_reach_the_children 0 Demo.DB 0
           (Scenario.registry Demo.DB 0) {[ "title" := Js.Str "untitled" ]}
           field_update Demo.retitled [1]).
  - vm_compute. reflexivity.
  - vm_compute. reflexivity.
  - vm_compute. reflexivity.
  - intros k Hk. apply list_elem_of_singleton in Hk as ->. split.
    + vm_compute. by eexists.
    + vm_compute. reflexivity.
Defined.



(** ** Hiding and showing *)












(** X29. Without an element there is nothing to hide or show. When the
    registry's self reference does not resolve (the element has been
    removed from the page, for one), [hide()] and [show()] raise a
    TypeError and change nothing: no style is written and
    [displaystate] keeps its value. *)
Theorem hide_and_show_need_the_element s (r : rid) R :
  registries (world s) !! r = Some R ->
  self R (world s) = None ->
  hide r s = (Throw no_element, s) /\ show r s = (Throw no_element, s).
Proof.
  intros HR He. unfold hide, show. by rewrite HR, He.
Qed.

Lemma hide_and_show_need_the_element_witness :
  hide 1 Demo.emptied = (Throw no_element, Demo.emptied)
  /\ show 1 Demo.emptied = (Throw no_element, Demo.emptied).
Proof.
  apply (hide_and_show_need_the_element Demo.emptied 1
           (Scenario.registry Scenario.AB 1)).
  - vm_compute. reflexivity.
  - vm_compute. reflexivity.
Defined.

(** ** Destroying, and reading the properties *)

(** [destroy()] asks for the DOM layer first: without [NGN.DOM] it throws
    before it looks at anything; with it, it hands what [self] resolves
    to over to [NGN.DOM.destroy]. *)
Lemma destroy_needs_the_dom_layer DOM_destroy (r : rid) w :
  destroy false DOM_destroy r w
  = (Throw (Error "NGN.DOM is required to invoke the destroy method."), w)
  /\ forall R, registries w !! r = Some R ->
               destroy true DOM_destroy r w = DOM_destroy (self R w) w.
Proof.
  split; [reflexivity|]. intros R HR. unfold destroy.
  by rewrite (bind_this _ _ _ _ HR).
Qed.


